(** * AI-CV-BUILDER: tailoring and rendering pipeline

    A shallow embedding of the backend services of the repository
    (KeywordService, ClaudeService, ContentService, LatexService) and
    the properties of the design specification checked against them.

    Conventions of the embedding.
    - JavaScript strings are [string]; the text handled is ASCII, so
      [toLowerCase], the word class [\w] and the space class [\s] are
      the ASCII ones.
    - JavaScript numbers that hold weights and scores are exact
      rationals ([Qc]); the non-finite results of a division are kept
      apart in [number].  Rounding error of doubles is not modelled.
    - A [Map] or [Set] keyed by strings is a [gmap] or [gset]; where the
      iteration order of a [Map] or of an object matters it is a list
      of bindings in insertion order.
    - [Array.prototype.sort] is the stable sort the language prescribes.
    - [String.prototype.replace] expands the [$] patterns of its
      replacement string.
    - A regular expression built from a keyword is interpreted when the
      keyword has no metacharacter; the constructor is known to throw
      when the keyword has two [+] in a row; other patterns are left
      uninterpreted.
    - An exception is a [Throw] result.  The generative-text service is
      a function from the number of the call to its reply; every
      behaviour of the service is such a function.
    - The file system of a render job is a pair of maps from file names
      to sizes; what the job does not decide is its [environment]. *)

From Stdlib Require Import ZArith QArith Qcanon Qround String Ascii List DecimalString.
From Stdlib Require Import Sorting.Permutation Sorting.Sorted.
From stdpp Require Import gmap strings list.

Local Open Scope string_scope.
Local Open Scope list_scope.

(** ** JavaScript primitives *)

Module JS.

(** [Number] results that need not be finite. *)
Inductive number : Type :=
| Fin (q : Qc)
| NaN
| PosInf
| NegInf.

(** [a / b] on finite operands. *)
Definition div (a b : Qc) : number :=
  if decide (b = 0%Qc) then
    if decide (a = 0%Qc) then NaN
    else if Qclt_le_dec 0%Qc a then PosInf else NegInf
  else Fin (a / b)%Qc.

(** [x * k] for a finite, positive constant [k]. *)
Definition mul_pos (x : number) (k : Qc) : number :=
  match x with
  | Fin q => Fin (q * k)%Qc
  | other => other
  end.

(** [Math.round] on a rational: the nearest integer, halves upwards. *)
Definition round_Qc (q : Qc) : Z := Qfloor (q + Q2Qc (1 # 2))%Qc.

Definition Z2Qc (z : Z) : Qc := Q2Qc (inject_Z z).

Definition Math_round (x : number) : number :=
  match x with
  | Fin q => Fin (Z2Qc (round_Qc q))
  | other => other
  end.

(** [String.prototype.toLowerCase], ASCII. *)
Definition lower_ascii (c : ascii) : ascii :=
  let n := nat_of_ascii c in
  if (65 <=? n)%nat && (n <=? 90)%nat then ascii_of_nat (n + 32) else c.

Fixpoint toLowerCase (s : string) : string :=
  match s with
  | EmptyString => EmptyString
  | String c rest => String (lower_ascii c) (toLowerCase rest)
  end.

(** [Array.prototype.sort(cmp)]: stable; [negative a b] stands for
    [cmp(a, b) < 0], which places [a] strictly before [b]. *)
Section Sort.
Context {A : Type} (negative : A -> A -> bool).

Fixpoint sort_insert (x : A) (l : list A) : list A :=
  match l with
  | [] => [x]
  | y :: ys => if negative y x then y :: sort_insert x ys else x :: y :: ys
  end.

Fixpoint Array_sort (l : list A) : list A :=
  match l with
  | [] => []
  | x :: xs => sort_insert x (Array_sort xs)
  end.
End Sort.

(** [arr.slice(0, n)]. *)
Definition slice0 {A : Type} (n : nat) (l : list A) : list A := firstn n l.

(** Character classes of the regular expressions used by the services:
    [\s] and [\w], ASCII. *)
Definition is_space (c : ascii) : bool :=
  let n := nat_of_ascii c in
  (n =? 32)%nat || ((9 <=? n)%nat && (n <=? 13)%nat).

Definition is_word (c : ascii) : bool :=
  let n := nat_of_ascii c in
  ((48 <=? n)%nat && (n <=? 57)%nat) || ((65 <=? n)%nat && (n <=? 90)%nat)
  || (n =? 95)%nat || ((97 <=? n)%nat && (n <=? 122)%nat).

Definition snoc (s : string) (c : ascii) : string := s +:+ String c EmptyString.

(** The backslash, as a character and as a string. *)
Definition backslash : ascii := ascii_of_nat 92.
Definition bs : string := String backslash EmptyString.

(** [str.split(/\s+/)]: the pieces between maximal runs of white space;
    a leading or trailing run leaves an empty piece. *)
Fixpoint split_ws_go (cur : string) (in_ws : bool) (s : string) : list string :=
  match s with
  | EmptyString => [cur]
  | String c rest =>
      if is_space c then
        if in_ws then split_ws_go cur true rest
        else cur :: split_ws_go EmptyString true rest
      else split_ws_go (snoc cur c) false rest
  end.

Definition split_ws (s : string) : list string := split_ws_go EmptyString false s.

(** [str.match(/\b\w+\b/g) || []]: the maximal runs of word characters. *)
Fixpoint words_go (cur : string) (s : string) : list string :=
  match s with
  | EmptyString => if decide (cur = EmptyString) then [] else [cur]
  | String c rest =>
      if is_word c then words_go (snoc cur c) rest
      else if decide (cur = EmptyString) then words_go EmptyString rest
      else cur :: words_go EmptyString rest
  end.

Definition words (s : string) : list string := words_go EmptyString s.

(** [arr.join(sep)] on strings. *)
Fixpoint join (sep : string) (l : list string) : string :=
  match l with
  | [] => EmptyString
  | [x] => x
  | x :: rest => x +:+ sep +:+ join sep rest
  end.

Fixpoint drop_chars (n : nat) (s : string) : string :=
  match n, s with
  | O, _ => s
  | S k, EmptyString => EmptyString
  | S k, String _ rest => drop_chars k rest
  end.

(** [str.split(sep)] for a non-empty separator string. *)
Fixpoint split_on_go (sep : string) (skip : nat) (cur : string) (s : string)
    : list string :=
  match s with
  | EmptyString => [cur]
  | String c rest =>
      match skip with
      | S k => split_on_go sep k cur rest
      | O =>
          if String.prefix sep s
          then cur :: split_on_go sep (String.length sep - 1) EmptyString rest
          else split_on_go sep O (snoc cur c) rest
      end
  end.

Definition split_on (sep : string) (s : string) : list string :=
  split_on_go sep O EmptyString s.

(** [str.trim()]. *)
Fixpoint trimStart (s : string) : string :=
  match s with
  | EmptyString => EmptyString
  | String c rest => if is_space c then trimStart rest else s
  end.

Fixpoint trimEnd (s : string) : string :=
  match s with
  | EmptyString => EmptyString
  | String c rest =>
      match trimEnd rest with
      | EmptyString => if is_space c then EmptyString else String c EmptyString
      | t => String c t
      end
  end.

Definition trim (s : string) : string := trimEnd (trimStart s).

Definition is_quote (c : ascii) : bool :=
  let n := nat_of_ascii c in (n =? 34)%nat || (n =? 39)%nat.

Fixpoint dropLastQuote (s : string) : string :=
  match s with
  | EmptyString => EmptyString
  | String c EmptyString => if is_quote c then EmptyString else s
  | String c rest => String c (dropLastQuote rest)
  end.

(** [str.replace(/^["']|["']$/g, '')]: one quote character is removed
    from the start and one from the end (of the original string). *)
Definition stripQuotes (s : string) : string :=
  match s with
  | EmptyString => EmptyString
  | String c EmptyString => if is_quote c then EmptyString else s
  | String c rest =>
      if is_quote c then dropLastQuote rest else String c (dropLastQuote rest)
  end.

(** [x || dflt] on an optional string: the empty string is falsy too. *)
Definition orElse (x : option string) (dflt : string) : string :=
  match x with
  | Some s => if decide (s = EmptyString) then dflt else s
  | None => dflt
  end.

(** [String(n)] for a natural number. *)
Definition string_of_nat (n : nat) : string :=
  NilEmpty.string_of_uint (Nat.to_uint n).

Definition string_of_N (n : N) : string :=
  NilEmpty.string_of_uint (N.to_uint n).

(** *** [String.prototype.replace] with a global pattern

    The patterns of the services are literal texts (a single character
    in [escapeLatex], a marker [<<NAME>>] in [populateTemplate]); the
    replacement is a string, which the language expands: [$$] is a
    dollar sign, [$&] the matched text, [$`] the text before the match
    and [$'] the text after it.  With no capture group in the pattern
    every other [$] stands for itself. *)
Fixpoint getSubstitution (matched before after : string) (repl : string) : string :=
  match repl with
  | EmptyString => EmptyString
  | String c tail =>
      if Ascii.eqb c "$" then
        match tail with
        | EmptyString => String c EmptyString
        | String d r =>
            if Ascii.eqb d "$" then String "$" (getSubstitution matched before after r)
            else if Ascii.eqb d "&" then matched +:+ getSubstitution matched before after r
            else if Ascii.eqb d "`" then before +:+ getSubstitution matched before after r
            else if Ascii.eqb d "'" then after +:+ getSubstitution matched before after r
            else String c (getSubstitution matched before after tail)
        end
      else String c (getSubstitution matched before after tail)
  end.

(** What a pass of [replace] leaves of the subject: characters kept,
    and the text put in place of each match. *)
Inductive segment : Type :=
| Kept (c : ascii)
| Substituted (text : string).

Definition segment_text (g : segment) : string :=
  match g with
  | Kept c => String c EmptyString
  | Substituted t => t
  end.

(** Scan of the subject from left to right; [before] is what has been
    read, [skip] the characters of the current match still to pass. *)
Fixpoint replace_go (pat repl : string) (skip : nat) (before : string) (s : string)
    : list segment :=
  match s with
  | EmptyString => []
  | String c rest =>
      match skip with
      | S k => replace_go pat repl k (snoc before c) rest
      | O =>
          if String.prefix pat s
          then Substituted
                 (getSubstitution pat before (drop_chars (String.length pat) s) repl)
               :: replace_go pat repl (String.length pat - 1) (snoc before c) rest
          else Kept c :: replace_go pat repl O (snoc before c) rest
      end
  end.

Definition replaceSegments (pat repl s : string) : list segment :=
  replace_go pat repl O EmptyString s.

Fixpoint concat_strings (l : list string) : string :=
  match l with
  | [] => EmptyString
  | x :: rest => x +:+ concat_strings rest
  end.

(** [s.replace(new RegExp(pat, 'g'), repl)] for a literal, non-empty [pat]. *)
Definition replaceAll (pat repl s : string) : string :=
  concat_strings (List.map segment_text (replaceSegments pat repl s)).

End JS.

(** ** Exceptions and the generative-text service *)

Module Effects.

Inductive error : Type :=
| ExternalServiceError (message : string)
| PlainError (message : string)
| TypeError
| SyntaxError.

Inductive result (A : Type) : Type :=
| Ok (value : A)
| Throw (e : error).
Arguments Ok {A} value.
Arguments Throw {A} e.

(** One reply of [client.messages.create]: a response, of which
    [response.content[0]?.text] is kept ([None] when it is absent), or a
    rejection with its [status] ([None] for a transport failure, which
    carries no status) and its [message]. *)
Inductive apiReply : Type :=
| Response (text : option string)
| Rejected (status : option nat) (message : string).

(** What a run leaves behind: the number of calls made to the service
    and the delays slept through, in milliseconds, oldest first. *)
Record world : Type := World {
  calls : nat;
  sleeps : list nat
}.

Definition initial : world := World 0 [].

(** The values [JSON.parse] can return, as far as [generateSkillsList]
    and its caller tell them apart: an array, of which each element is
    [Some s] for a string [s] and [None] for a value without a
    [toLowerCase] method, or something else. *)
Inductive json : Type :=
| JArray (items : list (option string))
| JNotArray.

End Effects.

(** ** KeywordService (src/unnamed/part_007) *)

Module KeywordService.
Import JS.

(** A job keyword arrives either as a bare string or as an object
    [{keyword, weight, category}]. *)
Inductive jobKeyword : Type :=
| KwString (text : string)
| KwObject (keyword : string) (weight : Qc) (category : string).

(** [typeof jk === 'string' ? jk : jk.keyword] *)
Definition keywordOf (jk : jobKeyword) : string :=
  match jk with
  | KwString s => s
  | KwObject k _ _ => k
  end.

(** [typeof jk === 'object' ? jk.weight : 1.0] *)
Definition weightOf (jk : jobKeyword) : Qc :=
  match jk with
  | KwString _ => 1%Qc
  | KwObject _ w _ => w
  end.

(** Entries produced by [extractUserKeywords]. *)
Record userKeyword : Type := UserKeyword {
  uk_keyword : string;
  uk_weight : Qc;
  uk_source : string
}.

Record keywordMatch : Type := KeywordMatch {
  m_keyword : string;
  jobWeight : Qc;
  userWeight : Qc;
  matchStrength : Qc
}.

(** Lines 432-441. *)
Definition calculateMatchStrength (userKw : userKeyword) (jk : jobKeyword) : Qc :=
  if decide (toLowerCase (uk_keyword userKw) = toLowerCase (keywordOf jk))
  then 1%Qc
  else Q2Qc (8 # 10).

(** The [Map] filled by the first [forEach] of [findKeywordMatches]. *)
Definition userKeywordMap (userKeywords : list userKeyword) : gmap string userKeyword :=
  fold_left (fun m uk => <[toLowerCase (uk_keyword uk) := uk]> m) userKeywords ∅.

(** Lines 237-260. *)
Definition findKeywordMatches (userKeywords : list userKeyword)
    (jobKeywords : list jobKeyword) : list keywordMatch :=
  let map := userKeywordMap userKeywords in
  let matches :=
    fold_left (fun acc jk =>
      let jobKeyword := keywordOf jk in
      match map !! toLowerCase jobKeyword with
      | Some userMatch =>
          acc ++ [KeywordMatch jobKeyword (weightOf jk) (uk_weight userMatch)
                    (calculateMatchStrength userMatch jk)]
      | None => acc
      end) jobKeywords [] in
  Array_sort (fun a b => bool_decide (matchStrength b - matchStrength a < 0)%Qc) matches.

(** Lines 268-280. *)
Definition calculateMatchScore (matches : list keywordMatch)
    (jobKeywords : list jobKeyword) : number :=
  if decide (length jobKeywords = 0%nat) then Fin 0%Qc
  else
    let totalJobWeight :=
      fold_left (fun sum jk => (sum + weightOf jk)%Qc) jobKeywords 0%Qc in
    let matchedWeight :=
      fold_left (fun sum m => (sum + jobWeight m * matchStrength m)%Qc) matches 0%Qc in
    Math_round (mul_pos (div matchedWeight totalJobWeight) (Z2Qc 100)).

(** *** Merging and ranking, lines 320-388 *)

Inductive source : Type := Claude | Basic.

Global Instance source_eq_dec : EqDecision source.
Proof. solve_decision. Defined.

(** A keyword as [claudeService.extractKeywords] and
    [basicKeywordExtraction] return it. *)
Record extracted : Type := Extracted {
  kw_text : string;
  kw_weight : Qc;
  kw_category : string
}.

(** A value of the [Map] of [mergeKeywords]. *)
Record merged : Type := Merged {
  mg_keyword : extracted;
  sources : list source
}.

(** [keywordMap.set(key, value)]: a key already present keeps its place
    in the iteration order. *)
Fixpoint mapSet (key : string) (value : merged) (entries : list (string * merged))
    : list (string * merged) :=
  match entries with
  | [] => [(key, value)]
  | (k, v) :: rest =>
      if decide (k = key) then (k, value) :: rest
      else (k, v) :: mapSet key value rest
  end.

(** [keywordMap.get(key).sources.push('basic')]; the key is present. *)
Fixpoint pushBasic (key : string) (entries : list (string * merged))
    : list (string * merged) :=
  match entries with
  | [] => []
  | (k, v) :: rest =>
      if decide (k = key) then (k, Merged (mg_keyword v) (sources v ++ [Basic])) :: rest
      else (k, v) :: pushBasic key rest
  end.

Definition mapHas (key : string) (entries : list (string * merged)) : bool :=
  existsb (fun e => bool_decide (fst e = key)) entries.

(** Lines 320-345. *)
Definition mergeKeywords (claudeKeywords basicKeywords : list extracted) : list merged :=
  let keywordMap :=
    fold_left (fun keywordMap ck =>
      mapSet (toLowerCase (kw_text ck)) (Merged ck [Claude]) keywordMap)
      claudeKeywords [] in
  let keywordMap :=
    fold_left (fun keywordMap bk =>
      let key := toLowerCase (kw_text bk) in
      if mapHas key keywordMap then pushBasic key keywordMap
      else mapSet key (Merged bk [Basic]) keywordMap)
      basicKeywords keywordMap in
  List.map snd keywordMap.

(** The characters with a meaning of their own in a regular
    expression. *)
Definition isMeta (c : ascii) : bool :=
  bool_decide (c ∈ [backslash; "^"; "$"; "."; "|"; "?"; "*"; "+"; "("; ")"; "["; "]"; "{"; "}"]%char).

Fixpoint allChars (p : ascii -> bool) (s : string) : bool :=
  match s with
  | EmptyString => true
  | String c rest => p c && allChars p rest
  end.

Fixpoint contains (sub s : string) : bool :=
  match s with
  | EmptyString => String.prefix sub EmptyString
  | String _ rest => String.prefix sub s || contains sub rest
  end.

(** The keyword is copied into the pattern as it is.  Without a
    metacharacter it stands for itself. *)
Definition literal (keyword : string) : bool := allChars (fun c => negb (isMeta c)) keyword.

(** With [+] as its only metacharacter and two of them in a row, the
    pattern has a quantifier with nothing to repeat, and [new RegExp]
    throws a [SyntaxError]. *)
Definition doubledPlus (keyword : string) : bool :=
  allChars (fun c => negb (isMeta c) || Ascii.eqb c "+") keyword && contains "++" keyword.

Definition isWordOpt (c : option ascii) : bool :=
  match c with
  | Some c => is_word c
  | None => false
  end.

Definition headOf (s : string) : option ascii :=
  match s with
  | EmptyString => None
  | String c _ => Some c
  end.

(** [\b] between two neighbours, [None] being an end of the text. *)
Definition wordBoundary (prev next : option ascii) : bool :=
  xorb (isWordOpt prev) (isWordOpt next).

(** [keyword] read off the front of [s] up to case; the result is what
    follows it and the last character read. *)
Fixpoint readKeyword (keyword s : string) (last : option ascii)
    : option (string * option ascii) :=
  match keyword with
  | EmptyString => Some (s, last)
  | String k keyword' =>
      match s with
      | EmptyString => None
      | String c s' =>
          if Ascii.eqb (lower_ascii k) (lower_ascii c)
          then readKeyword keyword' s' (Some c)
          else None
      end
  end.

(** [/\bkeyword\b/i] matches at the start of [s], which [prev]
    precedes. *)
Definition matchesHere (keyword : string) (prev : option ascii) (s : string) : bool :=
  wordBoundary prev (headOf s)
  && match readKeyword keyword s prev with
     | Some (rest, last) => wordBoundary last (headOf rest)
     | None => false
     end.

(** [text.match(/\bkeyword\b/gi)]: the matches are counted from left to
    right, each search starting where the last match ended (one
    character further after an empty match). *)
Fixpoint countMatches_go (keyword : string) (skip : nat) (prev : option ascii)
    (s : string) : nat :=
  match s with
  | EmptyString =>
      match skip with
      | O => if matchesHere keyword prev EmptyString then 1 else 0
      | S _ => 0
      end
  | String c rest =>
      match skip with
      | S k => countMatches_go keyword k (Some c) rest
      | O =>
          if matchesHere keyword prev s
          then S (countMatches_go keyword (String.length keyword - 1) (Some c) rest)
          else countMatches_go keyword O (Some c) rest
      end
  end.

Definition countMatches (keyword text : string) : nat :=
  countMatches_go keyword O None text.

(** Lines 370-374.  [None]: the pattern is a regular expression that
    this development does not interpret. *)
Definition calculateFrequency (keyword text : string) : option (Effects.result nat) :=
  if literal keyword then Some (Effects.Ok (countMatches keyword text))
  else if doubledPlus keyword then Some (Effects.Throw Effects.SyntaxError)
  else None.

(** [keyword.weight || 1.0] *)
Definition baseWeight (k : merged) : Qc :=
  if decide (kw_weight (mg_keyword k) = 0%Qc) then 1%Qc else kw_weight (mg_keyword k).

(** [keyword.sources?.includes('claude') ? 0.2 : 0] *)
Definition sourceBonus (k : merged) : Qc :=
  if bool_decide (Claude ∈ sources k) then Q2Qc (2 # 10) else 0%Qc.

(** The value of [baseWeight + (frequency * 0.1) + sourceBonus]. *)
Definition scoreOf (k : merged) (frequency : nat) : Qc :=
  (baseWeight k + Z2Qc (Z.of_nat frequency) * Q2Qc (1 # 10) + sourceBonus k)%Qc.

(** Lines 382-388. *)
Definition calculateFinalScore (k : merged) (text : string) : option (Effects.result Qc) :=
  match calculateFrequency (kw_text (mg_keyword k)) text with
  | Some (Effects.Ok frequency) => Some (Effects.Ok (scoreOf k frequency))
  | Some (Effects.Throw e) => Some (Effects.Throw e)
  | None => None
  end.

Record ranked : Type := Ranked {
  rk_keyword : merged;
  frequency : nat;
  finalScore : Qc
}.

(** The callback of [map] in [rankKeywords]. *)
Definition rankOne (k : merged) (text : string) : option (Effects.result ranked) :=
  match calculateFrequency (kw_text (mg_keyword k)) text with
  | Some (Effects.Ok frequency) =>
      match calculateFinalScore k text with
      | Some (Effects.Ok finalScore) => Some (Effects.Ok (Ranked k frequency finalScore))
      | Some (Effects.Throw e) => Some (Effects.Throw e)
      | None => None
      end
  | Some (Effects.Throw e) => Some (Effects.Throw e)
  | None => None
  end.

(** [keywords.map(...)], the first exception ending it. *)
Fixpoint rankEach (keywords : list merged) (text : string)
    : option (Effects.result (list ranked)) :=
  match keywords with
  | [] => Some (Effects.Ok [])
  | k :: rest =>
      match rankOne k text with
      | Some (Effects.Ok r) =>
          match rankEach rest text with
          | Some (Effects.Ok rs) => Some (Effects.Ok (r :: rs))
          | other => other
          end
      | Some (Effects.Throw e) => Some (Effects.Throw e)
      | None => None
      end
  end.

(** Lines 353-362. *)
Definition rankKeywords (keywords : list merged) (text : string)
    : option (Effects.result (list ranked)) :=
  match rankEach keywords text with
  | Some (Effects.Ok scored) =>
      Some (Effects.Ok
        (slice0 20
           (Array_sort (fun a b => bool_decide (finalScore b - finalScore a < 0)%Qc)
              scored)))
  | other => other
  end.

(** What [extractJobKeywords] returns, lines 12-59: the ranked
    keywords, or after an exception the keywords of
    [basicKeywordExtraction] as they are.  [claudeKeywords] is the
    value of [claudeService.extractKeywords], which does not throw, and
    [basicKeywords] that of [basicKeywordExtraction]. *)
Inductive extraction : Type :=
| ClaudeEnhanced (keywords : list ranked)
| BasicFallback (keywords : list extracted).

Definition extractJobKeywords (claudeKeywords basicKeywords : list extracted)
    (jobDescriptionText : string) : option extraction :=
  match rankKeywords (mergeKeywords claudeKeywords basicKeywords) jobDescriptionText with
  | Some (Effects.Ok rankedKeywords) => Some (ClaudeEnhanced rankedKeywords)
  | Some (Effects.Throw _) => Some (BasicFallback basicKeywords)
  | None => None
  end.

End KeywordService.

(** ** The candidate profile, as the services read it *)

Module Profile.

Inductive bullet : Type :=
| BulletString (s : string)
| BulletObject (text : string).

(** [typeof bullet === 'string' ? bullet : bullet.text] *)
Definition bulletText (b : bullet) : string :=
  match b with
  | BulletString s => s
  | BulletObject t => t
  end.

Record experience : Type := Experience {
  company : string;
  role : string;
  start_date : string;
  end_date : option string;
  bullets : option (list bullet)
}.

Inductive skill : Type :=
| SkillString (s : string)
| SkillObject (name : option string).

(** [typeof s === 'string' ? s : s.name]; [None] is [undefined]. *)
Definition skillName (s : skill) : option string :=
  match s with
  | SkillString n => Some n
  | SkillObject n => n
  end.

Record project : Type := Project {
  p_name : string;
  p_description : option string;
  p_technologies : option (list string)
}.

Record education : Type := Education {
  e_degree : string;
  e_institution : string;
  e_start_date : string;
  e_end_date : option string;
  e_gpa : option string;
  e_relevant_courses : option (list string)
}.

Record personal : Type := Personal {
  name : option string;
  email : option string
}.

Record userProfile : Type := UserProfile {
  up_personal : option personal;
  work_experience : option (list experience);
  skills : option (list skill);
  projects : option (list project);
  up_education : option (list education)
}.

End Profile.

(** ** ClaudeService (src/unnamed/part_008) *)

Module ClaudeService.
Import JS Effects KeywordService Profile.

Definition maxRetries : nat := 3.
Definition retryDelay : nat := 1000.

Section WithService.
(** The reply of the service to its [n]-th call. *)
Context (service : nat -> apiReply).

(** [error.status >= 400 && error.status < 500 && error.status !== 429];
    the comparisons fail on a missing status. *)
Definition clientError (status : option nat) : bool :=
  match status with
  | Some st => (400 <=? st)%nat && (st <? 500)%nat && negb (st =? 429)%nat
  | None => false
  end.

(** Lines 28-88; [fuel] counts the iterations left to the [for] loop and
    [attempt] is its counter.  A loop that ran out would return
    [undefined], here [Ok None].  The prompt and the options of the
    request do not bear on the control flow and are left out. *)
Fixpoint attemptLoop (fuel attempt : nat) (w : world) : result (option string) * world :=
  match fuel with
  | O => (Ok None, w)
  | S fuel' =>
      let reply := service (calls w) in
      let w1 := World (S (calls w)) (sleeps w) in
      let failed (status : option nat) (message : string) :=
        if clientError status then
          (Throw (ExternalServiceError ("Claude API error: " +:+ message)), w1)
        else if (attempt =? maxRetries)%nat then
          (Throw (ExternalServiceError
                    ("Claude API failed after " +:+ string_of_nat maxRetries
                     +:+ " attempts: " +:+ message)), w1)
        else
          attemptLoop fuel' (S attempt)
            (World (calls w1) (sleeps w1 ++ [retryDelay * 2 ^ (attempt - 1)]))
      in
      match reply with
      | Response (Some content) =>
          if decide (content = EmptyString)
          then failed None "Empty response from Claude API"
          else (Ok (Some content), w1)
      | Response None => failed None "Empty response from Claude API"
      | Rejected status message => failed status message
      end
  end.

Definition makeRequest (w : world) : result (option string) * world :=
  attemptLoop maxRetries 1 w.

(** [keywords.slice(0, n).map(k => typeof k === 'string' ? k : k.keyword).join(', ')] *)
Definition keywordList (n : nat) (keywords : list jobKeyword) : string :=
  join ", " (List.map keywordOf (slice0 n keywords)).

(** Lines 144-167.  The prompt is not modelled: the reply depends on the
    call only. *)
Definition rewriteBullet (bullet : string) (keywords : list jobKeyword) (w : world)
    : string * world :=
  match makeRequest w with
  | (Ok (Some response), w') => (stripQuotes (trim response), w')
  | (_, w') => (bullet, w')
  end.

(** Lines 176-208; [userProfile] and [jobDescription] only feed the
    prompt. *)
Definition generateSummary (userProfile : userProfile) (jobDescription : string)
    (keywords : list jobKeyword) (w : world) : result string * world :=
  let keywordList := keywordList 8 keywords in
  match makeRequest w with
  | (Ok (Some response), w') => (Ok (stripQuotes (trim response)), w')
  | (_, w') =>
      (Ok ("Experienced professional with expertise in "
           +:+ join ", " (slice0 3 (split_on ", " keywordList))
           +:+ ". Proven track record of delivering results in dynamic environments. Seeking to leverage skills and experience in a challenging new role."),
       w')
  end.

(** [JSON.parse]; [None] is a [SyntaxError]. *)
Context (JSON_parse : string -> option json).

(** Lines 215-246. *)
Definition generateSkillsList (keywords : list jobKeyword) (w : world)
    : list (option string) * world :=
  let fallback :=
    slice0 12
      (List.map (fun k => Some (keywordOf k))
         (List.filter (fun k => bool_decide (Q2Qc (5 # 10) < weightOf k)%Qc) keywords)) in
  match makeRequest w with
  | (Ok (Some response), w') =>
      match JSON_parse (trim response) with
      | Some (JArray items) => (items, w')
      | Some JNotArray => ([], w')
      | None => (fallback, w')
      end
  | (_, w') => (fallback, w')
  end.

End WithService.
End ClaudeService.

(** ** ContentService (src/backend/src/services/contentService.js) *)

Module ContentService.
Import JS Effects KeywordService Profile.

(** [new Set(keywords.map(k => (typeof k === 'string' ? k : k.keyword).toLowerCase()))] *)
Definition keywordSet (keywords : list jobKeyword) : gset string :=
  list_to_set (List.map (fun k => toLowerCase (keywordOf k)) keywords).

(** [words.forEach(word => { if (keywordSet.has(word)) score += n })] *)
Definition addHits (n : nat) (set : gset string) (ws : list string) (score : nat) : nat :=
  fold_left (fun score word => if decide (word ∈ set) then score + n else score) ws score.

(** Lines 176-201. *)
Definition calculateExperienceRelevance (exp : experience) (keywords : list jobKeyword)
    : nat :=
  let score := 0 in
  let keywordSet := keywordSet keywords in
  let roleWords := split_ws (toLowerCase (role exp)) in
  let score := addHits 2 keywordSet roleWords score in
  match bullets exp with
  | Some bs =>
      fold_left (fun score bullet =>
        let bulletWords := words (toLowerCase (bulletText bullet)) in
        addHits 1 keywordSet bulletWords score) bs score
  | None => score
  end.

(** An entry of [scoredExperiences]: the fields of the experience and
    its [relevanceScore]. *)
Record scoredExperience : Type := Scored {
  s_exp : experience;
  s_score : nat
}.

(** An entry of the tailored CV. *)
Record tailoredExperience : Type := TailoredExperience {
  t_company : string;
  t_role : string;
  t_dates : string;
  t_bullets : list string;
  t_relevanceScore : nat
}.

(** [(a, b) => b.relevanceScore - a.relevanceScore] is negative when [a]
    scores strictly more than [b]. *)
Definition byScoreDesc {A : Type} (score : A -> nat) (a b : A) : bool :=
  (score b <? score a)%nat.

(** Lines 143-151: the entries selected, before their bullets are
    rewritten. *)
Definition topExperiences (experiences : list experience) (keywords : list jobKeyword)
    : list scoredExperience :=
  let scoredExperiences :=
    List.map (fun exp => Scored exp (calculateExperienceRelevance exp keywords))
      experiences in
  slice0 4 (Array_sort (byScoreDesc s_score) scoredExperiences).

Section WithService.
Context (service : nat -> apiReply) (JSON_parse : string -> option json).

(** The [for] loop of [enhanceExperienceBullets]: [rewriteBullet] does
    not throw, so the [catch] block of the loop never runs. *)
Fixpoint enhanceLoop (selectedBullets : list bullet) (topKeywords : list jobKeyword)
    (w : world) : list string * world :=
  match selectedBullets with
  | [] => ([], w)
  | bullet :: rest =>
      let '(enhancedBullet, w1) :=
        ClaudeService.rewriteBullet service (bulletText bullet) topKeywords w in
      let '(others, w2) := enhanceLoop rest topKeywords w1 in
      (enhancedBullet :: others, w2)
  end.

(** Lines 209-233; the result is the [bullets] field of the value
    returned. *)
Definition enhanceExperienceBullets (exp : experience) (keywords : list jobKeyword)
    (w : world) : list string * world :=
  match bullets exp with
  | None => ([], w)
  | Some [] => ([], w)
  | Some bs =>
      let topKeywords := slice0 5 keywords in
      let selectedBullets := slice0 4 bs in
      enhanceLoop selectedBullets topKeywords w
  end.

Fixpoint enhanceAll (top : list scoredExperience) (keywords : list jobKeyword)
    (w : world) : list tailoredExperience * world :=
  match top with
  | [] => ([], w)
  | exp :: rest =>
      let '(bs, w1) := enhanceExperienceBullets (s_exp exp) keywords w in
      let entry :=
        TailoredExperience (company (s_exp exp)) (role (s_exp exp))
          (start_date (s_exp exp) +:+ " - " +:+ orElse (end_date (s_exp exp)) "Present")
          bs (s_score exp) in
      let '(others, w2) := enhanceAll rest keywords w1 in
      (entry :: others, w2)
  end.

(** Lines 139-168. *)
Definition selectAndEnhanceExperience (experiences : list experience)
    (keywords : list jobKeyword) (w : world) : list tailoredExperience * world :=
  match experiences with
  | [] => ([], w)
  | _ => enhanceAll (topExperiences experiences keywords) keywords w
  end.

(** [x.toLowerCase()] on a value that may not be a string. *)
Definition lowerOf (x : option string) : result string :=
  match x with
  | Some s => Ok (toLowerCase s)
  | None => Throw TypeError
  end.

(** [prioritizedSkills.some(ps => ps.toLowerCase() === skill.toLowerCase())] *)
Fixpoint someSame (prioritizedSkills : list (option string)) (skill : option string)
    : result bool :=
  match prioritizedSkills with
  | [] => Ok false
  | ps :: rest =>
      match lowerOf ps with
      | Throw e => Throw e
      | Ok lps =>
          match lowerOf skill with
          | Throw e => Throw e
          | Ok ls => if decide (lps = ls) then Ok true else someSame rest skill
          end
      end
  end.

(** The first [forEach] of [generateTailoredSkills], lines 258-262. *)
Fixpoint addMatching (set : gset string) (names : list (option string))
    (prioritizedSkills : list (option string)) : result (list (option string)) :=
  match names with
  | [] => Ok prioritizedSkills
  | skill :: rest =>
      match lowerOf skill with
      | Throw e => Throw e
      | Ok l =>
          addMatching set rest
            (if decide (l ∈ set) then prioritizedSkills ++ [skill] else prioritizedSkills)
      end
  end.

(** The second and third [forEach], lines 265-276. *)
Fixpoint addMissing (candidates : list (option string))
    (prioritizedSkills : list (option string)) : result (list (option string)) :=
  match candidates with
  | [] => Ok prioritizedSkills
  | skill :: rest =>
      match someSame prioritizedSkills skill with
      | Throw e => Throw e
      | Ok true => addMissing rest prioritizedSkills
      | Ok false => addMissing rest (prioritizedSkills ++ [skill])
      end
  end.

(** Lines 241-286. *)
Definition generateTailoredSkills (userSkills : list skill) (jobKeywords : list jobKeyword)
    (w : world) : list (option string) * world :=
  let '(claudeSkills, w1) :=
    ClaudeService.generateSkillsList service JSON_parse jobKeywords w in
  let userSkillNames := List.map skillName userSkills in
  let jobKeywordSet := keywordSet jobKeywords in
  let body :=
    match addMatching jobKeywordSet userSkillNames [] with
    | Throw e => Throw e
    | Ok p1 =>
        match addMissing claudeSkills p1 with
        | Throw e => Throw e
        | Ok p2 => addMissing userSkillNames p2
        end
    end in
  match body with
  | Ok prioritizedSkills => (slice0 15 prioritizedSkills, w1)
  | Throw _ => (slice0 12 (List.map skillName userSkills), w1)
  end.

(** The score of one project, lines 302-327. *)
Definition projectScore (keywordSet : gset string) (project : project) : nat :=
  let score := 0 in
  let nameWords := split_ws (toLowerCase (p_name project)) in
  let score := addHits 2 keywordSet nameWords score in
  let score :=
    match p_description project with
    | Some d => if decide (d = EmptyString) then score
                else addHits 1 keywordSet (words (toLowerCase d)) score
    | None => score
    end in
  match p_technologies project with
  | Some techs => addHits 3 keywordSet (List.map toLowerCase techs) score
  | None => score
  end.

(** Lines 294-334. *)
Definition selectRelevantProjects (projects : list project) (keywords : list jobKeyword)
    : list project :=
  match projects with
  | [] => []
  | _ =>
      let keywordSet := keywordSet keywords in
      let scoredProjects := List.map (fun p => (p, projectScore keywordSet p)) projects in
      List.map fst (slice0 3 (Array_sort (byScoreDesc snd) scoredProjects))
  end.

Record tailoredEducation : Type := TailoredEducation {
  te_degree : string;
  te_institution : string;
  te_dates : string;
  te_gpa : option string;
  te_relevant_courses : option (list string)
}.

(** Lines 341-351. *)
Definition formatEducation (education : list education) : list tailoredEducation :=
  List.map (fun edu =>
    TailoredEducation (e_degree edu) (e_institution edu)
      (match e_end_date edu with
       | Some e => if decide (e = EmptyString)
                   then e_start_date edu +:+ " - Present"
                   else e_start_date edu +:+ " - " +:+ e
       | None => e_start_date edu +:+ " - Present"
       end)
      (e_gpa edu) (e_relevant_courses edu)) education.

(** Lines 402-410. *)
Definition generateFallbackSummary (userProfile : userProfile)
    (keywords : list jobKeyword) : string :=
  let name := orElse (up_personal userProfile ≫= name) "Professional" in
  let experienceCount := default 0 (length <$> work_experience userProfile) in
  let topSkills := join ", " (List.map keywordOf (slice0 3 keywords)) in
  "Experienced " +:+ default EmptyString (head (split_on " " name))
  +:+ " with " +:+ string_of_nat experienceCount
  +:+ "+ years of professional experience. Skilled in " +:+ topSkills
  +:+ " with a proven track record of delivering results. Seeking to leverage expertise in a challenging new role.".

(** Lines 114-130. *)
Definition generateTailoredSummary (userProfile : userProfile) (jobDescription : string)
    (keywords : list jobKeyword) (w : world) : string * world :=
  match ClaudeService.generateSummary service userProfile jobDescription keywords w with
  | (Ok summary, w') => (summary, w')
  | (Throw _, w') => (generateFallbackSummary userProfile keywords, w')
  end.

(** The sections of the tailored CV; [TailoredCV] and its [toJSON] copy
    them unchanged ([data.skills || []] and the like). *)
Record sections : Type := Sections {
  sec_summary : string;
  sec_experience : list tailoredExperience;
  sec_skills : list (option string);
  sec_projects : list project;
  sec_education : list tailoredEducation
}.

(** Lines 72-105. *)
Definition createTailoredSections (userProfile : userProfile) (jobDescription : string)
    (keywords : list jobKeyword) (w : world) : sections * world :=
  let '(summary, w1) := generateTailoredSummary userProfile jobDescription keywords w in
  let '(experience, w2) :=
    selectAndEnhanceExperience (default [] (work_experience userProfile)) keywords w1 in
  let '(skills, w3) :=
    generateTailoredSkills (default [] (Profile.skills userProfile)) keywords w2 in
  let projects := selectRelevantProjects (default [] (projects userProfile)) keywords in
  let education := formatEducation (default [] (up_education userProfile)) in
  (Sections summary experience skills projects education, w3).

End WithService.
End ContentService.

(** ** LatexService (src/unnamed/part_006) *)

Module LatexService.
Import JS Effects.

(** *** The CV data of a render request *)

Inductive renderSkill : Type :=
| RSkillString (s : string)
| RSkillObject (name category : option string).

Record renderExperience : Type := RenderExperience {
  x_dates : option string;
  x_role : option string;
  x_company : option string;
  x_bullets : option (list string)
}.

Record renderProject : Type := RenderProject {
  j_start_date : option string;
  j_end_date : option string;
  j_name : option string;
  j_description : option string;
  j_technologies : option (list string);
  j_url : option string
}.

Record renderEducation : Type := RenderEducation {
  d_dates : option string;
  d_degree : option string;
  d_institution : option string;
  d_gpa : option string;
  d_relevant_courses : option (list string)
}.

Record renderPersonal : Type := RenderPersonal {
  r_name : option string;
  r_email : option string;
  r_phone : option string;
  r_linkedIn : option string;
  r_location : option string;
  r_website : option string
}.

Record cvData : Type := CvData {
  cv_personal : option renderPersonal;
  cv_summary : option string;
  cv_skills : list renderSkill;
  cv_experience : list renderExperience;
  cv_projects : list renderProject;
  cv_education : list renderEducation
}.

Record options : Type := Options {
  fontSize : option string;
  colorScheme : option string;
  margins : option string
}.

Definition nl : string := String (ascii_of_nat 10) EmptyString.

(** *** Lines 102-114 *)

Definition allowedInName (c : ascii) : bool :=
  let n := nat_of_ascii c in
  ((97 <=? n)%nat && (n <=? 122)%nat) || ((65 <=? n)%nat && (n <=? 90)%nat)
  || ((48 <=? n)%nat && (n <=? 57)%nat) || (n =? 95)%nat || (n =? 45)%nat.

(** [s.replace(/[^a-zA-Z0-9_-]/g, '')] *)
Fixpoint keepAllowed (s : string) : string :=
  match s with
  | EmptyString => EmptyString
  | String c rest =>
      if allowedInName c then String c (keepAllowed rest) else keepAllowed rest
  end.

(** [None] is a template name that is missing or not a string. *)
Definition sanitizeTemplateName (templateName : option string) : string :=
  match templateName with
  | None => "modern"
  | Some name =>
      if decide (name = EmptyString) then "modern"
      else
        let sanitized := toLowerCase (keepAllowed name) in
        if decide (sanitized = EmptyString) then "modern" else sanitized
  end.

(** *** Lines 392-407 *)

Definition escapeLatex (text : string) : string :=
  let text := replaceAll bs "\textbackslash{}" text in
  let text := replaceAll "{" "\{" text in
  let text := replaceAll "}" "\}" text in
  let text := replaceAll "$" "\$" text in
  let text := replaceAll "&" "\&" text in
  let text := replaceAll "%" "\%" text in
  let text := replaceAll "#" "\#" text in
  let text := replaceAll "^" "\textasciicircum{}" text in
  let text := replaceAll "_" "\_" text in
  replaceAll "~" "\textasciitilde{}" text.

(** *** The formatters, lines 208-385 *)

(** [getNestedValue(cvData, 'personal.<field>', dflt)]: only a missing
    value yields the default, an empty string does not. *)
Definition getPersonal (cv : cvData) (field : renderPersonal -> option string)
    (dflt : string) : string :=
  match cv_personal cv with
  | Some p => default dflt (field p)
  | None => dflt
  end.

Definition validateFontSize (fontSize : option string) : option string :=
  match fontSize with
  | Some f =>
      if bool_decide (f ∈ ["10pt"; "11pt"; "12pt"; "14pt"; "16pt"; "18pt"])
      then Some f else None
  | None => None
  end.

Definition validateColorScheme (colorScheme : option string) : option string :=
  match colorScheme with
  | Some c =>
      if bool_decide (c ∈ ["blue"; "red"; "green"; "purple"; "orange"; "teal"; "black"])
      then Some c else None
  | None => None
  end.

(** [margins[marginType] || margins.normal], for a [marginType] that is
    not the name of a member of [Object.prototype]. *)
Definition getMarginSize (marginType : string) : string :=
  if decide (marginType = "narrow") then "0.5in"
  else if decide (marginType = "wide") then "1in"
  else "0.75in".

Definition truthy (x : option string) : bool :=
  match x with
  | Some s => negb (bool_decide (s = EmptyString))
  | None => false
  end.

(** [typeof skill === 'string' ? skill : (skill.name || String(skill))] *)
Definition renderSkillName (skill : renderSkill) : string :=
  match skill with
  | RSkillString s => s
  | RSkillObject name _ => orElse name "[object Object]"
  end.

(** [skill.category], [undefined] on a string. *)
Definition renderSkillCategory (skill : renderSkill) : option string :=
  match skill with
  | RSkillString _ => None
  | RSkillObject _ category => category
  end.

(** The object [categories], its keys in insertion order (the order of
    [Object.entries] for keys that are not array indices). *)
Fixpoint pushCategory (categories : list (string * list string)) (category : string)
    (skillName : string) : list (string * list string) :=
  match categories with
  | [] => [(category, if decide (skillName = EmptyString) then [] else [skillName])]
  | (c, l) :: rest =>
      if decide (c = category)
      then (c, if decide (skillName = EmptyString) then l else l ++ [skillName]) :: rest
      else (c, l) :: pushCategory rest category skillName
  end.

Definition isEmptySkill (skill : renderSkill) : bool :=
  match skill with
  | RSkillString s => bool_decide (s = EmptyString)
  | RSkillObject _ _ => false
  end.

(** Lines 248-288. *)
Definition formatSkills (skills : list renderSkill) : string :=
  match skills with
  | [] => EmptyString
  | _ =>
      let hasCategories :=
        existsb (fun skill =>
          match skill with
          | RSkillObject _ category => truthy category
          | RSkillString _ => false
          end) skills in
      if hasCategories then
        let categories :=
          fold_left (fun categories skill =>
            if isEmptySkill skill then categories
            else pushCategory categories (orElse (renderSkillCategory skill) "Technical")
                   (renderSkillName skill)) skills [] in
        join " \\ "
          (List.map (fun '(category, skillList) =>
             "\textbf{" +:+ category +:+ ":} " +:+ join ", " skillList)
             (List.filter (fun '(_, skillList) => negb (Nat.eqb (length skillList) 0))
                categories))
      else
        let skillNames :=
          List.filter (fun name => negb (bool_decide (name = EmptyString)))
            (List.map renderSkillName
               (List.filter (fun skill => negb (isEmptySkill skill)) skills)) in
        join ", " skillNames
  end.

(** Lines 295-317. *)
Definition formatExperienceEntry (exp : renderExperience) : string :=
  let bullets :=
    match x_bullets exp with
    | Some bs =>
        join nl (List.map (fun bullet => "\item " +:+ bullet)
                   (List.filter (fun bullet => negb (bool_decide (bullet = EmptyString))) bs))
    | None => EmptyString
    end in
  nl +:+ "\cventry{" +:+ orElse (x_dates exp) EmptyString +:+ "}{" +:+ orElse (x_role exp) EmptyString
  +:+ "}{" +:+ orElse (x_company exp) EmptyString +:+ "}{}{}{"
  +:+ (if decide (bullets = EmptyString) then EmptyString
       else nl +:+ "\begin{itemize}" +:+ nl +:+ bullets +:+ nl +:+ "\end{itemize}")
  +:+ "}".

Definition formatExperience (experiences : list renderExperience) : string :=
  match experiences with
  | [] => EmptyString
  | _ => join nl (List.map formatExperienceEntry experiences)
  end.

(** Lines 324-346. *)
Definition formatProjectEntry (project : renderProject) : string :=
  let technologies :=
    match j_technologies project with
    | Some (t :: ts) => " \textit{Technologies: " +:+ join ", " (t :: ts) +:+ "}"
    | _ => EmptyString
    end in
  let url :=
    if truthy (j_url project)
    then " \href{" +:+ orElse (j_url project) EmptyString +:+ "}{[Link]}"
    else EmptyString in
  nl +:+ "\cventry{" +:+ orElse (j_start_date project) EmptyString +:+ " - "
  +:+ orElse (j_end_date project) EmptyString +:+ "}{" +:+ orElse (j_name project) EmptyString
  +:+ "}{}{}{}{" +:+ nl +:+ orElse (j_description project) EmptyString +:+ technologies +:+ url
  +:+ nl +:+ "}".

Definition formatProjects (projects : list renderProject) : string :=
  match projects with
  | [] => EmptyString
  | _ => join nl (List.map formatProjectEntry projects)
  end.

(** Lines 353-371. *)
Definition formatEducationEntry (edu : renderEducation) : string :=
  let gpa :=
    if truthy (d_gpa edu) then " (GPA: " +:+ orElse (d_gpa edu) EmptyString +:+ ")"
    else EmptyString in
  let courses :=
    match d_relevant_courses edu with
    | Some (c :: cs) => " \textit{Relevant Courses: " +:+ join ", " (c :: cs) +:+ "}"
    | _ => EmptyString
    end in
  nl +:+ "\cventry{" +:+ orElse (d_dates edu) EmptyString +:+ "}{" +:+ orElse (d_degree edu) EmptyString
  +:+ "}{" +:+ orElse (d_institution edu) EmptyString +:+ "}{}{}{" +:+ gpa +:+ courses +:+ "}".

Definition formatEducation (education : list renderEducation) : string :=
  match education with
  | [] => EmptyString
  | _ => join nl (List.map formatEducationEntry education)
  end.

(** Lines 167-199: the placeholders and their values, in the order of
    the object literal. *)
Definition createReplacements (cv : cvData) (opts : options) : list (string * string) :=
  [ ("NAME", getPersonal cv r_name "Your Name");
    ("EMAIL", getPersonal cv r_email "your.email@example.com");
    ("PHONE", getPersonal cv r_phone EmptyString);
    ("LINKEDIN", getPersonal cv r_linkedIn EmptyString);
    ("LOCATION", getPersonal cv r_location EmptyString);
    ("WEBSITE", getPersonal cv r_website EmptyString);
    ("SUMMARY", orElse (cv_summary cv) EmptyString);
    ("SKILLS", formatSkills (cv_skills cv));
    ("EXPERIENCE", formatExperience (cv_experience cv));
    ("PROJECTS", formatProjects (cv_projects cv));
    ("EDUCATION", formatEducation (cv_education cv));
    ("FONT_SIZE", orElse (validateFontSize (fontSize opts)) "11pt");
    ("COLOR_SCHEME", orElse (validateColorScheme (colorScheme opts)) "blue");
    ("MARGIN_SIZE", getMarginSize (orElse (margins opts) "normal")) ].

(** *** Lines 123-159 *)

Definition marker (placeholder : string) : string := "<<" +:+ placeholder +:+ ">>".

(** The loop over [Object.entries(replacements)]. *)
Definition substituteAll (replacements : list (string * string)) (template : string)
    : string :=
  fold_left (fun template '(placeholder, value) =>
    replaceAll (marker placeholder) (escapeLatex value) template)
    replacements template.

(** [templates] is the content of the template directory, by file
    name. *)
Definition populateTemplate (templates : gmap string string) (cv : cvData)
    (templateName : string) (opts : options) : result string :=
  match templates !! (templateName +:+ "-cv.tex") with
  | None =>
      Throw (PlainError ("Failed to populate template: Template '" +:+ templateName
                         +:+ "' not found"))
  | Some template => Ok (substituteAll (createReplacements cv opts) template)
  end.

(** *** Lines 23-95 and 415-571: a render job

    The directories [temp] and [output] map file names to sizes in
    bytes.  [fs.unlink] removes a file that exists. *)
Record fileSystem : Type := FileSystem {
  temp : gmap string N;
  output : gmap string N
}.

(** How the [pdflatex] process ends. *)
Inductive compilerEnd : Type :=
| Exited (code : nat)
| TimedOut
| SpawnFailed (message : string).

(** What the job does not decide: the base name drawn for it
    ([cv-<uuid>-<timestamp>]), whether the directories can be made and
    the source written, the files the compiler leaves in [temp] and how
    it ends, whether the PDF can be copied, and the diagnostics. *)
Record environment : Type := Environment {
  filename : string;
  directoriesOk : bool;
  writeOk : bool;
  compilerWrites : list (string * N);
  compilerEnds : compilerEnd;
  copyOk : bool;
  stderr : string
}.

Definition timeout : N := 30000.
Definition maxFileSize : N := 10 * 1024 * 1024.

Definition extensions : list string := [".tex"; ".aux"; ".log"; ".out"; ".pdf"].

(** Lines 547-557. *)
Definition cleanupTempFiles (filename : string) (fs : fileSystem) : fileSystem :=
  FileSystem
    (fold_left (fun files ext => delete (filename +:+ ext) files) extensions (temp fs))
    (output fs).

Definition writeFiles (files : list (string * N)) (dir : gmap string N)
    : gmap string N :=
  fold_left (fun dir '(name, size) => <[name := size]> dir) files dir.

(** Lines 415-484; the value is the name of the file in [output]. *)
Definition compileToPDF (env : environment) (filename : string) (fs : fileSystem)
    : result string * fileSystem :=
  let fs1 := FileSystem (writeFiles (compilerWrites env) (temp fs)) (output fs) in
  match compilerEnds env with
  | TimedOut =>
      (Throw (PlainError ("LaTeX compilation timed out after " +:+ string_of_N timeout
                          +:+ "ms")), fs1)
  | SpawnFailed message =>
      (Throw (PlainError ("Failed to start pdflatex: " +:+ message)), fs1)
  | Exited 0 =>
      match temp fs1 !! (filename +:+ ".pdf") with
      | Some size =>
          if copyOk env
          then (Ok (filename +:+ ".pdf"),
                FileSystem (temp fs1) (<[filename +:+ ".pdf" := size]> (output fs1)))
          else (Throw (PlainError "Failed to move PDF: copy failed"), fs1)
      | None => (Throw (PlainError "Failed to move PDF: no such file"), fs1)
      end
  | Exited code =>
      (Throw (PlainError ("LaTeX compilation failed with code " +:+ string_of_nat code
                          +:+ ": " +:+ substring 0 500 (stderr env))), fs1)
  end.

(** Lines 564-571. *)
Definition getFileSize (fs : fileSystem) (name : string) : N :=
  default 0%N (output fs !! name).

Record pdfInfo : Type := PdfInfo {
  pdf_filename : string;
  pdf_size : N;
  pdf_template : string
}.

(** The body of the [try] block, up to the size checks. *)
Definition renderSteps (templates : gmap string string) (env : environment)
    (cv : cvData) (sanitizedTemplateName : string) (opts : options) (fs : fileSystem)
    : result pdfInfo * fileSystem :=
  if negb (directoriesOk env) then (Throw (PlainError "mkdir failed"), fs)
  else
    match populateTemplate templates cv sanitizedTemplateName opts with
    | Throw e => (Throw e, fs)
    | Ok latexContent =>
        if negb (writeOk env) then (Throw (PlainError "write failed"), fs)
        else
          let fs1 :=
            FileSystem
              (<[filename env +:+ ".tex" := N.of_nat (String.length latexContent)]> (temp fs))
              (output fs) in
          match compileToPDF env (filename env) fs1 with
          | (Throw e, fs2) => (Throw e, fs2)
          | (Ok pdfPath, fs2) =>
              let fileSize := getFileSize fs2 pdfPath in
              if (fileSize =? 0)%N
              then (Throw (PlainError "Generated PDF is empty"), fs2)
              else if (maxFileSize <? fileSize)%N
              then (Throw (PlainError
                      ("Generated PDF exceeds maximum size limit ("
                       +:+ string_of_N maxFileSize +:+ " bytes)")), fs2)
              else (Ok (PdfInfo (filename env +:+ ".pdf") fileSize sanitizedTemplateName),
                    fs2)
          end
    end.

(** Lines 23-95; [cv = None] is a value that is not an object. *)
Definition generatePDF (templates : gmap string string) (env : environment)
    (cv : option cvData) (templateName : option string) (opts : options)
    (fs : fileSystem) : result pdfInfo * fileSystem :=
  match cv with
  | None => (Throw (PlainError "Invalid CV data provided"), fs)
  | Some cv =>
      let sanitizedTemplateName := sanitizeTemplateName templateName in
      match renderSteps templates env cv sanitizedTemplateName opts fs with
      | (Ok info, fs') => (Ok info, cleanupTempFiles (filename env) fs')
      | (Throw e, fs') => (Throw e, cleanupTempFiles (filename env) fs')
      end
  end.

End LatexService.

(** ** Vocabulary of the statements *)

Module Spec.
Import JS Effects KeywordService Profile LatexService.

(** The content of a reply that [makeRequest] returns. *)
Definition succeeded (r : apiReply) : option string :=
  match r with
  | Response (Some c) => if decide (c = EmptyString) then None else Some c
  | _ => None
  end.

(** A rejection with a status in 400..499 other than 429. *)
Definition isClientError (r : apiReply) : bool :=
  match r with
  | Rejected status _ => ClaudeService.clientError status
  | Response _ => false
  end.

(** Any other failure: a status of 5xx or 429, a transport failure, an
    empty response. *)
Definition retryable (r : apiReply) : bool :=
  match succeeded r with
  | Some _ => false
  | None => negb (isClientError r)
  end.

(** [error.message] of a failed attempt. *)
Definition failureMessage (r : apiReply) : string :=
  match r with
  | Rejected _ m => m
  | Response _ => "Empty response from Claude API"
  end.

Definition isThrow {A : Type} (r : result A) : Prop :=
  match r with
  | Throw (ExternalServiceError _) => True
  | _ => False
  end.

(** The number of words of [ws] that belong to the keyword set. *)
Definition hits (set : gset string) (ws : list string) : nat :=
  length (List.filter (fun word => bool_decide (word ∈ set)) ws).

(** All the words of the bullets of an entry, bullet after bullet. *)
Definition bulletWords (exp : experience) : list string :=
  flat_map (fun b => words (toLowerCase (bulletText b))) (default [] (bullets exp)).

(** The escaped form that [escapeLatex] gives one character.  The
    braces that close [\textbackslash] are themselves escaped by the
    passes that follow; those of [\textasciicircum] and
    [\textasciitilde] come after the brace passes and stay. *)
Definition escChar (c : ascii) : string :=
  if Ascii.eqb c backslash then "\textbackslash\{\}"
  else if Ascii.eqb c "{" then "\{"
  else if Ascii.eqb c "}" then "\}"
  else if Ascii.eqb c "$" then "\$"
  else if Ascii.eqb c "&" then "\&"
  else if Ascii.eqb c "%" then "\%"
  else if Ascii.eqb c "#" then "\#"
  else if Ascii.eqb c "^" then "\textasciicircum{}"
  else if Ascii.eqb c "_" then "\_"
  else if Ascii.eqb c "~" then "\textasciitilde{}"
  else String c EmptyString.

(** A string rewritten character by character. *)
Fixpoint charMap (f : ascii -> string) (s : string) : string :=
  match s with
  | EmptyString => EmptyString
  | String c rest => f c +:+ charMap f rest
  end.



(** The sum of [f] over a list: what [reduce((sum, x) => sum + f(x), 0)]
    computes. *)
Definition sumQc {A : Type} (f : A -> Qc) (l : list A) : Qc :=
  fold_right (fun x s => (f x + s)%Qc) 0%Qc l.

(** The job keyword equals some candidate keyword, ignoring case. *)
Definition matchesCandidate (userKeywords : list userKeyword) (jk : jobKeyword) : bool :=
  existsb (fun uk =>
    bool_decide (toLowerCase (uk_keyword uk) = toLowerCase (keywordOf jk)))
    userKeywords.

Definition matchedJobKeywords (userKeywords : list userKeyword)
    (jobKeywords : list jobKeyword) : list jobKeyword :=
  List.filter (matchesCandidate userKeywords) jobKeywords.

(** Every binding of the map is filed under the lower-cased keyword
    of its value. *)
Definition keyed (m : gmap string userKeyword) : Prop :=
  forall k u, m !! k = Some u -> toLowerCase (uk_keyword u) = k.

(** The ten passes as ten character maps. *)
Definition passes (s : string) : string :=
  charMap (fun x => if Ascii.eqb x "~" then "\textasciitilde{}" else String x EmptyString)
  (charMap (fun x => if Ascii.eqb x "_" then "\_" else String x EmptyString)
  (charMap (fun x => if Ascii.eqb x "^" then "\textasciicircum{}" else String x EmptyString)
  (charMap (fun x => if Ascii.eqb x "#" then "\#" else String x EmptyString)
  (charMap (fun x => if Ascii.eqb x "%" then "\%" else String x EmptyString)
  (charMap (fun x => if Ascii.eqb x "&" then "\&" else String x EmptyString)
  (charMap (fun x => if Ascii.eqb x "$" then "\$" else String x EmptyString)
  (charMap (fun x => if Ascii.eqb x "}" then "\}" else String x EmptyString)
  (charMap (fun x => if Ascii.eqb x "{" then "\{" else String x EmptyString)
  (charMap (fun x => if Ascii.eqb x backslash then "\textbackslash{}" else String x EmptyString)
     s))))))))).

Definition literalKeyword (k : merged) : Prop := literal (kw_text (mg_keyword k)) = true.

(** The entry that [rankKeywords] computes for a keyword whose pattern
    is a literal. *)
Definition rankedOf (text : string) (k : merged) : ranked :=
  let f := countMatches (kw_text (mg_keyword k)) text in
  Ranked k f (scoreOf k f).

(** *** Whole-word frequency *)

(** [w] is the keyword, up to case. *)
Definition sameWord (keyword w : string) : bool :=
  bool_decide (toLowerCase w = toLowerCase keyword).

(** The number of words of the text that are the keyword, up to case. *)
Definition wholeWordFrequency (keyword text : string) : nat :=
  length (List.filter (sameWord keyword) (words text)).

(** The word characters at the front of [s], and what follows them. *)
Fixpoint wordRun (s : string) : string :=
  match s with
  | EmptyString => EmptyString
  | String c rest => if is_word c then String c (wordRun rest) else EmptyString
  end.

Fixpoint afterRun (s : string) : string :=
  match s with
  | EmptyString => EmptyString
  | String c rest => if is_word c then afterRun rest else s
  end.

Fixpoint takeChars (n : nat) (s : string) : string :=
  match n, s with
  | S k, String c rest => String c (takeChars k rest)
  | _, _ => EmptyString
  end.

(** [s] begins with exactly [n] more word characters. *)
Fixpoint endsWordAfter (n : nat) (s : string) : bool :=
  match n, s with
  | O, EmptyString => true
  | O, String c _ => negb (is_word c)
  | S k, String c rest => is_word c && endsWordAfter k rest
  | S _, EmptyString => false
  end.

End Spec.

(** ** Sample data for the worked examples *)

Module Samples.
Import JS Effects KeywordService Profile LatexService.

(** A template directory with the two stock templates. *)
Definition stockTemplates : gmap string string :=
  {[ "modern-cv.tex" := "\name{<<NAME>>}\email{<<EMAIL>>} <<SUMMARY>> & more";
     "classic-cv.tex" := "\textbf{<<NAME>>} <<EXPERIENCE>>" ]}.

Definition someone : cvData :=
  CvData (Some (RenderPersonal (Some "Grace Hopper") (Some "grace@example.com")
                  None None None None))
    (Some "Compilers & languages") [] [] [] [].

Definition noOptions : options := Options None None None.

Definition emptyDisk : fileSystem := FileSystem ∅ ∅.

(** A run in which the compiler exits normally and leaves an empty PDF. *)
Definition emptyPdfRun : environment :=
  Environment "cv-7f3a-2024-05-01T10-00-00-000Z" true true
    [("cv-7f3a-2024-05-01T10-00-00-000Z.aux", 120%N);
     ("cv-7f3a-2024-05-01T10-00-00-000Z.log", 4096%N);
     ("cv-7f3a-2024-05-01T10-00-00-000Z.pdf", 0%N)]
    (Exited 0) true EmptyString.

(** A summary that quotes an amount in thousands. *)
Definition thousands : cvData :=
  CvData (Some (RenderPersonal (Some "Grace Hopper") (Some "grace@example.com")
                  None None None None))
    (Some "Revenue ($'000)") [] [] [] [].

(** A name with a backslash and one work-experience entry. *)
Definition withExperience : cvData :=
  CvData (Some (RenderPersonal (Some "C:\Users") None None None None None))
    None []
    [RenderExperience (Some "2020 - Present") (Some "Engineer") (Some "R&D")
       (Some ["Cut costs by 5%"])]
    [] [].

(** A service that answers 503 three times and would answer the fourth
    call. *)
Definition recoversOnFourthCall (n : nat) : apiReply :=
  if (n <? 3)%nat then Rejected (Some 503) "Service Unavailable"
  else Response (Some "ok").

(** Scenario B: six entries, scores 1, 3, 0, 3, 1, 2. *)
Definition scenarioB_keywords : list jobKeyword :=
  [KwString "React"; KwObject "aws" (Q2Qc (8 # 10)) "technical"].

Definition scenarioB_entry (c title : string) (bs : list string) : experience :=
  Experience c title "2020" None (Some (List.map BulletString bs)).

Definition scenarioB_experiences : list experience :=
  [ scenarioB_entry "A" "Engineer" ["Built React widgets"];
    scenarioB_entry "B" "React developer" ["Deployed to AWS"];
    scenarioB_entry "C" "Manager" ["Led a team of five"];
    scenarioB_entry "D" "AWS architect" ["Migrated React apps"];
    scenarioB_entry "E" "Tester" ["Tested AWS lambdas"];
    scenarioB_entry "F" "React lead" [] ].

(** A service that refuses every connection. *)
Definition unreachable (n : nat) : apiReply := Rejected None "connect ECONNREFUSED".

Definition ada : userProfile :=
  UserProfile (Some (Personal (Some "Ada Lovelace") (Some "ada@example.com")))
    (Some [Experience "Analytical Engines" "Engineer" "2019" None None;
           Experience "Difference Ltd" "Developer" "2015" (Some "2019") None])
    None None None.

Definition adaKeywords : list jobKeyword :=
  [KwObject "React" (Q2Qc (9 # 10)) "technical"; KwString "Node.js";
   KwObject "AWS" (Q2Qc (7 # 10)) "technical"; KwString "Docker"].

Definition cppClaude : list extracted :=
  [Extracted "C++" (Q2Qc (9 # 10)) "technical";
   Extracted "React" (Q2Qc (8 # 10)) "technical"].

Definition cppBasic : list extracted :=
  [Extracted "react" (Q2Qc (8 # 10)) "technical";
   Extracted "leadership" (Q2Qc (6 # 10)) "soft"].

Definition cppPosting : string :=
  "We need C++ and React experience; leadership is a plus. React, React, React.".

End Samples.

(** ** KeywordService: the analysis of a profile and the extraction
    without the service (src/unnamed/part_007) *)

Module KeywordAnalysis.
Import JS Effects KeywordService Profile.

(** Lines 448-457. *)
Definition commonWords : list string :=
  [ "the"; "and"; "for"; "are"; "but"; "not"; "you"; "all"; "can"; "had";
    "her"; "was"; "one"; "our"; "out"; "day"; "get"; "has"; "him"; "his";
    "how"; "man"; "new"; "now"; "old"; "see"; "two"; "way"; "who"; "boy";
    "did"; "its"; "let"; "put"; "say"; "she"; "too"; "use"; "will"; "work" ].

Definition isCommonWord (word : string) : bool :=
  bool_decide (toLowerCase word ∈ commonWords).

(** [keywords.add(x)] on a [Set], of which [Array.from] lists the
    members in the order of their insertion. *)
Definition setAdd (x : string) (keywords : list string) : list string :=
  if bool_decide (x ∈ keywords) then keywords else keywords ++ [x].

(** [str.match(/\b\w{3,}\b/g) || []]: the maximal runs of word
    characters that have three characters or more. *)
Definition longWords (s : string) : list string :=
  List.filter (fun w => (3 <=? String.length w)%nat) (words s).

(** Lines 183-188. *)
Definition addSkills (skills : list skill) (keywords : list string) : list string :=
  fold_left (fun keywords skill =>
    match skillName skill with
    | Some skillName =>
        if decide (skillName = EmptyString) then keywords
        else setAdd (toLowerCase skillName) keywords
    | None => keywords
    end) skills keywords.

(** Lines 198-208. *)
Definition addBullet (keywords : list string) (bullet : bullet) : list string :=
  let text := bulletText bullet in
  if decide (text = EmptyString) then keywords
  else
    fold_left (fun keywords word =>
      if (3 <? String.length word)%nat && negb (isCommonWord word)
      then setAdd word keywords else keywords)
      (longWords (toLowerCase text)) keywords.

(** Lines 192-210. *)
Definition addExperience (keywords : list string) (exp : experience) : list string :=
  let keywords :=
    if decide (role exp = EmptyString) then keywords
    else setAdd (toLowerCase (role exp)) keywords in
  match bullets exp with
  | Some bs => fold_left addBullet bs keywords
  | None => keywords
  end.

(** Lines 215-221. *)
Definition addProject (keywords : list string) (project : project) : list string :=
  match p_technologies project with
  | Some technologies =>
      fold_left (fun keywords tech => setAdd (toLowerCase tech) keywords)
        technologies keywords
  | None => keywords
  end.

(** The members of the [Set] of [extractUserKeywords]. *)
Definition userKeywordSet (userProfile : userProfile) : list string :=
  let keywords := [] in
  let keywords :=
    match skills userProfile with
    | Some skills => addSkills skills keywords
    | None => keywords
    end in
  let keywords :=
    match work_experience userProfile with
    | Some exps => fold_left addExperience exps keywords
    | None => keywords
    end in
  match projects userProfile with
  | Some ps => fold_left addProject ps keywords
  | None => keywords
  end.

(** Lines 179-229. *)
Definition extractUserKeywords (userProfile : userProfile) : list userKeyword :=
  List.map (fun keyword => UserKeyword keyword 1%Qc "user_profile")
    (userKeywordSet userProfile).

Record suggestion : Type := Suggestion {
  sg_type : string;
  sg_keyword : string;
  sg_priority : string;
  sg_reason : string
}.

(** Lines 288-312. *)
Definition generateSuggestions (matches : list keywordMatch)
    (jobKeywords : list jobKeyword) : list suggestion :=
  let matchedKeywords : gset string :=
    list_to_set (List.map (fun m => toLowerCase (m_keyword m)) matches) in
  let missingImportant :=
    slice0 5
      (List.filter (fun jk =>
         bool_decide (Q2Qc (7 # 10) < weightOf jk)%Qc
         && negb (bool_decide (toLowerCase (keywordOf jk) ∈ matchedKeywords)))
         jobKeywords) in
  List.map (fun jk =>
    Suggestion "add_keyword" (keywordOf jk) "high"
      "High-weight keyword missing from your profile") missingImportant.

(** The callback of the [filter] of lines 78-80:
    [!matches.some(m => m.keyword.toLowerCase() === jk.keyword.toLowerCase())].
    [some] calls its argument on the first match, if there is one; a
    bare string has no [keyword], and [undefined.toLowerCase()] is a
    [TypeError]. *)
Definition isMissing (matches : list keywordMatch) (jk : jobKeyword) : result bool :=
  match matches with
  | [] => Ok true
  | _ :: _ =>
      match jk with
      | KwString _ => Throw TypeError
      | KwObject keyword _ _ =>
          Ok (negb (existsb (fun m =>
                bool_decide (toLowerCase (m_keyword m) = toLowerCase keyword)) matches))
      end
  end.

Fixpoint filterMissing (matches : list keywordMatch) (jobKeywords : list jobKeyword)
    : result (list jobKeyword) :=
  match jobKeywords with
  | [] => Ok []
  | jk :: rest =>
      match isMissing matches jk with
      | Throw e => Throw e
      | Ok keep =>
          match filterMissing matches rest with
          | Throw e => Throw e
          | Ok others => Ok (if keep then jk :: others else others)
          end
      end
  end.

Record analysis : Type := Analysis {
  matchScore : number;
  totalMatches : nat;
  matchedKeywords : list keywordMatch;
  missingKeywords : list jobKeyword;
  suggestions : list suggestion;
  userKeywordCount : nat;
  jobKeywordCount : nat
}.

(** Lines 67-90; the [catch] block throws the error again. *)
Definition analyzeCVKeywords (userProfile : userProfile) (jobKeywords : list jobKeyword)
    : result analysis :=
  let userKeywords := extractUserKeywords userProfile in
  let matches := findKeywordMatches userKeywords jobKeywords in
  let score := calculateMatchScore matches jobKeywords in
  let suggestions := generateSuggestions matches jobKeywords in
  match filterMissing matches jobKeywords with
  | Throw e => Throw e
  | Ok missing =>
      Ok (Analysis score (length matches) matches missing suggestions
            (length userKeywords) (length jobKeywords))
  end.

(** *** Suggestions by industry, lines 98-105 and 464-490 *)




(** *** Extraction by patterns, lines 112-172 and 414-424 *)

Record basicKeyword : Type := BasicKeyword {
  bk_keyword : string;
  bk_weight : Qc;
  bk_category : string;
  bk_subcategory : option string
}.

(** The three fields that merging and ranking read. *)
Definition asExtracted (k : basicKeyword) : extracted :=
  Extracted (bk_keyword k) (bk_weight k) (bk_category k).

(** The [filter] of [deduplicateKeywords] with its [Set] of the keys
    seen. *)
Fixpoint deduplicate_go (seen : gset string) (keywords : list basicKeyword)
    : list basicKeyword :=
  match keywords with
  | [] => []
  | keyword :: rest =>
      let key := toLowerCase (bk_keyword keyword) in
      if decide (key ∈ seen) then deduplicate_go seen rest
      else keyword :: deduplicate_go ({[key]} ∪ seen) rest
  end.

(** Lines 414-424. *)
Definition deduplicateKeywords (keywords : list basicKeyword) : list basicKeyword :=
  deduplicate_go ∅ keywords.

(** An alternative of a pattern read off the front of [s]; the result
    is what follows it and the last character read. *)
Fixpoint readLiteral (alternative s : string) (last : option ascii)
    : option (string * option ascii) :=
  match alternative with
  | EmptyString => Some (s, last)
  | String a alternative' =>
      match s with
      | EmptyString => None
      | String c s' =>
          if Ascii.eqb a c then readLiteral alternative' s' (Some c) else None
      end
  end.

(** [/\b(a1|a2|...)\b/] at the start of [s], which [prev] precedes: the
    first alternative that can be read there and ends at a word
    boundary. *)
Definition matchAlternatives (alternatives : list string) (prev : option ascii)
    (s : string) : option string :=
  if wordBoundary prev (headOf s) then
    List.find (fun alternative =>
      match readLiteral alternative s prev with
      | Some (rest, last) => wordBoundary last (headOf rest)
      | None => false
      end) alternatives
  else None.

(** [text.match(/\b(a1|a2|...)\b/g) || []] for alternatives that are
    not empty: the search goes on where the last match ended. *)
Fixpoint matchAll_go (alternatives : list string) (skip : nat) (prev : option ascii)
    (s : string) : list string :=
  match s with
  | EmptyString => []
  | String c rest =>
      match skip with
      | S k => matchAll_go alternatives k (Some c) rest
      | O =>
          match matchAlternatives alternatives prev s with
          | Some m => m :: matchAll_go alternatives (String.length m - 1) (Some c) rest
          | None => matchAll_go alternatives O (Some c) rest
          end
      end
  end.

Definition matchAll (alternatives : list string) (text : string) : list string :=
  matchAll_go alternatives O None text.

(** The object [techPatterns], in the order of [Object.entries]. *)
Definition techPatterns : list (string * list string) :=
  [ ("programming", ["javascript"; "python"; "java"; "c++"; "c#"; "php"; "ruby"; "go";
                     "rust"; "swift"; "kotlin"; "typescript"]);
    ("frameworks", ["react"; "angular"; "vue"; "express"; "django"; "flask"; "spring";
                    "laravel"; "rails"]);
    ("databases", ["mysql"; "postgresql"; "mongodb"; "redis"; "elasticsearch"; "oracle";
                   "sqlite"]);
    ("cloud", ["aws"; "azure"; "gcp"; "docker"; "kubernetes"; "terraform"; "jenkins"]);
    ("tools", ["git"; "jira"; "confluence"; "slack"; "figma"; "photoshop"; "excel"]) ].

Definition softSkills : list string :=
  [ "leadership"; "communication"; "teamwork"; "problem-solving";
    "analytical"; "creative"; "organized"; "detail-oriented";
    "collaborative"; "innovative"; "strategic"; "adaptable" ].

Definition actionVerbs : list string :=
  [ "developed"; "implemented"; "designed"; "managed"; "led";
    "created"; "optimized"; "improved"; "analyzed"; "coordinated" ].

(** The keywords pushed before [deduplicateKeywords] is applied. *)
Definition candidateKeywords (text : string) : list basicKeyword :=
  let cleanText := toLowerCase text in
  flat_map (fun '(category, pattern) =>
    List.map (fun m => BasicKeyword m (Q2Qc (8 # 10)) "technical" (Some category))
      (matchAll pattern cleanText)) techPatterns
  ++ List.map (fun skill => BasicKeyword skill (Q2Qc (6 # 10)) "soft" None)
       (List.filter (fun skill => contains skill cleanText) softSkills)
  ++ List.map (fun verb => BasicKeyword verb (Q2Qc (5 # 10)) "action" None)
       (List.filter (fun verb => contains verb cleanText) actionVerbs).

(** Lines 112-172. *)
Definition basicKeywordExtraction (text : string) : list basicKeyword :=
  deduplicateKeywords (candidateKeywords text).

(** *** Grouping by category, lines 395-407 *)

(** The names that the object [categories] inherits: under one of them
    [categories[category]] is there from the start and has no [push],
    and the call is a [TypeError]. *)
Definition inheritedNames : list string :=
  [ "constructor"; "__proto__"; "hasOwnProperty"; "isPrototypeOf";
    "propertyIsEnumerable"; "toLocaleString"; "toString"; "valueOf";
    "__defineGetter__"; "__defineSetter__"; "__lookupGetter__"; "__lookupSetter__" ].

Section Categorize.
Context {A : Type} (categoryOf : A -> string).

(** The object [categories] is a map from its keys to the groups; the
    order of its keys is not kept. *)
Fixpoint categorize_go (categories : gmap string (list A)) (keywords : list A)
    : result (gmap string (list A)) :=
  match keywords with
  | [] => Ok categories
  | keyword :: rest =>
      let category := orElse (Some (categoryOf keyword)) "general" in
      if bool_decide (category ∈ inheritedNames) then Throw TypeError
      else
        categorize_go
          (<[category := default [] (categories !! category) ++ [keyword]]> categories)
          rest
  end.

Definition categorizeKeywords (keywords : list A) : result (gmap string (list A)) :=
  categorize_go ∅ keywords.
End Categorize.

End KeywordAnalysis.

(** ** ClaudeService: the keywords of a job description
    (src/unnamed/part_008, lines 96-136 and 253-287) *)

Module ClaudeKeywords.
Import JS Effects KeywordService.

Definition commonTechTerms : list string :=
  [ "javascript"; "python"; "java"; "react"; "node"; "angular"; "vue";
    "typescript"; "html"; "css"; "sql"; "mongodb"; "postgresql"; "mysql";
    "aws"; "azure"; "docker"; "kubernetes"; "git"; "linux"; "windows";
    "api"; "rest"; "graphql"; "microservices"; "agile"; "scrum" ].

Definition generalTerms : list string :=
  [ "experience"; "management"; "development"; "design"; "analysis" ].

(** Lines 253-287. *)
Definition fallbackKeywordExtraction (text : string) : list extracted :=
  let words := words (toLowerCase text) in
  let keywords :=
    List.map (fun term => Extracted term (Q2Qc (8 # 10)) "technical")
      (List.filter (fun term => bool_decide (term ∈ words)) commonTechTerms)
    ++ List.map (fun term => Extracted term (Q2Qc (6 # 10)) "general")
         (List.filter (fun term => bool_decide (term ∈ words)) generalTerms) in
  slice0 10 keywords.

(** An element of the array that the service is asked for, as
    [extractKeywords] reads it: a string, or an object of which each of
    the fields [keyword], [weight] and [category] holds a string, a
    number and a string, or is missing.  Elements of other kinds are
    outside this type. *)
Inductive keywordItem : Type :=
| ItemString (s : string)
| ItemObject (keyword : option string) (weight : option Qc) (category : option string).

Inductive keywordsJson : Type :=
| KArray (items : list keywordItem)
| KNotArray.

(** A keyword as [extractKeywords] returns it.  [ck_keyword] is [None]
    when [k.keyword || k] is the element itself and that is an
    object. *)
Record claudeKeyword : Type := ClaudeKeyword {
  ck_keyword : option string;
  ck_weight : Qc;
  ck_category : string
}.

(** The callback of [map], lines 124-128. *)
Definition ofItem (k : keywordItem) : claudeKeyword :=
  match k with
  | ItemString s => ClaudeKeyword (Some s) 1%Qc "general"
  | ItemObject keyword weight category =>
      ClaudeKeyword
        (match keyword with
         | Some kw => if decide (kw = EmptyString) then None else Some kw
         | None => None
         end)
        (match weight with
         | Some x => if decide (x = 0%Qc) then 1%Qc else x
         | None => 1%Qc
         end)
        (orElse category "general")
  end.

Definition ofExtracted (k : extracted) : claudeKeyword :=
  ClaudeKeyword (Some (kw_text k)) (kw_weight k) (kw_category k).

Section WithService.
Context (service : nat -> apiReply).
(** [JSON.parse]; [None] is a [SyntaxError]. *)
Context (JSON_parse : string -> option keywordsJson).

(** Lines 96-136; the prompt is not modelled. *)
Definition extractKeywords (jobDescription : string) (w : world)
    : list claudeKeyword * world :=
  let fallback := List.map ofExtracted (fallbackKeywordExtraction jobDescription) in
  match ClaudeService.makeRequest service w with
  | (Ok (Some response), w') =>
      match JSON_parse (trim response) with
      | Some (KArray keywords) => (List.map ofItem keywords, w')
      | Some KNotArray => (fallback, w')
      | None => (fallback, w')
      end
  | (_, w') => (fallback, w')
  end.

End WithService.
End ClaudeKeywords.

(** ** KeywordService.extractJobKeywords with its two extractions
    (src/unnamed/part_007, lines 12-59) *)

Module KeywordPipeline.
Import JS Effects KeywordService KeywordAnalysis ClaudeKeywords.

(** The value returned: the keywords, their groups and the [method],
    which is [claude_enhanced] or [basic_fallback]. *)
Inductive jobKeywords : Type :=
| Enhanced (keywords : list ranked) (categories : gmap string (list ranked))
| Fallback (keywords : list basicKeyword) (categories : gmap string (list basicKeyword)).

Definition method (r : jobKeywords) : string :=
  match r with
  | Enhanced _ _ => "claude_enhanced"
  | Fallback _ _ => "basic_fallback"
  end.

(** [ck.keyword.toLowerCase()] in [mergeKeywords] is a [TypeError] on a
    keyword that is not a string. *)
Fixpoint stringKeywords (claudeKeywords : list claudeKeyword) : option (list extracted) :=
  match claudeKeywords with
  | [] => Some []
  | ck :: rest =>
      match ck_keyword ck with
      | Some keyword =>
          match stringKeywords rest with
          | Some others => Some (Extracted keyword (ck_weight ck) (ck_category ck) :: others)
          | None => None
          end
      | None => None
      end
  end.

Section WithService.
Context (service : nat -> apiReply) (JSON_parse : string -> option keywordsJson).

(** The [catch] block, lines 45-58. *)
Definition basicFallback (jobDescriptionText : string) : result jobKeywords :=
  let basicKeywords := basicKeywordExtraction jobDescriptionText in
  match categorizeKeywords bk_category basicKeywords with
  | Ok categories => Ok (Fallback basicKeywords categories)
  | Throw e => Throw e
  end.

(** Lines 12-59.  [None]: a keyword gives a regular expression that is
    not interpreted. *)
Definition extractJobKeywords (jobDescriptionText : string) (w : world)
    : option (result jobKeywords) * world :=
  let '(claudeKeywords, w') := extractKeywords service JSON_parse jobDescriptionText w in
  let basicKeywords := basicKeywordExtraction jobDescriptionText in
  match stringKeywords claudeKeywords with
  | None => (Some (basicFallback jobDescriptionText), w')
  | Some claudeKeywords =>
      let mergedKeywords :=
        mergeKeywords claudeKeywords (List.map asExtracted basicKeywords) in
      match rankKeywords mergedKeywords jobDescriptionText with
      | Some (Ok rankedKeywords) =>
          match categorizeKeywords (fun k => kw_category (mg_keyword (rk_keyword k)))
                  rankedKeywords with
          | Ok categories => (Some (Ok (Enhanced rankedKeywords categories)), w')
          | Throw _ => (Some (basicFallback jobDescriptionText), w')
          end
      | Some (Throw _) => (Some (basicFallback jobDescriptionText), w')
      | None => (None, w')
      end
  end.

End WithService.
End KeywordPipeline.

(** ** ContentService: optimisation of an existing CV and the tailoring
    as a whole (src/backend/src/services/contentService.js) *)

Module ContentOptimizer.
Import JS Effects KeywordService Profile KeywordAnalysis KeywordPipeline ContentService.

(** Comparisons and the difference of [Number] values. *)
Definition geNumber (x : number) (q : Qc) : bool :=
  match x with
  | Fin a => bool_decide (q <= a)%Qc
  | PosInf => true
  | NaN | NegInf => false
  end.


Definition subNumber (x y : number) : number :=
  match x, y with
  | Fin a, Fin b => Fin (a - b)%Qc
  | NaN, _ | _, NaN => NaN
  | PosInf, PosInf | NegInf, NegInf => NaN
  | PosInf, _ => PosInf
  | NegInf, _ => NegInf
  | Fin _, PosInf => NegInf
  | Fin _, NegInf => PosInf
  end.




(** *** The content of an existing CV

    The fields that [optimizeContent] and, through [analyzeCVKeywords],
    [extractUserKeywords] read, with the types the schema of
    [TailoredCV] gives them: skills and bullets are strings.  Such a
    content has no field [work_experience]. *)
Record contentExperience : Type := ContentExperience {
  ce_company : string;
  ce_role : string;
  ce_dates : string;
  ce_bullets : option (list string)
}.

Record content : Type := Content {
  c_summary : option string;
  c_experience : option (list contentExperience);
  c_skills : option (list string);
  c_projects : option (list project)
}.

(** The content as [extractUserKeywords] sees it. *)
Definition asProfile (cvContent : content) : userProfile :=
  UserProfile None None (List.map SkillString <$> c_skills cvContent)
    (c_projects cvContent) None.

(** The state of the loop of [optimizeSkillsSection]. *)
Definition addSkill (state : list string * gset string) (jk : jobKeyword)
    : list string * gset string :=
  let '(optimizedSkills, skillSet) := state in
  let keyword := keywordOf jk in
  let weight := weightOf jk in
  if bool_decide (Q2Qc (7 # 10) < weight)%Qc
     && negb (bool_decide (toLowerCase keyword ∈ skillSet))
  then (optimizedSkills ++ [keyword], {[toLowerCase keyword]} ∪ skillSet)
  else (optimizedSkills, skillSet).

(** Lines 519-535. *)
Definition optimizeSkillsSection (currentSkills : list string)
    (jobKeywords : list jobKeyword) : list string :=
  let skillSet : gset string := list_to_set (List.map toLowerCase currentSkills) in
  let optimizedSkills := currentSkills in
  slice0 15 (fst (fold_left addSkill jobKeywords (optimizedSkills, skillSet))).

Section WithService.
Context (service : nat -> apiReply).

(** The inner loop of [optimizeExperienceSection]: [rewriteBullet] does
    not throw, so its [catch] block never runs. *)
Fixpoint optimizeBullets (bullets : list string) (relevantKeywords : list jobKeyword)
    (w : world) : list string * world :=
  match bullets with
  | [] => ([], w)
  | bullet :: rest =>
      let '(optimizedBullet, w1) :=
        ClaudeService.rewriteBullet service bullet relevantKeywords w in
      let '(others, w2) := optimizeBullets rest relevantKeywords w1 in
      (optimizedBullet :: others, w2)
  end.

(** Lines 488-511. *)
Fixpoint optimizeExperienceSection (experiences : list contentExperience)
    (jobKeywords missingKeywords : list jobKeyword) (w : world)
    : list contentExperience * world :=
  match experiences with
  | [] => ([], w)
  | exp :: rest =>
      let relevantKeywords := slice0 3 missingKeywords in
      let '(optimizedBullets, w1) :=
        optimizeBullets (default [] (ce_bullets exp)) relevantKeywords w in
      let '(others, w2) := optimizeExperienceSection rest jobKeywords missingKeywords w1 in
      (ContentExperience (ce_company exp) (ce_role exp) (ce_dates exp)
         (Some optimizedBullets) :: others, w2)
  end.

(** Lines 544-566; the prompt is not modelled. *)
Definition optimizeSummary (currentSummary : string)
    (jobKeywords missingKeywords : list jobKeyword) (w : world) : string * world :=
  match ClaudeService.makeRequest service w with
  | (Ok (Some optimizedSummary), w') => (stripQuotes (trim optimizedSummary), w')
  | (_, w') => (currentSummary, w')
  end.

(** The value of [optimizeContent], without its [message];
    [improvement] is [None] when the field is absent. *)
Record optimization : Type := Optimization {
  o_content : content;
  o_analysis : analysis;
  optimized : bool;
  improvement : option number
}.

(** Lines 419-479; the [catch] block throws the error again. *)
Definition optimizeContent (cvContent : content) (jobKeywords : list jobKeyword)
    (targetScore : Qc) (w : world) : result optimization * world :=
  match analyzeCVKeywords (asProfile cvContent) jobKeywords with
  | Throw e => (Throw e, w)
  | Ok currentAnalysis =>
      if geNumber (matchScore currentAnalysis) targetScore
      then (Ok (Optimization cvContent currentAnalysis false None), w)
      else
        let '(experience, w1) :=
          match c_experience cvContent with
          | Some experience =>
              let '(optimizedExperience, w1) :=
                optimizeExperienceSection experience jobKeywords
                  (missingKeywords currentAnalysis) w in
              (Some optimizedExperience, w1)
          | None => (None, w)
          end in
        let skills :=
          match c_skills cvContent with
          | Some skills => Some (optimizeSkillsSection skills jobKeywords)
          | None => None
          end in
        let '(summary, w2) :=
          match c_summary cvContent with
          | Some summary =>
              if decide (summary = EmptyString) then (Some summary, w1)
              else
                let '(optimizedSummary, w2) :=
                  optimizeSummary summary jobKeywords
                    (slice0 5 (missingKeywords currentAnalysis)) w1 in
                (Some optimizedSummary, w2)
          | None => (None, w1)
          end in
        let optimizedContent := Content summary experience skills (c_projects cvContent) in
        match analyzeCVKeywords (asProfile optimizedContent) jobKeywords with
        | Throw e => (Throw e, w2)
        | Ok newAnalysis =>
            (Ok (Optimization optimizedContent newAnalysis true
                   (Some (subNumber (matchScore newAnalysis)
                            (matchScore currentAnalysis)))), w2)
        end
  end.

End WithService.
End ContentOptimizer.

(** ** ContentService.generateTailoredContent, lines 13-62 *)

Module Tailoring.
Import JS Effects KeywordService Profile KeywordAnalysis KeywordPipeline ContentService
  ContentOptimizer.





Section WithService.
Context (service : nat -> apiReply).
Context (JSON_parse_keywords : string -> option ClaudeKeywords.keywordsJson).
Context (JSON_parse : string -> option json).


End WithService.
End Tailoring.

(** ** PDFController.generateMultiplePDFs
    (src/backend/src/controllers/pdfController.js, lines 95-146) *)

Module PdfController.
Import JS Effects LatexService.

Record pdfSuccess : Type := PdfSuccess {
  ps_template : option string;
  ps_filename : string;
  ps_size : N;
  ps_downloadUrl : string
}.

(** An entry of [errors]; [pf_error] is the error of which the entry
    keeps the message. *)
Record pdfFailure : Type := PdfFailure {
  pf_template : option string;
  pf_error : error
}.

Inductive response : Type :=
| BadRequest (message : string)
| Generated (results : list pdfSuccess) (errors : list pdfFailure) (total : nat).

Section Batch.
Context (templatesDir : gmap string string).
(** The environment of the [n]-th render job of the request. *)
Context (environments : nat -> environment).

(** The [for] loop, from its [job]-th iteration on; the value is what
    is pushed onto [results] and onto [errors]. *)
Fixpoint renderEach (job : nat) (cv : option cvData) (templates : list (option string))
    (opts : options) (fs : fileSystem)
    : list pdfSuccess * list pdfFailure * fileSystem :=
  match templates with
  | [] => ([], [], fs)
  | template :: rest =>
      let '(outcome, fs1) :=
        generatePDF templatesDir (environments job) cv template opts fs in
      let '(results, errors, fs2) := renderEach (S job) cv rest opts fs1 in
      match outcome with
      | Ok pdfResult =>
          (PdfSuccess template (pdf_filename pdfResult) (pdf_size pdfResult)
             ("/output/" +:+ pdf_filename pdfResult) :: results, errors, fs2)
      | Throw e => (results, PdfFailure template e :: errors, fs2)
      end
  end.

Definition generateMultiplePDFs (cv : option cvData) (templates : list (option string))
    (opts : options) (fs : fileSystem) : response * fileSystem :=
  if (5 <? length templates)%nat then (BadRequest "Maximum 5 templates allowed", fs)
  else
    let '(results, errors, fs') := renderEach 0 cv templates opts fs in
    (Generated results errors (length templates), fs').

End Batch.
End PdfController.

(** ** Vocabulary of the further properties *)

Module Vocabulary.
Import JS Effects KeywordService Profile KeywordAnalysis ClaudeKeywords ContentService
  LatexService.

(** The job keyword is an object, not a bare string. *)
Definition isObject (jk : jobKeyword) : bool :=
  match jk with
  | KwObject _ _ _ => true
  | KwString _ => false
  end.

(** A weight above 0.7. *)
Definition highWeight (jk : jobKeyword) : bool :=
  bool_decide (Q2Qc (7 # 10) < weightOf jk)%Qc.

(** The key under which [deduplicateKeywords] files a keyword. *)
Definition keyOf (k : basicKeyword) : string := toLowerCase (bk_keyword k).

(** The key under which [mergeKeywords] files a keyword. *)
Definition mergeKey (k : extracted) : string := toLowerCase (kw_text k).

(** What the [Set] of [extractUserKeywords] keeps at every insertion:
    its members are distinct and in lower case. *)
Definition tidy (keywords : list string) : Prop :=
  NoDup keywords /\ Forall (fun w => toLowerCase w = w) keywords.

(** The last character of [s], or [d] when [s] is empty. *)
Fixpoint lastChar (s : string) (d : option ascii) : option ascii :=
  match s with
  | EmptyString => d
  | String c rest => lastChar rest (Some c)
  end.

(** [sub] occurs in [s] directly before a word character. *)
Fixpoint occursBeforeWord (sub s : string) : bool :=
  match s with
  | EmptyString => false
  | String _ rest =>
      (String.prefix sub s && isWordOpt (headOf (drop_chars (String.length sub) s)))
      || occursBeforeWord sub rest
  end.

(** The keys of the entries of [mergeKeywords]. *)
Definition keysOf (ms : list merged) : list string :=
  List.map (fun m => mergeKey (mg_keyword m)) ms.

(** What the [Map] of [mergeKeywords] keeps at every step, for the
    keywords [cs] of the service and [bs] of the patterns: its keys are
    distinct, every entry is filed under the lower-cased text of its
    keyword, and an entry either has the source [Claude] and holds a
    keyword of [cs], or has not and holds a keyword of [bs] whose key
    no keyword of [cs] has. *)
Definition mergeInvariant (cs bs : list extracted) (entries : list (string * merged))
    : Prop :=
  NoDup (List.map fst entries)
  /\ (forall k v, In (k, v) entries ->
        k = mergeKey (mg_keyword v)
        /\ ((In Claude (sources v) /\ In (mg_keyword v) cs)
            \/ (~ In Claude (sources v) /\ In (mg_keyword v) bs
                /\ ~ In k (List.map mergeKey cs)))).

(** The words of the description of a project, none when it is missing
    or empty. *)
Definition descriptionWords (p : project) : list string :=
  match p_description p with
  | Some d => if decide (d = EmptyString) then [] else words (toLowerCase d)
  | None => []
  end.

(** The entry of the tailored CV for a selected experience whose
    bullets, the first four, are left as they are. *)
Definition untouched (e : scoredExperience) : tailoredExperience :=
  TailoredExperience (company (s_exp e)) (role (s_exp e))
    (start_date (s_exp e) +:+ " - " +:+ orElse (end_date (s_exp e)) "Present")
    (List.map bulletText (slice0 4 (default [] (bullets (s_exp e)))))
    (s_score e).

(** Two skills equal up to case. *)
Definition sameSkill (a b : string) : bool :=
  bool_decide (toLowerCase a = toLowerCase b).

(** The second and third loops of [generateTailoredSkills] on skills
    that are all strings: a candidate is appended unless the list has
    it already, up to case. *)
Fixpoint addNew (candidates prioritized : list string) : list string :=
  match candidates with
  | [] => prioritized
  | skill :: rest =>
      if existsb (fun ps => sameSkill ps skill) prioritized
      then addNew rest prioritized
      else addNew rest (prioritized ++ [skill])
  end.

(** A lower-case letter, a digit, an underscore or a hyphen. *)
Definition safeChar (c : ascii) : bool :=
  let n := nat_of_ascii c in
  ((97 <=? n)%nat && (n <=? 122)%nat) || ((48 <=? n)%nat && (n <=? 57)%nat)
  || (n =? 95)%nat || (n =? 45)%nat.

(** The characters that LaTeX reads as commands when they stand
    alone. *)
Definition needsBackslash (c : ascii) : bool :=
  bool_decide (c ∈ ["$"; "&"; "%"; "#"; "_"]%char).

Definition isBackslash (c : option ascii) : bool :=
  match c with
  | Some c => Ascii.eqb c backslash
  | None => false
  end.

(** Every character of [s] that needs a backslash has one directly
    before it; [prev] is the character before [s]. *)
Fixpoint guarded (prev : option ascii) (s : string) : bool :=
  match s with
  | EmptyString => true
  | String c rest =>
      (negb (needsBackslash c) || isBackslash prev) && guarded (Some c) rest
  end.

(** The reading of an escaped text: the ten escaped forms stand for
    their characters, any other character for itself; [None] when the
    text is not an escaped text.  [skip] counts the characters of the
    form being read that are still to pass. *)
Fixpoint unescape_go (skip : nat) (s : string) : option string :=
  match s with
  | EmptyString =>
      match skip with
      | O => Some EmptyString
      | S _ => None
      end
  | String c rest =>
      match skip with
      | S k => unescape_go k rest
      | O =>
          if String.prefix "\textbackslash\{\}" s
          then String backslash
                 <$> unescape_go (String.length "\textbackslash\{\}" - 1) rest
          else if String.prefix "\textasciicircum{}" s
          then String "^"%char
                 <$> unescape_go (String.length "\textasciicircum{}" - 1) rest
          else if String.prefix "\textasciitilde{}" s
          then String "~"%char
                 <$> unescape_go (String.length "\textasciitilde{}" - 1) rest
          else if Ascii.eqb c backslash then
            match rest with
            | String d _ =>
                if bool_decide (d ∈ ["{"; "}"; "$"; "&"; "%"; "#"; "_"]%char)
                then String d <$> unescape_go 1 rest
                else None
            | EmptyString => None
            end
          else if bool_decide (c ∈ ["{"; "}"; "$"; "&"; "%"; "#"; "_"; "^"; "~"]%char)
          then None
          else String c <$> unescape_go 0 rest
      end
  end.

Definition unescape (s : string) : option string := unescape_go 0 s.


End Vocabulary.

(** * Properties *)

(** ** Generic facts about the primitives *)

Section SortFacts.
Context {A : Type} (negative : A -> A -> bool).

Lemma sort_insert_perm (x : A) (l : list A) :
  Permutation (x :: l) (JS.sort_insert negative x l).
Proof.
  induction l as [|y ys IH]; simpl; [reflexivity|].
  destruct (negative y x); [|reflexivity].
  rewrite perm_swap. now apply perm_skip.
Qed.

Lemma Array_sort_perm (l : list A) :
  Permutation l (JS.Array_sort negative l).
Proof.
  induction l as [|x xs IH]; simpl; [reflexivity|].
  rewrite <- sort_insert_perm. now apply perm_skip.
Qed.

Lemma Array_sort_length (l : list A) :
  length (JS.Array_sort negative l) = length l.
Proof. symmetry. apply Permutation_length, Array_sort_perm. Qed.
End SortFacts.

Section Sums.
Import Spec.

Lemma reduce_sumQc {A : Type} (f : A -> Qc) (l : list A) (a : Qc) :
  fold_left (fun sum x => (sum + f x)%Qc) l a = (a + sumQc f l)%Qc.
Proof.
  revert a. induction l as [|x xs IH]; intros a; simpl.
  - ring.
  - rewrite IH. ring.
Qed.

Lemma sumQc_app {A : Type} (f : A -> Qc) (l1 l2 : list A) :
  sumQc f (l1 ++ l2) = (sumQc f l1 + sumQc f l2)%Qc.
Proof.
  induction l1 as [|x xs IH]; simpl; [ring|]. rewrite IH. ring.
Qed.

Lemma sumQc_perm {A : Type} (f : A -> Qc) (l1 l2 : list A) :
  Permutation l1 l2 -> sumQc f l1 = sumQc f l2.
Proof.
  induction 1 as [|x l l' _ IH|x y l|l l' l'' _ IH1 _ IH2]; simpl.
  - reflexivity.
  - now rewrite IH.
  - ring.
  - now rewrite IH1.
Qed.
End Sums.

(** Sorting by a natural-number score, highest first. *)
Section SortByScore.
Context {A : Type} (score : A -> nat).

Let negative (a b : A) : bool := (score b <? score a)%nat.

Lemma sort_insert_sorted (x : A) (l : list A) :
  StronglySorted (fun a b => score b <= score a) l ->
  StronglySorted (fun a b => score b <= score a) (JS.sort_insert negative x l).
Proof.
  induction 1 as [|y ys Hs IH Hy]; simpl.
  - repeat constructor.
  - unfold negative at 1. destruct (Nat.ltb_spec (score x) (score y)) as [Hlt|Hge].
    + constructor; [exact IH|].
      apply List.Forall_forall. intros z Hz.
      apply (Permutation_in _ (Permutation_sym (sort_insert_perm negative x ys))) in Hz.
      destruct Hz as [<-|Hz]; [lia|].
      rewrite List.Forall_forall in Hy. now apply Hy.
    + constructor; [now constructor|].
      constructor; [exact Hge|].
      rewrite List.Forall_forall in Hy |- *. intros z Hz. specialize (Hy z Hz). lia.
Qed.

Lemma Array_sort_sorted (l : list A) :
  StronglySorted (fun a b => score b <= score a) (JS.Array_sort negative l).
Proof.
  induction l as [|x xs IH]; simpl; [constructor|]. now apply sort_insert_sorted.
Qed.

(** Stability: the entries of any one score keep their order. *)
Lemma sort_insert_stable (s : nat) (x : A) (l : list A) :
  List.filter (fun a => (score a =? s)%nat) (JS.sort_insert negative x l)
  = List.filter (fun a => (score a =? s)%nat) (x :: l).
Proof.
  induction l as [|y ys IH]; simpl; [reflexivity|].
  unfold negative at 1. destruct (Nat.ltb_spec (score x) (score y)) as [Hlt|Hge].
  - simpl. rewrite IH. simpl.
    destruct (Nat.eqb_spec (score x) s) as [Hx|Hx];
      destruct (Nat.eqb_spec (score y) s) as [Hy|Hy]; try reflexivity. lia.
  - reflexivity.
Qed.

Lemma Array_sort_stable (s : nat) (l : list A) :
  List.filter (fun a => (score a =? s)%nat) (JS.Array_sort negative l)
  = List.filter (fun a => (score a =? s)%nat) l.
Proof.
  induction l as [|x xs IH]; simpl; [reflexivity|].
  rewrite sort_insert_stable. simpl. now rewrite IH.
Qed.

Lemma in_firstn_in (n : nat) (l : list A) (b : A) : In b (firstn n l) -> In b l.
Proof.
  revert l. induction n as [|n IH]; intros l Hb; [destruct Hb|].
  destruct l as [|y ys]; simpl in Hb; [contradiction|].
  destruct Hb as [<-|Hb]; [now left|right; now apply IH].
Qed.

Lemma in_skipn_in (n : nat) (l : list A) (b : A) : In b (skipn n l) -> In b l.
Proof.
  revert l. induction n as [|n IH]; intros l Hb; [exact Hb|].
  destruct l as [|y ys]; simpl in Hb; [contradiction|]. right. now apply IH.
Qed.

(** In a sorted list, all of a prefix scores at least as much as all of
    the rest. *)
Lemma sorted_prefix_dominates (n : nat) (l : list A) :
  StronglySorted (fun a b => score b <= score a) l ->
  forall a b, In a (firstn n l) -> In b (skipn n l) -> score b <= score a.
Proof.
  intros Hs. revert n. induction Hs as [|y ys Hs IH Hy]; intros n a b Ha Hb.
  - destruct n; simpl in Ha; contradiction.
  - destruct n as [|n]; simpl in Ha, Hb; [contradiction|].
    destruct Ha as [<-|Ha].
    + rewrite List.Forall_forall in Hy. apply Hy. now apply (in_skipn_in n).
    + now apply (IH n).
Qed.
End SortByScore.

(** Sorting by a rational score, highest first. *)
Section SortByRational.
Context {A : Type} (score : A -> Qc).

Let negative (a b : A) : bool := bool_decide (score b - score a < 0)%Qc.

Lemma negative_iff (a b : A) : negative a b = true <-> (score b < score a)%Qc.
Proof.
  unfold negative. rewrite bool_decide_eq_true.
  rewrite (Qclt_minus_iff (score b - score a) 0), (Qclt_minus_iff (score b) (score a)).
  replace (0 + - (score b - score a))%Qc with (score a + - score b)%Qc by ring.
  reflexivity.
Qed.

Lemma sort_insert_sorted_Qc (x : A) (l : list A) :
  StronglySorted (fun a b => (score b <= score a)%Qc) l ->
  StronglySorted (fun a b => (score b <= score a)%Qc) (JS.sort_insert negative x l).
Proof.
  induction 1 as [|y ys Hs IH Hy]; simpl.
  - repeat constructor.
  - destruct (negative y x) eqn:Hn.
    + apply negative_iff in Hn. constructor; [exact IH|].
      apply List.Forall_forall. intros z Hz.
      apply (Permutation_in _ (Permutation_sym (sort_insert_perm negative x ys))) in Hz.
      destruct Hz as [<-|Hz]; [now apply Qclt_le_weak|].
      rewrite List.Forall_forall in Hy. now apply Hy.
    + assert (Hge : (score y <= score x)%Qc).
      { apply Qcnot_lt_le. intros Hlt. apply negative_iff in Hlt. congruence. }
      constructor; [now constructor|].
      constructor; [exact Hge|].
      rewrite List.Forall_forall in Hy |- *. intros z Hz. specialize (Hy z Hz).
      eapply Qcle_trans; eassumption.
Qed.

Lemma Array_sort_sorted_Qc (l : list A) :
  StronglySorted (fun a b => (score b <= score a)%Qc) (JS.Array_sort negative l).
Proof.
  induction l as [|x xs IH]; simpl; [constructor|]. now apply sort_insert_sorted_Qc.
Qed.
End SortByRational.

Lemma firstn_sorted {A : Type} (R : A -> A -> Prop) (n : nat) (l : list A) :
  StronglySorted R l -> StronglySorted R (firstn n l).
Proof.
  intros Hs. revert n. induction Hs as [|y ys Hs IH Hy]; intros [|n]; simpl;
    try constructor.
  - apply IH.
  - rewrite List.Forall_forall in Hy |- *. intros z Hz. apply Hy.
    revert Hz. clear. revert ys. induction n as [|n IHn]; intros [|w ws] Hz;
      simpl in *; try contradiction.
    destruct Hz as [<-|Hz]; [now left|right; now apply IHn].
Qed.

(** ** C1: the match score *)

Section MatchScore.
Import JS KeywordService Spec.

Lemma userKeywordMap_fold (us : list userKeyword) (m0 : gmap string userKeyword) :
  keyed m0 ->
  let m := fold_left (fun m uk => <[toLowerCase (uk_keyword uk) := uk]> m) us m0 in
  keyed m /\
  forall k, is_Some (m !! k) <->
    is_Some (m0 !! k) \/ In k (List.map (fun uk => toLowerCase (uk_keyword uk)) us).
Proof.
  revert m0. induction us as [|u us IH]; intros m0 Hk; simpl.
  - split; [exact Hk|]. intros k. tauto.
  - destruct (IH (<[toLowerCase (uk_keyword u) := u]> m0)) as [IH1 IH2].
    + intros k v Hl. destruct (decide (toLowerCase (uk_keyword u) = k)) as [<-|Hne].
      * rewrite lookup_insert_eq in Hl. now inversion Hl.
      * rewrite lookup_insert_ne in Hl by assumption. now apply Hk.
    + split; [exact IH1|]. intros k. rewrite IH2.
      destruct (decide (toLowerCase (uk_keyword u) = k)) as [<-|Hne].
      * rewrite lookup_insert_eq. split; [intros _; right; now left|intros _; left; eauto].
      * rewrite lookup_insert_ne by assumption. split.
        -- intros [H|H]; [now left|right; now right].
        -- intros [H|[H|H]]; [now left|contradiction|now right].
Qed.

Lemma userKeywordMap_spec (us : list userKeyword) :
  keyed (userKeywordMap us) /\
  forall k, is_Some (userKeywordMap us !! k) <->
    In k (List.map (fun uk => toLowerCase (uk_keyword uk)) us).
Proof.
  destruct (userKeywordMap_fold us ∅) as [H1 H2].
  - intros k u Hl. now rewrite lookup_empty in Hl.
  - split; [exact H1|]. intros k. unfold userKeywordMap. rewrite H2.
    rewrite lookup_empty. split; [intros [[? H]|H]; [discriminate|exact H]|now right].
Qed.

Lemma matchesCandidate_lookup (us : list userKeyword) (jk : jobKeyword) :
  matchesCandidate us jk = true <->
  is_Some (userKeywordMap us !! toLowerCase (keywordOf jk)).
Proof.
  rewrite (proj2 (userKeywordMap_spec us)). unfold matchesCandidate.
  rewrite existsb_exists, in_map_iff. split.
  - intros (u & Hin & Hb). apply bool_decide_eq_true in Hb. eauto.
  - intros (u & He & Hin). exists u. split; [exact Hin|]. now apply bool_decide_eq_true.
Qed.

(** The weight that one job keyword contributes to [matchedWeight]. *)
Lemma matches_fold_sum (us : list userKeyword) (jobs : list jobKeyword)
    (acc : list keywordMatch) :
  sumQc (fun m => jobWeight m * matchStrength m)%Qc
    (fold_left (fun acc jk =>
       match userKeywordMap us !! toLowerCase (keywordOf jk) with
       | Some userMatch =>
           acc ++ [KeywordMatch (keywordOf jk) (weightOf jk) (uk_weight userMatch)
                     (calculateMatchStrength userMatch jk)]
       | None => acc
       end) jobs acc)
  = (sumQc (fun m => jobWeight m * matchStrength m)%Qc acc
     + sumQc weightOf (matchedJobKeywords us jobs))%Qc.
Proof.
  revert acc. induction jobs as [|jk jobs IH]; intros acc; simpl.
  - ring.
  - rewrite IH. clear IH.
    pose proof (matchesCandidate_lookup us jk) as Hm.
    destruct (userKeywordMap us !! toLowerCase (keywordOf jk)) as [u|] eqn:Hl.
    + assert (Ht : matchesCandidate us jk = true) by (apply Hm; eauto).
      rewrite Ht. simpl. rewrite sumQc_app. simpl.
      unfold calculateMatchStrength.
      rewrite (proj1 (userKeywordMap_spec us) _ _ Hl).
      rewrite decide_True by reflexivity. ring.
    + destruct (matchesCandidate us jk) eqn:Ht.
      * destruct (proj1 Hm eq_refl) as [? Hx]. discriminate.
      * reflexivity.
Qed.

Lemma matchedWeight_eq (us : list userKeyword) (jobs : list jobKeyword) :
  fold_left (fun sum m => (sum + jobWeight m * matchStrength m)%Qc)
    (findKeywordMatches us jobs) 0%Qc
  = sumQc weightOf (matchedJobKeywords us jobs).
Proof.
  rewrite (reduce_sumQc (fun m => jobWeight m * matchStrength m)%Qc).
  unfold findKeywordMatches.
  rewrite <- (sumQc_perm _ _ _ (Array_sort_perm _ _)).
  rewrite matches_fold_sum. simpl. ring.
Qed.


End MatchScore.

(** ** C5: the retry policy of [makeRequest] *)

Section RetryPolicy.
Import JS Effects ClaudeService Spec Samples.

(** C5, as stated, fails: after three server errors no third retry is
    made, although it would have succeeded; the call has been retried
    twice. *)
Lemma third_retry_never_made :
  let out := makeRequest recoversOnFourthCall initial in
  calls (snd out) - 1 = 2
  /\ sleeps (snd out) = [1000; 2000]
  /\ succeeded (recoversOnFourthCall 3) = Some "ok"
  /\ fst out = Throw (ExternalServiceError
                        "Claude API failed after 3 attempts: Service Unavailable").
Proof. vm_compute. repeat split; reflexivity. Qed.

(** One iteration of the loop, by the kind of the reply. *)
Lemma attemptLoop_step (service : nat -> apiReply) (fuel attempt : nat) (w : world) :
  attemptLoop service (S fuel) attempt w =
    let r := service (calls w) in
    let w1 := World (S (calls w)) (sleeps w) in
    match succeeded r with
    | Some c => (Ok (Some c), w1)
    | None =>
        if isClientError r then
          (Throw (ExternalServiceError ("Claude API error: " +:+ failureMessage r)), w1)
        else if (attempt =? maxRetries)%nat then
          (Throw (ExternalServiceError
                    ("Claude API failed after " +:+ string_of_nat maxRetries
                     +:+ " attempts: " +:+ failureMessage r)), w1)
        else
          attemptLoop service fuel (S attempt)
            (World (S (calls w)) (sleeps w ++ [retryDelay * 2 ^ (attempt - 1)]))
    end.
Proof.
  cbn [attemptLoop]. cbv zeta.
  destruct (service (calls w)) as [[c|]|st m]; cbn [succeeded isClientError failureMessage].
  - destruct (decide (c = EmptyString)); reflexivity.
  - reflexivity.
  - reflexivity.
Qed.

Ltac refute R A0 A1 A2 H :=
  first
    [ congruence
    | let H' := fresh in
      pose proof (H 0 ltac:(lia)) as H'; rewrite A0 in H'; apply R in H';
      destruct H'; congruence
    | let H' := fresh in
      pose proof (H 1 ltac:(lia)) as H'; rewrite A1 in H'; apply R in H';
      destruct H'; congruence
    | let H' := fresh in
      pose proof (H 2 ltac:(lia)) as H'; rewrite A2 in H'; apply R in H';
      destruct H'; congruence ].

Ltac settle R A0 A1 A2 K :=
  cbn [fst snd calls sleeps isThrow firstn];
  rewrite ?app_nil_r, <- ?app_assoc; cbn [app];
  repeat match goal with |- _ /\ _ => split end;
  try lia; try assumption; try reflexivity; try (eexists; reflexivity);
  try (left; assumption); try (right; split; [reflexivity | assumption]);
  try exact K;
  try (let H := fresh in
       intros H;
       first [ refute R A0 A1 A2 H
             | repeat match goal with |- _ /\ _ => split end;
               try reflexivity; try exact I ]).

(** C5, amended.  [makeRequest] calls the service at least once and at
    most 3 times in all, so a failing call is retried at most twice; it
    sleeps 1000 ms before the second attempt and 2000 ms before the
    third; every attempt that is followed by another one failed with
    something else than a client error; the call returns the content of
    a successful last attempt and otherwise throws, on a client error
    or when the third attempt failed.  A client error (4xx other than
    429) on the first attempt ends the call at once: one attempt, no
    sleep.  Three failures that are not client errors exhaust the
    call: three attempts, delays of 1000 and 2000 ms, then an error. *)
Theorem makeRequest_retry_policy (service : nat -> apiReply) (w : world) :
  let out := makeRequest service w in
  let n := calls (snd out) - calls w in
  (1 <= n <= 3 /\ calls (snd out) = calls w + n)
  /\ sleeps (snd out) = sleeps w ++ firstn (n - 1) [retryDelay * 2 ^ 0; retryDelay * 2 ^ 1]
  /\ (forall k, k + 1 < n -> retryable (service (calls w + k)) = true)
  /\ match fst out with
     | Ok (Some c) => succeeded (service (calls w + (n - 1))) = Some c
     | Ok None => False
     | Throw e =>
         (exists msg, e = ExternalServiceError msg)
         /\ (isClientError (service (calls w + (n - 1))) = true
             \/ (n = 3 /\ retryable (service (calls w + (n - 1))) = true))
     end
  /\ (isClientError (service (calls w)) = true ->
      n = 1 /\ sleeps (snd out) = sleeps w /\ isThrow (fst out))
  /\ ((forall k, k < 3 -> retryable (service (calls w + k)) = true) ->
      n = 3 /\ sleeps (snd out) = sleeps w ++ [1000; 2000] /\ isThrow (fst out)).
Proof.
  destruct w as [c sl]. unfold makeRequest. change maxRetries with 3.
  assert (R : forall r, retryable r = true <->
                        succeeded r = None /\ isClientError r = false).
  { intros r. unfold retryable. destruct (succeeded r), (isClientError r);
      simpl; intuition congruence. }
  assert (X : forall r x, succeeded r = Some x -> isClientError r = false).
  { intros [[y|]|st m] x; simpl; intros H; congruence. }
  assert (A0 : c + 0 = c) by lia.
  assert (A1 : c + 1 = S c) by lia.
  assert (A2 : c + 2 = S (S c)) by lia.
  assert (K0 : forall k, k + 1 < 1 -> retryable (service (c + k)) = true)
    by (intros; lia).
  rewrite attemptLoop_step. cbn [calls sleeps]. cbv zeta.
  destruct (succeeded (service c)) as [c0|] eqn:S0.
  { pose proof (X _ _ S0) as C0. cbn [fst snd calls sleeps]. replace (S c - c) with 1 by lia.
    change (1 - 1) with 0. rewrite A0. settle R A0 A1 A2 K0. }
  destruct (isClientError (service c)) eqn:C0.
  { cbn [fst snd calls sleeps]. replace (S c - c) with 1 by lia.
    change (1 - 1) with 0. rewrite A0. settle R A0 A1 A2 K0. }
  assert (R0 : retryable (service c) = true) by (apply R; auto).
  assert (K1 : forall k, k + 1 < 2 -> retryable (service (c + k)) = true).
  { intros k Hk. assert (k = 0) as -> by lia. now rewrite A0. }
  change (1 =? maxRetries)%nat with false. cbv iota.
  rewrite attemptLoop_step. cbn [calls sleeps]. cbv zeta.
  destruct (succeeded (service (S c))) as [c1|] eqn:S1.
  { pose proof (X _ _ S1) as C1. cbn [fst snd calls sleeps]. replace (S (S c) - c) with 2 by lia.
    change (2 - 1) with 1. rewrite A1. settle R A0 A1 A2 K1. }
  destruct (isClientError (service (S c))) eqn:C1.
  { cbn [fst snd calls sleeps]. replace (S (S c) - c) with 2 by lia.
    change (2 - 1) with 1. rewrite A1. settle R A0 A1 A2 K1. }
  assert (R1 : retryable (service (S c)) = true) by (apply R; auto).
  assert (K2 : forall k, k + 1 < 3 -> retryable (service (c + k)) = true).
  { intros k Hk. assert (k = 0 \/ k = 1) as [-> | ->] by lia.
    - now rewrite A0.
    - now rewrite A1. }
  change (2 =? maxRetries)%nat with false. cbv iota.
  rewrite attemptLoop_step. cbn [calls sleeps]. cbv zeta.
  change (3 =? maxRetries)%nat with true. cbv iota.
  destruct (succeeded (service (S (S c)))) as [c2|] eqn:S2.
  { pose proof (X _ _ S2) as C2. cbn [fst snd calls sleeps]. replace (S (S (S c)) - c) with 3 by lia.
    change (3 - 1) with 2. rewrite A2. settle R A0 A1 A2 K2. }
  assert (T : isClientError (service (S (S c))) = true
              \/ retryable (service (S (S c))) = true).
  { destruct (isClientError (service (S (S c)))) eqn:C2; [now left|right].
    apply R; auto. }
  destruct (isClientError (service (S (S c)))) eqn:C2.
  { cbn [fst snd calls sleeps]. replace (S (S (S c)) - c) with 3 by lia.
    change (3 - 1) with 2. rewrite A2. settle R A0 A1 A2 K2. }
  assert (R2 : retryable (service (S (S c))) = true) by (apply R; auto).
  cbn [fst snd calls sleeps]. replace (S (S (S c)) - c) with 3 by lia.
  change (3 - 1) with 2. rewrite A2. settle R A0 A1 A2 K2.
Qed.

Lemma makeRequest_retry_policy_witness :
  let service := fun _ : nat => Rejected (Some 503) "Service Unavailable" in
  let out := makeRequest service initial in
  (forall k, k < 3 -> retryable (service (calls initial + k)) = true)
  /\ calls (snd out) - calls initial = 3
  /\ sleeps (snd out) = sleeps initial ++ [1000; 2000]
  /\ isThrow (fst out).
Proof.
  intros service out.
  assert (H : forall k, k < 3 -> retryable (service (calls initial + k)) = true)
    by (intros; reflexivity).
  split; [exact H|].
  exact (proj2 (proj2 (proj2 (proj2 (proj2
           (makeRequest_retry_policy service initial))))) H).
Defined.

(** A rate-limit rejection is retried; a plain client error is not. *)
Example rate_limit_is_retried :
  calls (snd (makeRequest (fun _ => Rejected (Some 429) "Too Many Requests") initial)) = 3.
Proof. reflexivity. Qed.

Example bad_request_is_not_retried :
  let out := makeRequest (fun _ => Rejected (Some 400) "Bad Request") initial in
  calls (snd out) = 1 /\ sleeps (snd out) = []
  /\ fst out = Throw (ExternalServiceError "Claude API error: Bad Request").
Proof. repeat split; reflexivity. Qed.

End RetryPolicy.

(** ** C7: scoring and selection of the work experience *)

Section ExperienceSelection.
Import JS Effects KeywordService Profile ContentService Spec Samples.

Lemma addHits_count (n : nat) (set : gset string) (ws : list string) (score : nat) :
  addHits n set ws score = score + n * hits set ws.
Proof.
  unfold addHits, hits. revert score.
  induction ws as [|word ws IH]; intros score; simpl; [lia|].
  rewrite IH. destruct (decide (word ∈ set)) as [Hin|Hout].
  - rewrite bool_decide_eq_true_2 by exact Hin. simpl. lia.
  - rewrite bool_decide_eq_false_2 by exact Hout. lia.
Qed.

Lemma hits_app (set : gset string) (l1 l2 : list string) :
  hits set (l1 ++ l2) = hits set l1 + hits set l2.
Proof. unfold hits. now rewrite List.filter_app, length_app. Qed.

Lemma bullets_fold_count (set : gset string) (bs : list bullet) (score : nat) :
  fold_left (fun score bullet =>
    addHits 1 set (words (toLowerCase (bulletText bullet))) score) bs score
  = score + hits set (flat_map (fun b => words (toLowerCase (bulletText b))) bs).
Proof.
  revert score. induction bs as [|b bs IH]; intros score; simpl.
  - unfold hits. simpl. lia.
  - rewrite IH, addHits_count, hits_app. lia.
Qed.

Lemma relevance_formula (exp : experience) (kws : list jobKeyword) :
  calculateExperienceRelevance exp kws =
    2 * hits (keywordSet kws) (split_ws (toLowerCase (role exp)))
    + 1 * hits (keywordSet kws) (bulletWords exp).
Proof.
  unfold calculateExperienceRelevance, bulletWords.
  destruct (bullets exp) as [bs|].
  - rewrite bullets_fold_count, addHits_count.
    change (default [] (Some bs)) with bs. lia.
  - rewrite addHits_count.
    change (hits (keywordSet kws) (flat_map _ (default [] None))) with 0. lia.
Qed.

Section WithService.
Context (service : nat -> apiReply).

Lemma enhanceAll_entries (top : list scoredExperience) (kws : list jobKeyword) (w : world) :
  List.map (fun t => (t_company t, t_role t, t_relevanceScore t))
    (fst (enhanceAll service top kws w))
  = List.map (fun e => (company (s_exp e), role (s_exp e), s_score e)) top.
Proof.
  revert w. induction top as [|e top IH]; intros w; simpl; [reflexivity|].
  destruct (enhanceExperienceBullets service (s_exp e) kws w) as [bs w1].
  specialize (IH w1). destruct (enhanceAll service top kws w1) as [others w2].
  simpl in *. now rewrite IH.
Qed.
End WithService.

(** C7. Each work-experience entry scores 2 points for every word of
    its lower-cased role title that is in the keyword set and 1 point
    for every word occurrence of its lower-cased bullets that is.  The
    entries kept are the first 4 of the entries sorted by score,
    highest first: all of them when there are fewer than 4, each of
    them scoring at least as much as every entry left out, and entries
    of equal score in their original order.  The tailored entries are
    the kept ones, in that order. *)
Theorem experience_selection (exps : list experience) (kws : list jobKeyword) :
  let scored :=
    List.map (fun e => Scored e (calculateExperienceRelevance e kws)) exps in
  let sorted := Array_sort (byScoreDesc s_score) scored in
  let top := topExperiences exps kws in
  (forall exp,
     calculateExperienceRelevance exp kws =
       2 * hits (keywordSet kws) (split_ws (toLowerCase (role exp)))
       + 1 * hits (keywordSet kws) (bulletWords exp))
  /\ top = firstn 4 sorted
  /\ Permutation scored sorted
  /\ StronglySorted (fun a b => s_score b <= s_score a) sorted
  /\ length top = Nat.min 4 (length exps)
  /\ (forall a b, In a top -> In b (skipn 4 sorted) -> s_score b <= s_score a)
  /\ (forall s, List.filter (fun e => (s_score e =? s)%nat) sorted
                = List.filter (fun e => (s_score e =? s)%nat) scored)
  /\ (forall service w,
        List.map (fun t => (t_company t, t_role t, t_relevanceScore t))
          (fst (selectAndEnhanceExperience service exps kws w))
        = List.map (fun e => (company (s_exp e), role (s_exp e), s_score e)) top).
Proof.
  intros scored sorted top.
  assert (Htop : top = firstn 4 sorted) by reflexivity.
  assert (Hsorted : StronglySorted (fun a b => s_score b <= s_score a) sorted)
    by apply Array_sort_sorted.
  split; [intros exp; apply relevance_formula|].
  split; [exact Htop|].
  split; [apply Array_sort_perm|].
  split; [exact Hsorted|].
  split.
  { rewrite Htop, length_firstn. subst sorted scored.
    now rewrite Array_sort_length, length_map. }
  split.
  { intros a b Ha Hb. rewrite Htop in Ha.
    exact (sorted_prefix_dominates s_score 4 sorted Hsorted a b Ha Hb). }
  split; [intros s; apply Array_sort_stable|].
  intros service w. unfold selectAndEnhanceExperience.
  destruct exps as [|e exps]; [reflexivity|]. apply enhanceAll_entries.
Qed.

Lemma experience_selection_witness :
  List.map (fun e => (company (s_exp e), s_score e))
    (topExperiences scenarioB_experiences scenarioB_keywords)
  = [("B", 3); ("D", 3); ("F", 2); ("A", 1)]
  /\ (forall b,
        In b (skipn 4 (Array_sort (byScoreDesc s_score)
                (List.map (fun e => Scored e
                   (calculateExperienceRelevance e scenarioB_keywords))
                   scenarioB_experiences))) ->
        s_score b <= 1).
Proof.
  split; [vm_compute; reflexivity|].
  intros b Hb.
  destruct (experience_selection scenarioB_experiences scenarioB_keywords)
    as (_ & _ & _ & _ & _ & H & _).
  refine (H (Scored (scenarioB_entry "A" "Engineer" ["Built React widgets"]) 1) b _ Hb).
  vm_compute. right. right. right. left. reflexivity.
Defined.

End ExperienceSelection.

(** ** C8: the caps of the tailored CV *)

Section SelectionCaps.
Import JS Effects KeywordService Profile ContentService Spec.
Context (service : nat -> apiReply) (JSON_parse : string -> option json).

Lemma enhanceLoop_length (bs : list bullet) (kws : list jobKeyword) (w : world) :
  length (fst (enhanceLoop service bs kws w)) = length bs.
Proof.
  revert w. induction bs as [|b bs IH]; intros w; simpl; [reflexivity|].
  destruct (ClaudeService.rewriteBullet service (bulletText b) kws w) as [e w1].
  specialize (IH w1). destruct (enhanceLoop service bs kws w1) as [others w2].
  simpl in *. now rewrite IH.
Qed.

Lemma enhanceExperienceBullets_cap (exp : experience) (kws : list jobKeyword) (w : world) :
  length (fst (enhanceExperienceBullets service exp kws w)) <= 4.
Proof.
  unfold enhanceExperienceBullets.
  destruct (bullets exp) as [[|b bs]|].
  - simpl. lia.
  - rewrite enhanceLoop_length. apply firstn_le_length.
  - simpl. lia.
Qed.

Lemma enhanceAll_caps (top : list scoredExperience) (kws : list jobKeyword) (w : world) :
  length (fst (enhanceAll service top kws w)) = length top
  /\ Forall (fun t => length (t_bullets t) <= 4) (fst (enhanceAll service top kws w)).
Proof.
  revert w. induction top as [|e top IH]; intros w; simpl.
  - split; [reflexivity|constructor].
  - pose proof (enhanceExperienceBullets_cap (s_exp e) kws w) as Hb.
    destruct (enhanceExperienceBullets service (s_exp e) kws w) as [bs w1].
    specialize (IH w1). destruct (enhanceAll service top kws w1) as [others w2].
    simpl in *. destruct IH as [IH1 IH2]. split; [now rewrite IH1|].
    constructor; [exact Hb|exact IH2].
Qed.

Lemma topExperiences_cap (exps : list experience) (kws : list jobKeyword) :
  length (topExperiences exps kws) <= 4.
Proof. unfold topExperiences, slice0. apply firstn_le_length. Qed.

Lemma experience_caps (exps : list experience) (kws : list jobKeyword) (w : world) :
  let out := fst (selectAndEnhanceExperience service exps kws w) in
  length out <= 4 /\ Forall (fun t => length (t_bullets t) <= 4) out.
Proof.
  unfold selectAndEnhanceExperience. destruct exps as [|e exps]; cbn [fst].
  - split; [simpl; lia|constructor].
  - destruct (enhanceAll_caps (topExperiences (e :: exps) kws) kws w) as [H1 H2].
    split; [rewrite H1; apply topExperiences_cap|exact H2].
Qed.

Lemma skills_cap (userSkills : list skill) (kws : list jobKeyword) (w : world) :
  length (fst (generateTailoredSkills service JSON_parse userSkills kws w)) <= 15.
Proof.
  unfold generateTailoredSkills.
  destruct (ClaudeService.generateSkillsList service JSON_parse kws w) as [cs w1].
  match goal with
  | |- context [match ?body with Ok _ => _ | Throw _ => _ end] => destruct body
  end; cbn [fst]; unfold slice0.
  - apply firstn_le_length.
  - etransitivity; [apply firstn_le_length|lia].
Qed.

Lemma projects_cap (ps : list project) (kws : list jobKeyword) :
  length (selectRelevantProjects ps kws) <= 3.
Proof.
  unfold selectRelevantProjects. destruct ps as [|p ps]; [simpl; lia|].
  rewrite length_map. unfold slice0. apply firstn_le_length.
Qed.

(** C8. Whatever the profile, the keywords and the replies of the
    generative-text service, the tailored sections hold at most 4
    experience entries of at most 4 bullets each, at most 15 skills and
    at most 3 projects. *)
Theorem tailored_caps (userProfile : userProfile) (jobDescription : string)
    (keywords : list jobKeyword) (w : world) :
  let cv := fst (createTailoredSections service JSON_parse userProfile jobDescription
                   keywords w) in
  length (sec_experience cv) <= 4
  /\ Forall (fun t => length (t_bullets t) <= 4) (sec_experience cv)
  /\ length (sec_skills cv) <= 15
  /\ length (sec_projects cv) <= 3.
Proof.
  unfold createTailoredSections.
  destruct (generateTailoredSummary service userProfile jobDescription keywords w)
    as [summary w1].
  pose proof (experience_caps (default [] (work_experience userProfile)) keywords w1)
    as [He Hb].
  destruct (selectAndEnhanceExperience service
              (default [] (work_experience userProfile)) keywords w1) as [ex w2].
  pose proof (skills_cap (default [] (Profile.skills userProfile)) keywords w2) as Hs.
  destruct (generateTailoredSkills service JSON_parse
              (default [] (Profile.skills userProfile)) keywords w2) as [sk w3].
  cbn [fst sec_experience sec_skills sec_projects] in *.
  repeat split; try assumption. apply projects_cap.
Qed.

End SelectionCaps.

(** ** C4: the summary when the generative-text service is unreachable *)

Section SummaryFallback.
Import JS Effects KeywordService Profile ContentService Spec Samples.

(** [ClaudeService.generateSummary] has a [catch] of its own and never
    throws, so the [catch] of [generateTailoredSummary], which would
    call [generateFallbackSummary], never runs. *)
Lemma generateSummary_never_throws (service : nat -> apiReply) (p : userProfile)
    (jd : string) (kws : list jobKeyword) (w : world) :
  exists s, fst (ClaudeService.generateSummary service p jd kws w) = Ok s.
Proof.
  unfold ClaudeService.generateSummary.
  destruct (ClaudeService.makeRequest service w) as [[[r|]|e] w']; eauto.
Qed.

Lemma makeRequest_all_fail (service : nat -> apiReply) (w : world) :
  (forall k, k < 3 -> succeeded (service (calls w + k)) = None) ->
  forall c, fst (ClaudeService.makeRequest service w) <> Ok (Some c).
Proof.
  intros H c. destruct w as [n sl]. unfold ClaudeService.makeRequest.
  change ClaudeService.maxRetries with 3.
  pose proof (H 0 ltac:(lia)) as H0. pose proof (H 1 ltac:(lia)) as H1.
  pose proof (H 2 ltac:(lia)) as H2. cbn [calls] in H0, H1, H2.
  replace (n + 0) with n in H0 by lia. replace (n + 1) with (S n) in H1 by lia.
  replace (n + 2) with (S (S n)) in H2 by lia.
  rewrite attemptLoop_step. cbn [calls sleeps]. cbv zeta. rewrite H0.
  destruct (isClientError (service n)); [discriminate|].
  change (1 =? ClaudeService.maxRetries)%nat with false. cbv iota.
  rewrite attemptLoop_step. cbn [calls sleeps]. cbv zeta. rewrite H1.
  destruct (isClientError (service (S n))); [discriminate|].
  change (2 =? ClaudeService.maxRetries)%nat with false. cbv iota.
  rewrite attemptLoop_step. cbn [calls sleeps]. cbv zeta. rewrite H2.
  destruct (isClientError (service (S (S n)))); discriminate.
Qed.

(** The summary returned when no attempt succeeds: the text of
    [ClaudeService.generateSummary], made of the first three keywords
    only. *)
Lemma summary_when_service_fails (service : nat -> apiReply) (p : userProfile)
    (jd : string) (kws : list jobKeyword) (w : world) :
  (forall k, k < 3 -> succeeded (service (calls w + k)) = None) ->
  fst (generateTailoredSummary service p jd kws w) =
    "Experienced professional with expertise in "
    +:+ join ", " (slice0 3 (split_on ", " (ClaudeService.keywordList 8 kws)))
    +:+ ". Proven track record of delivering results in dynamic environments. Seeking to leverage skills and experience in a challenging new role.".
Proof.
  intros H. pose proof (makeRequest_all_fail service w H) as Hf.
  unfold generateTailoredSummary, ClaudeService.generateSummary.
  destruct (ClaudeService.makeRequest service w) as [[[r|]|e] w']; cbn [fst] in *.
  - now destruct (Hf r).
  - reflexivity.
  - reflexivity.
Qed.

(** C4 at a failing input: with the service unreachable the caller gets
    the keyword-only text of [ClaudeService.generateSummary], not the
    summary of [generateFallbackSummary] with the first name and the
    number of work-experience entries. *)
Theorem unreachable_summary_differs :
  fst (generateTailoredSummary unreachable ada "Senior engineer" adaKeywords initial)
  = "Experienced professional with expertise in React, Node.js, AWS. Proven track record of delivering results in dynamic environments. Seeking to leverage skills and experience in a challenging new role."
  /\ generateFallbackSummary ada adaKeywords
     = "Experienced Ada with 2+ years of professional experience. Skilled in React, Node.js, AWS with a proven track record of delivering results. Seeking to leverage expertise in a challenging new role."
  /\ fst (generateTailoredSummary unreachable ada "Senior engineer" adaKeywords initial)
     <> generateFallbackSummary ada adaKeywords.
Proof.
  split; [vm_compute; reflexivity|].
  split; [vm_compute; reflexivity|].
  vm_compute. discriminate.
Qed.

End SummaryFallback.

(** ** C9: the temporary files of a render job *)

Section Cleanup.
Import JS Effects LatexService Samples.








End Cleanup.

(** ** C3: the template name of a render request *)

Section TemplateName.
Import JS Effects LatexService Samples.

(** C3, as stated, fails: the name "unknown-template" passes the
    sanitizer unchanged, no file [unknown-template-cv.tex] exists, and
    the job ends with an error instead of rendering with "modern". *)
Lemma unknown_template_is_an_error :
  sanitizeTemplateName (Some "unknown-template") = "unknown-template"
  /\ sanitizeTemplateName (Some "unknown-template") <> "modern"
  /\ fst (generatePDF stockTemplates emptyPdfRun (Some someone) (Some "unknown-template")
            noOptions emptyDisk)
     = Throw (PlainError
         "Failed to populate template: Template 'unknown-template' not found").
Proof.
  split; [reflexivity|]. split; [vm_compute; discriminate|]. vm_compute. reflexivity.
Qed.

Lemma renderSteps_missing_template (templates : gmap string string) (env : environment)
    (cv : cvData) (name : string) (opts : options) (fs : fileSystem) :
  directoriesOk env = true ->
  templates !! (name +:+ "-cv.tex") = None ->
  fst (renderSteps templates env cv name opts fs) =
    Throw (PlainError ("Failed to populate template: Template '" +:+ name
                       +:+ "' not found")).
Proof.
  intros Hd Ht. unfold renderSteps, populateTemplate. rewrite Hd, Ht. reflexivity.
Qed.

(** C3, amended.  The renderer substitutes "modern" exactly when the
    template id is missing, is not a string, or keeps no character of
    [a-zA-Z0-9_-]; any other id is cut down to those characters and
    lower-cased, and is then the template name used, whether or not it
    is one of the stock templates.  When the template directory has no
    file for that name the job fails with a "not found" error; there is
    no fall-back at that point. *)
Theorem template_name_sanitized :
  sanitizeTemplateName None = "modern"
  /\ (forall s, toLowerCase (keepAllowed s) = EmptyString ->
        sanitizeTemplateName (Some s) = "modern")
  /\ (forall s, toLowerCase (keepAllowed s) <> EmptyString ->
        sanitizeTemplateName (Some s) = toLowerCase (keepAllowed s))
  /\ (forall templates env cv templateName opts fs,
        directoriesOk env = true ->
        templates !! (sanitizeTemplateName templateName +:+ "-cv.tex") = None ->
        fst (generatePDF templates env (Some cv) templateName opts fs) =
          Throw (PlainError ("Failed to populate template: Template '"
                             +:+ sanitizeTemplateName templateName +:+ "' not found"))).
Proof.
  split; [reflexivity|]. split; [|split].
  - intros s Hs. unfold sanitizeTemplateName.
    destruct (decide (s = EmptyString)); [reflexivity|].
    cbv zeta. now rewrite decide_True by exact Hs.
  - intros s Hs. unfold sanitizeTemplateName.
    destruct (decide (s = EmptyString)) as [->|Hne]; [now destruct Hs|].
    cbv zeta. now rewrite decide_False by exact Hs.
  - intros templates env cv templateName opts fs Hd Ht. unfold generatePDF.
    pose proof (renderSteps_missing_template templates env cv
                  (sanitizeTemplateName templateName) opts fs Hd Ht) as H.
    destruct (renderSteps templates env cv (sanitizeTemplateName templateName) opts fs)
      as [[info|e] fs2]; cbn [fst] in *; [discriminate|exact H].
Qed.

Lemma template_name_sanitized_witness :
  toLowerCase (keepAllowed "../../") = EmptyString
  /\ sanitizeTemplateName (Some "../../") = "modern"
  /\ toLowerCase (keepAllowed "Classic!") <> EmptyString
  /\ sanitizeTemplateName (Some "Classic!") = "classic".
Proof.
  destruct template_name_sanitized as (_ & H1 & H2 & _).
  assert (E1 : toLowerCase (keepAllowed "../../") = EmptyString) by reflexivity.
  assert (E2 : toLowerCase (keepAllowed "Classic!") <> EmptyString)
    by (vm_compute; discriminate).
  split; [exact E1|]. split; [exact (H1 _ E1)|]. split; [exact E2|].
  exact (H2 _ E2).
Defined.

End TemplateName.

(** ** C2 and C10: escaping in the populated template *)

Section Escaping.
Import JS Effects LatexService Spec Samples.

Local Arguments String.append !s1 s2 : simpl nomatch.

Lemma append_assoc (a b c : string) : (a +:+ b) +:+ c = a +:+ (b +:+ c).
Proof.
  induction a as [|x a IH]; cbn [String.append]; [reflexivity|]. now rewrite IH.
Qed.


Lemma charMap_app (f : ascii -> string) (a b : string) :
  charMap f (a +:+ b) = charMap f a +:+ charMap f b.
Proof.
  induction a as [|x a IH]; cbn [String.append charMap]; [reflexivity|].
  now rewrite IH, append_assoc.
Qed.

(** A pass of [replace] whose pattern is one character and whose
    replacement holds no expandable [$] rewrites character by
    character. *)
Lemma replace_go_char (c : ascii) (repl : string) (s before : string) :
  (forall m b a, getSubstitution m b a repl = repl) ->
  concat_strings (List.map segment_text
    (replace_go (String c EmptyString) repl O before s))
  = charMap (fun x => if Ascii.eqb x c then repl else String x EmptyString) s.
Proof.
  intros Hrepl. revert before. induction s as [|x s IH]; intros before.
  - reflexivity.
  - cbn [replace_go String.prefix String.length Nat.sub charMap].
    destruct (Ascii.ascii_dec c x) as [->|Hne].
    + rewrite Ascii.eqb_refl.
      replace (String.prefix EmptyString s) with true by (destruct s; reflexivity).
      cbn [List.map concat_strings segment_text]. now rewrite IH, Hrepl.
    + replace (Ascii.eqb x c) with false
        by (symmetry; apply Ascii.eqb_neq; congruence).
      cbn [List.map concat_strings segment_text]. now rewrite IH.
Qed.

Lemma replaceAll_char (c : ascii) (repl : string) (s : string) :
  (forall m b a, getSubstitution m b a repl = repl) ->
  replaceAll (String c EmptyString) repl s
  = charMap (fun x => if Ascii.eqb x c then repl else String x EmptyString) s.
Proof. intros H. unfold replaceAll, replaceSegments. now apply replace_go_char. Qed.

Lemma escapeLatex_passes (s : string) : escapeLatex s = passes s.
Proof.
  unfold escapeLatex, passes, bs. cbv zeta.
  rewrite !replaceAll_char by (intros; reflexivity). reflexivity.
Qed.

Lemma passes_app (a b : string) : passes (a +:+ b) = passes a +:+ passes b.
Proof. unfold passes. now rewrite !charMap_app. Qed.

Lemma passes_char (c : ascii) : passes (String c EmptyString) = escChar c.
Proof.
  destruct c as [[] [] [] [] [] [] [] []]; reflexivity.
Qed.

(** [escapeLatex] rewrites its argument character by character. *)
Lemma escapeLatex_charMap (s : string) : escapeLatex s = charMap escChar s.
Proof.
  rewrite escapeLatex_passes. induction s as [|c s IH]; [reflexivity|].
  change (String c s) with (String c EmptyString +:+ s).
  rewrite passes_app, passes_char, IH. reflexivity.
Qed.


(** *** The expansion of the replacement string *)

Section Expansion.
Context (m before after : string).








End Expansion.





(** The classic template populated with one work-experience entry: the
    markup of [formatExperience] is escaped along with the user text. *)
Example classic_populated :
  populateTemplate stockTemplates withExperience "classic" noOptions =
    Ok ("\textbf{C:\textbackslash\{\}Users} " +:+ nl
        +:+ "\textbackslash\{\}cventry\{2020 - Present\}\{Engineer\}\{R\&D\}\{\}\{\}\{"
        +:+ nl +:+ "\textbackslash\{\}begin\{itemize\}" +:+ nl
        +:+ "\textbackslash\{\}item Cut costs by 5\%" +:+ nl
        +:+ "\textbackslash\{\}end\{itemize\}\}").
Proof. vm_compute. reflexivity. Qed.

(** C2 at a failing input.  [escapeLatex] turns the summary
    "Revenue ($'000)" into "Revenue (\$'000)", but [replace] reads the
    [$'] of that replacement string as "the text after the match": the
    dollar sign does not reach the document in its escaped form, and
    the tail of the template, with its raw [&], is spliced in at the
    substituted position. *)
Theorem dollar_quote_splices_template :
  escapeLatex "Revenue ($'000)" = "Revenue (\$'000)"
  /\ (forall m before after,
        getSubstitution m before after (escapeLatex "Revenue ($'000)")
        = "Revenue (" +:+ bs +:+ after +:+ "000)")
  /\ In (Substituted "Revenue (\ & more000)")
        (replaceSegments (marker "SUMMARY") (escapeLatex "Revenue ($'000)")
           "\name{Grace Hopper}\email{grace@example.com} <<SUMMARY>> & more")
  /\ populateTemplate stockTemplates thousands "modern" noOptions
     = Ok "\name{Grace Hopper}\email{grace@example.com} Revenue (\ & more000) & more".
Proof.
  split; [vm_compute; reflexivity|]. split; [intros; reflexivity|].
  split; [vm_compute|vm_compute; reflexivity].
  do 45 right. left. reflexivity.
Qed.

End Escaping.

(** ** Matches between word boundaries and whole words *)

Section WholeWords.
Import JS Effects KeywordService Spec.

Local Arguments String.append !s1 s2 : simpl nomatch.

Lemma is_word_lower (c : ascii) : is_word (lower_ascii c) = is_word c.
Proof. destruct c as [[] [] [] [] [] [] [] []]; reflexivity. Qed.

Lemma same_lower_same_class (a b : ascii) :
  lower_ascii a = lower_ascii b -> is_word a = is_word b.
Proof. intros H. now rewrite <- (is_word_lower a), <- (is_word_lower b), H. Qed.

Lemma snoc_append (cur : string) (c : ascii) (x : string) :
  snoc cur c +:+ x = cur +:+ String c x.
Proof.
  unfold snoc. induction cur as [|d cur IH]; simpl; [reflexivity|]. now rewrite IH.
Qed.

Lemma snoc_not_empty (cur : string) (c : ascii) : snoc cur c <> EmptyString.
Proof. unfold snoc. destruct cur; discriminate. Qed.

Lemma append_empty_r (a : string) : a +:+ EmptyString = a.
Proof. induction a as [|x a IH]; simpl; [reflexivity|]. now rewrite IH. Qed.

Lemma run_split (s : string) : s = wordRun s +:+ afterRun s.
Proof.
  induction s as [|c s IH]; [reflexivity|]. simpl.
  destruct (is_word c); simpl; [now rewrite <- IH|reflexivity].
Qed.

Lemma afterRun_head (s : string) : isWordOpt (headOf (afterRun s)) = false.
Proof.
  induction s as [|c s IH]; [reflexivity|]. simpl.
  destruct (is_word c) eqn:Hc; [exact IH|]. simpl. exact Hc.
Qed.

Lemma wordRun_words (s : string) : allChars is_word (wordRun s) = true.
Proof.
  induction s as [|c s IH]; [reflexivity|]. simpl.
  destruct (is_word c) eqn:Hc; [|reflexivity]. simpl. now rewrite Hc.
Qed.

Section Keyword.
Context (keyword : string).
Hypothesis keyword_not_empty : keyword <> EmptyString.
Hypothesis keyword_is_word : allChars is_word keyword = true.

(** A successful reading of the keyword consumes as many word characters
    as the keyword has, equal to it up to case. *)
Lemma readKeyword_reads (kw s rest : string) (last0 last : option ascii) :
  allChars is_word kw = true ->
  readKeyword kw s last0 = Some (rest, last) ->
  exists w,
    s = w +:+ rest /\ toLowerCase w = toLowerCase kw /\ allChars is_word w = true
    /\ String.length w = String.length kw
    /\ (kw <> EmptyString -> isWordOpt last = true)
    /\ (kw = EmptyString -> last = last0).
Proof.
  revert s last0. induction kw as [|k kw IH]; intros s last0 Hkw Hr.
  - simpl in Hr. inversion Hr; subst. exists EmptyString. repeat split; congruence.
  - simpl in Hr. destruct s as [|c s]; [discriminate|].
    destruct (Ascii.eqb_spec (lower_ascii k) (lower_ascii c)) as [Hl|]; [|discriminate].
    simpl in Hkw. apply andb_true_iff in Hkw. destruct Hkw as [Hk Hkw].
    assert (Hc : is_word c = true) by (rewrite <- (same_lower_same_class _ _ Hl); exact Hk).
    destruct (IH s (Some c) Hkw Hr) as (w & -> & Hlow & Hw & Hlen & Hlast & Hlast0).
    exists (String c w). simpl. rewrite Hlow, Hl, Hc, Hw, Hlen.
    repeat split; try discriminate. intros _.
    destruct kw as [|k' kw']; [rewrite Hlast0 by reflexivity; exact Hc|].
    apply Hlast. discriminate.
Qed.

(** Conversely the keyword is read off any text that begins with it up
    to case. *)
Lemma readKeyword_finds (kw w rest : string) (last0 : option ascii) :
  toLowerCase w = toLowerCase kw ->
  exists last,
    readKeyword kw (w +:+ rest) last0 = Some (rest, last)
    /\ (w = EmptyString -> last = last0)
    /\ (w <> EmptyString -> allChars is_word w = true -> isWordOpt last = true).
Proof.
  revert w last0. induction kw as [|k kw IH]; intros w last0 Hl.
  - destruct w; [|discriminate]. exists last0. repeat split; congruence.
  - destruct w as [|c w]; [discriminate|]. simpl in Hl. inversion Hl as [[Hc Hrest]].
    destruct (IH w (Some c) Hrest) as (last & Hr & Hl0 & Hlw).
    exists last. simpl. rewrite Hc, Ascii.eqb_refl. split; [exact Hr|].
    split; [discriminate|]. intros _ Hw. apply andb_true_iff in Hw.
    destruct Hw as [Hcw Hw]. destruct w as [|d w'].
    + rewrite Hl0 by reflexivity. exact Hcw.
    + apply Hlw; [discriminate|exact Hw].
Qed.

Lemma takeChars_app (w rest : string) : takeChars (String.length w) (w +:+ rest) = w.
Proof. induction w as [|c w IH]; simpl; [now destruct rest|]. now rewrite IH. Qed.

Lemma endsWordAfter_app (w rest : string) :
  allChars is_word w = true ->
  endsWordAfter (String.length w) (w +:+ rest) = negb (isWordOpt (headOf rest)).
Proof.
  induction w as [|c w IH]; simpl; intros Hw.
  - now destruct rest.
  - apply andb_true_iff in Hw. destruct Hw as [Hc Hw]. now rewrite Hc, IH.
Qed.

Lemma no_match_on_non_word (prev : option ascii) (c : ascii) (r : string) :
  is_word c = false -> matchesHere keyword prev (String c r) = false.
Proof.
  intros Hc. unfold matchesHere. destruct keyword as [|k kw]; [now destruct keyword_not_empty|].
  simpl in keyword_is_word. apply andb_true_iff in keyword_is_word.
  destruct keyword_is_word as [Hk _]. simpl.
  destruct (Ascii.eqb_spec (lower_ascii k) (lower_ascii c)) as [Hl|];
    [|now rewrite andb_false_r].
  apply same_lower_same_class in Hl. congruence.
Qed.

Lemma no_match_at_end (prev : option ascii) : matchesHere keyword prev EmptyString = false.
Proof.
  unfold matchesHere. destruct keyword; [now destruct keyword_not_empty|].
  simpl. now rewrite andb_false_r.
Qed.

Lemma no_match_inside_word (prev : option ascii) (c : ascii) (r : string) :
  isWordOpt prev = true -> is_word c = true ->
  matchesHere keyword prev (String c r) = false.
Proof.
  intros Hp Hc. unfold matchesHere, wordBoundary. simpl. now rewrite Hp, Hc.
Qed.

Local Abbreviation N cur s := (length (List.filter (sameWord keyword) (words_go cur s))).
Local Abbreviation C k prev s := (countMatches_go keyword k prev s).

(** The two scans side by side, in each of the three situations in
    which they can be: between words, inside a word that is not the
    keyword, inside a word that is the keyword and has been counted. *)
Lemma scans_agree (s : string) :
  (forall prev, isWordOpt prev = false -> C 0 prev s = N EmptyString s)
  /\ (forall prev cur, isWordOpt prev = true -> cur <> EmptyString ->
        sameWord keyword (cur +:+ wordRun s) = false -> C 0 prev s = N cur s)
  /\ (forall k prev cur, cur <> EmptyString ->
        endsWordAfter k s = true ->
        sameWord keyword (cur +:+ takeChars k s) = true ->
        (k = 0 -> isWordOpt prev = true) ->
        S (C k prev s) = N cur s).
Proof.
  induction s as [|c r (IH1 & IH2 & IH3)].
  - split; [|split].
    + intros prev Hp. cbn [countMatches_go words_go]. now rewrite no_match_at_end.
    + intros prev cur Hp Hcur Hs. cbn [countMatches_go words_go wordRun] in *.
      rewrite no_match_at_end. rewrite append_empty_r in Hs.
      destruct (decide (cur = EmptyString)); [contradiction|].
      cbn [List.filter]. now rewrite Hs.
    + intros k prev cur Hcur He Hs Hk. destruct k; [|discriminate].
      cbn [countMatches_go words_go takeChars] in *.
      rewrite no_match_at_end. rewrite append_empty_r in Hs.
      destruct (decide (cur = EmptyString)); [contradiction|].
      cbn [List.filter]. now rewrite Hs.
  - split; [|split].
    + intros prev Hp. cbn [countMatches_go words_go].
      destruct (is_word c) eqn:Hc.
      * destruct (matchesHere keyword prev (String c r)) eqn:Hm.
        -- unfold matchesHere in Hm. apply andb_true_iff in Hm. destruct Hm as [_ Hm].
           destruct (readKeyword keyword (String c r) prev) as [[rest last]|] eqn:Hr;
             [|discriminate].
           destruct (readKeyword_reads _ _ _ _ _ keyword_is_word Hr)
             as (w & Hw & Hlow & Hword & Hlen & Hlast & _).
           destruct w as [|c' w']; [simpl in Hlen; destruct keyword; [now destruct keyword_not_empty|discriminate]|].
           simpl in Hw. inversion Hw; subst c' r. clear Hw.
           simpl in Hword. apply andb_true_iff in Hword. destruct Hword as [_ Hword].
           replace (String.length keyword - 1) with (String.length w')
             by (rewrite <- Hlen; simpl; lia).
           apply IH3.
           ++ apply snoc_not_empty.
           ++ rewrite endsWordAfter_app by exact Hword.
              unfold wordBoundary in Hm. rewrite (Hlast keyword_not_empty) in Hm.
              simpl in Hm. now destruct (isWordOpt (headOf rest)).
           ++ rewrite takeChars_app. unfold sameWord. apply bool_decide_eq_true.
              rewrite snoc_append. exact Hlow.
           ++ intros _. exact Hc.
        -- apply IH2.
           ++ exact Hc.
           ++ apply snoc_not_empty.
           ++ destruct (sameWord keyword (snoc EmptyString c +:+ wordRun r)) eqn:Hs;
                [exfalso|reflexivity].
              unfold sameWord in Hs. apply bool_decide_eq_true in Hs.
              rewrite snoc_append in Hs. simpl in Hs.
              destruct (readKeyword_finds keyword (String c (wordRun r)) (afterRun r)
                          prev Hs) as (last & Hr & _ & Hlast).
              unfold matchesHere in Hm.
              replace (String c r) with (String c (wordRun r) +:+ afterRun r) in Hm
                by (simpl; now rewrite <- run_split).
              rewrite Hr in Hm. unfold wordBoundary in Hm.
              rewrite Hlast in Hm; [|discriminate|simpl; now rewrite Hc, wordRun_words].
              rewrite afterRun_head in Hm. simpl in Hm.
              rewrite Hp, Hc in Hm. discriminate.
      * rewrite no_match_on_non_word by exact Hc.
        rewrite decide_True by reflexivity. apply IH1. exact Hc.
    + intros prev cur Hp Hcur Hs. cbn [countMatches_go words_go wordRun] in *.
      destruct (is_word c) eqn:Hc.
      * rewrite no_match_inside_word by assumption.
        apply IH2; [exact Hc|apply snoc_not_empty|].
        now rewrite snoc_append.
      * rewrite no_match_on_non_word by exact Hc.
        rewrite decide_False by exact Hcur. cbn [List.filter].
        rewrite append_empty_r in Hs. rewrite Hs. apply IH1. exact Hc.
    + intros k prev cur Hcur He Hs Hk. destruct k as [|k].
      * cbn [endsWordAfter takeChars] in *. apply negb_true_iff in He.
        cbn [countMatches_go words_go]. rewrite He.
        rewrite no_match_on_non_word by exact He.
        rewrite decide_False by exact Hcur. cbn [List.filter].
        rewrite append_empty_r in Hs. rewrite Hs. cbn [length]. f_equal.
        apply IH1. exact He.
      * cbn [endsWordAfter takeChars] in *. apply andb_true_iff in He.
        destruct He as [Hc He]. cbn [countMatches_go words_go]. rewrite Hc.
        apply IH3; [apply snoc_not_empty|exact He| |intros _; exact Hc].
        now rewrite snoc_append.
Qed.

(** For a keyword made of word characters the matches counted by
    [calculateFrequency] are the words of the text equal to it up to
    case. *)
Lemma countMatches_whole_words (text : string) :
  countMatches keyword text = wholeWordFrequency keyword text.
Proof.
  unfold countMatches, wholeWordFrequency, words.
  apply (proj1 (scans_agree text)). reflexivity.
Qed.

End Keyword.
End WholeWords.

(** ** C6: the ranking of the merged keywords *)

Section Ranking.
Import JS Effects KeywordService Spec Samples.

Lemma rankOne_literal (k : merged) (text : string) :
  literalKeyword k -> rankOne k text = Some (Ok (rankedOf text k)).
Proof.
  intros Hk. unfold rankOne, calculateFinalScore, calculateFrequency.
  unfold literalKeyword in Hk. now rewrite Hk.
Qed.

Lemma rankEach_literal (ks : list merged) (text : string) :
  Forall literalKeyword ks ->
  rankEach ks text = Some (Ok (List.map (rankedOf text) ks)).
Proof.
  induction 1 as [|k ks Hk _ IH]; [reflexivity|].
  cbn [rankEach List.map]. now rewrite (rankOne_literal k text Hk), IH.
Qed.

(** On keywords without metacharacters the ranking is what C6 says:
    each final score is the base weight plus 0.1 for every match of the
    keyword between word boundaries (for a keyword made of word
    characters: for every word of the text equal to it up to case) plus
    0.2 for a keyword that Claude returned, and the result is the 20
    first of the keywords sorted by that score, highest first. *)
Lemma ranking_of_literal_keywords (claudeKeywords basicKeywords : list extracted)
    (text : string) :
  let ms := mergeKeywords claudeKeywords basicKeywords in
  Forall literalKeyword ms ->
  exists out,
    rankKeywords ms text = Some (Ok out)
    /\ Forall (fun r =>
         In (rk_keyword r) ms
         /\ frequency r = countMatches (kw_text (mg_keyword (rk_keyword r))) text
         /\ (kw_text (mg_keyword (rk_keyword r)) <> EmptyString ->
             allChars is_word (kw_text (mg_keyword (rk_keyword r))) = true ->
             frequency r =
               wholeWordFrequency (kw_text (mg_keyword (rk_keyword r))) text)
         /\ finalScore r =
              (baseWeight (rk_keyword r)
               + Z2Qc (Z.of_nat (frequency r)) * Q2Qc (1 # 10)
               + (if bool_decide (Claude ∈ sources (rk_keyword r))
                  then Q2Qc (2 # 10) else 0))%Qc) out
    /\ StronglySorted (fun a b => (finalScore b <= finalScore a)%Qc) out
    /\ length out = Nat.min 20 (length ms).
Proof.
  intros ms Hlit. unfold rankKeywords. rewrite (rankEach_literal ms text Hlit).
  eexists. split; [reflexivity|]. split; [|split].
  - apply List.Forall_forall. intros r Hr. unfold slice0 in Hr.
    apply in_firstn_in in Hr.
    apply (Permutation_in _ (Permutation_sym (Array_sort_perm _ _))) in Hr.
    apply in_map_iff in Hr. destruct Hr as (k & <- & Hk).
    split; [exact Hk|]. split; [reflexivity|]. split; [|reflexivity].
    intros Hne Hw. now apply countMatches_whole_words.
  - unfold slice0. apply firstn_sorted. apply Array_sort_sorted_Qc.
  - unfold slice0. now rewrite length_firstn, Array_sort_length, length_map.
Qed.

(** The second pass of [mergeKeywords] leaves the first binding in
    place and its keyword as it is. *)
Lemma basic_pass_keeps_head (basicKeywords : list extracted) (key : string)
    (ck : extracted) (srcs : list source) (rest : list (string * merged)) :
  exists srcs' rest',
    fold_left (fun keywordMap bk =>
      if mapHas (toLowerCase (kw_text bk)) keywordMap
      then pushBasic (toLowerCase (kw_text bk)) keywordMap
      else mapSet (toLowerCase (kw_text bk)) (Merged bk [Basic]) keywordMap)
      basicKeywords ((key, Merged ck srcs) :: rest)
    = (key, Merged ck srcs') :: rest'.
Proof.
  revert srcs rest. induction basicKeywords as [|bk bs IH]; intros srcs rest.
  - cbn [fold_left]. eauto.
  - cbn [fold_left].
    destruct (mapHas (toLowerCase (kw_text bk)) ((key, Merged ck srcs) :: rest))
      eqn:Hhas.
    + cbn [pushBasic mg_keyword sources].
      destruct (decide (key = toLowerCase (kw_text bk))); apply IH.
    + cbn [mapSet]. destruct (decide (key = toLowerCase (kw_text bk))) as [Heq|Hne].
      * unfold mapHas in Hhas. cbn [existsb fst] in Hhas.
        rewrite bool_decide_eq_true_2 in Hhas by exact Heq. discriminate.
      * apply IH.
Qed.

(** Whenever "C++" is the keyword that Claude returns, the extraction
    falls back to the basic keywords, whatever they are and however
    many. *)
Lemma cplusplus_always_falls_back (w : Qc) (category : string)
    (basicKeywords : list extracted) (text : string) :
  extractJobKeywords [Extracted "C++" w category] basicKeywords text
  = Some (BasicFallback basicKeywords).
Proof.
  unfold extractJobKeywords, rankKeywords, mergeKeywords. cbv zeta.
  change (fold_left (fun keywordMap ck =>
            mapSet (toLowerCase (kw_text ck)) (Merged ck [Claude]) keywordMap)
            [Extracted "C++" w category] [])
    with [(toLowerCase "C++", Merged (Extracted "C++" w category) [Claude])].
  destruct (basic_pass_keeps_head basicKeywords (toLowerCase "C++")
              (Extracted "C++" w category) [Claude] []) as (srcs' & rest' & ->).
  reflexivity.
Qed.

(** C6 at a failing input.  Claude returns the keyword "C++"; the
    pattern built from it has a quantifier with nothing to repeat, so
    [calculateFrequency] throws, no final score is computed, and the
    extraction returns the keywords of the basic extraction unranked. *)
Theorem metacharacter_keyword_aborts_ranking :
  calculateFrequency "C++" cppPosting = Some (Throw SyntaxError)
  /\ rankKeywords (mergeKeywords cppClaude cppBasic) cppPosting = Some (Throw SyntaxError)
  /\ extractJobKeywords cppClaude cppBasic cppPosting = Some (BasicFallback cppBasic).
Proof. repeat split; vm_compute; reflexivity. Qed.

(** The same posting when Claude does not return "C++". *)
Example ranking_without_metacharacters :
  option_map (fun x =>
      match x with
      | ClaudeEnhanced ks =>
          List.map (fun r => (kw_text (mg_keyword (rk_keyword r)), frequency r)) ks
      | BasicFallback _ => []
      end)
    (extractJobKeywords [Extracted "React" (Q2Qc (8 # 10)) "technical"] cppBasic cppPosting)
  = Some [("React", 4); ("leadership", 1)].
Proof. vm_compute. reflexivity. Qed.

End Ranking.

(** ** The keywords of a profile *)

Section UserKeywords.
Import JS Effects KeywordService Profile KeywordAnalysis Spec Vocabulary.
Local Arguments String.append !s1 s2 : simpl nomatch.

Lemma lower_ascii_idem (c : ascii) : lower_ascii (lower_ascii c) = lower_ascii c.
Proof. destruct c as [[] [] [] [] [] [] [] []]; reflexivity. Qed.

Lemma toLowerCase_idem (s : string) : toLowerCase (toLowerCase s) = toLowerCase s.
Proof. induction s as [|c s IH]; simpl; [reflexivity|]. now rewrite lower_ascii_idem, IH. Qed.

Lemma toLowerCase_snoc (s : string) (c : ascii) :
  toLowerCase (snoc s c) = snoc (toLowerCase s) (lower_ascii c).
Proof. unfold snoc. induction s as [|d s IH]; simpl; [reflexivity|]. now rewrite IH. Qed.

(** The words of a text in lower case are in lower case. *)
Lemma words_go_lower (s cur : string) :
  toLowerCase cur = cur -> toLowerCase s = s ->
  Forall (fun w => toLowerCase w = w) (words_go cur s).
Proof.
  revert cur. induction s as [|c s IH]; intros cur Hc Hs; simpl.
  - destruct (decide (cur = EmptyString)); [constructor|]. now repeat constructor.
  - simpl in Hs. injection Hs as Hc1 Hs1.
    destruct (is_word c).
    + apply IH; [|exact Hs1]. rewrite toLowerCase_snoc. now rewrite Hc, Hc1.
    + destruct (decide (cur = EmptyString)).
      * now apply IH.
      * constructor; [exact Hc|]. now apply IH.
Qed.

Lemma words_lower (s : string) :
  Forall (fun w => toLowerCase w = w) (words (toLowerCase s)).
Proof. apply words_go_lower; [reflexivity|apply toLowerCase_idem]. Qed.

Lemma setAdd_tidy (x : string) (keywords : list string) :
  toLowerCase x = x -> tidy keywords -> tidy (setAdd x keywords).
Proof.
  intros Hx [Hn Hl]. unfold setAdd. case_bool_decide as Hin; [now split|]. split.
  - apply NoDup_app. split; [exact Hn|]. split.
    + intros y Hy Hy'. apply list_elem_of_singleton in Hy'. now subst.
    + apply NoDup_singleton.
  - apply Forall_app. split; [exact Hl|]. now repeat constructor.
Qed.

Lemma fold_tidy {A : Type} (f : list string -> A -> list string) (l : list A)
    (keywords : list string) :
  (forall k a, tidy k -> tidy (f k a)) -> tidy keywords -> tidy (fold_left f l keywords).
Proof.
  intros Hf. revert keywords. induction l as [|a l IH]; intros k Hk; simpl; [exact Hk|].
  apply IH. now apply Hf.
Qed.

Lemma addSkills_tidy (skills : list skill) (keywords : list string) :
  tidy keywords -> tidy (addSkills skills keywords).
Proof.
  unfold addSkills. apply fold_tidy. intros k a Hk.
  destruct (skillName a) as [n|]; [|exact Hk].
  destruct (decide (n = EmptyString)); [exact Hk|].
  apply setAdd_tidy; [apply toLowerCase_idem|exact Hk].
Qed.

Lemma addBullet_tidy (keywords : list string) (b : bullet) :
  tidy keywords -> tidy (addBullet keywords b).
Proof.
  intros Hk. unfold addBullet. cbv zeta.
  destruct (decide (bulletText b = EmptyString)); [exact Hk|].
  unfold longWords.
  pose proof (words_lower (bulletText b)) as Hw.
  revert keywords Hk. induction Hw as [|w ws Hw1 Hw2 IH]; intros keywords Hk.
  - exact Hk.
  - cbn [List.filter]. destruct (3 <=? String.length w)%nat; [|now apply IH].
    cbn [fold_left].
    apply IH. destruct ((3 <? String.length w)%nat && negb (isCommonWord w)).
    + now apply setAdd_tidy.
    + exact Hk.
Qed.

Lemma addExperience_tidy (keywords : list string) (e : experience) :
  tidy keywords -> tidy (addExperience keywords e).
Proof.
  intros Hk. unfold addExperience. cbv zeta.
  assert (Hk' : tidy (if decide (role e = EmptyString) then keywords
                      else setAdd (toLowerCase (role e)) keywords)).
  { destruct (decide (role e = EmptyString)); [exact Hk|].
    apply setAdd_tidy; [apply toLowerCase_idem|exact Hk]. }
  destruct (bullets e) as [bs|]; [|exact Hk'].
  apply fold_tidy; [|exact Hk']. intros k a. apply addBullet_tidy.
Qed.

Lemma addProject_tidy (keywords : list string) (p : project) :
  tidy keywords -> tidy (addProject keywords p).
Proof.
  intros Hk. unfold addProject. destruct (p_technologies p) as [ts|]; [|exact Hk].
  apply fold_tidy; [|exact Hk]. intros k a Hk'.
  apply setAdd_tidy; [apply toLowerCase_idem|exact Hk'].
Qed.

Lemma userKeywordSet_tidy (p : userProfile) : tidy (userKeywordSet p).
Proof.
  unfold userKeywordSet. cbv zeta.
  assert (H0 : tidy []) by (split; constructor).
  assert (H1 : tidy (match skills p with
                     | Some skills => addSkills skills []
                     | None => []
                     end)).
  { destruct (skills p); [now apply addSkills_tidy|exact H0]. }
  assert (H2 : tidy (match work_experience p with
                     | Some exps => fold_left addExperience exps
                         (match skills p with
                          | Some skills => addSkills skills []
                          | None => []
                          end)
                     | None => match skills p with
                               | Some skills => addSkills skills []
                               | None => []
                               end
                     end)).
  { destruct (work_experience p); [|exact H1].
    apply fold_tidy; [|exact H1]. intros k a. apply addExperience_tidy. }
  destruct (projects p); [|exact H2].
  apply fold_tidy; [|exact H2]. intros k a. apply addProject_tidy.
Qed.

(** X1.  The keywords that [extractUserKeywords] draws from a profile
    are pairwise distinct and in lower case, and each has weight 1 and
    the source [user_profile]; so a job keyword matches at most one of
    them, and it matches one exactly when its lower-case form is among
    them. *)
Theorem user_keywords_distinct_lowercase (p : userProfile) :
  NoDup (List.map uk_keyword (extractUserKeywords p))
  /\ (forall uk, In uk (extractUserKeywords p) ->
        toLowerCase (uk_keyword uk) = uk_keyword uk
        /\ uk_weight uk = 1%Qc /\ uk_source uk = "user_profile")
  /\ (forall jk, matchesCandidate (extractUserKeywords p) jk = true <->
        In (toLowerCase (keywordOf jk)) (List.map uk_keyword (extractUserKeywords p))).
Proof.
  destruct (userKeywordSet_tidy p) as [Hn Hl].
  assert (Hm : List.map uk_keyword (extractUserKeywords p) = userKeywordSet p).
  { unfold extractUserKeywords. rewrite List.map_map. simpl. apply List.map_id. }
  split; [now rewrite Hm|]. split.
  - intros uk Hin. unfold extractUserKeywords in Hin. apply in_map_iff in Hin.
    destruct Hin as (k & <- & Hk). simpl. split; [|split; reflexivity].
    rewrite List.Forall_forall in Hl. now apply Hl.
  - intros jk. unfold matchesCandidate. rewrite existsb_exists. split.
    + intros (uk & Hin & Hb). apply bool_decide_eq_true in Hb. rewrite <- Hb.
      assert (Hlow : toLowerCase (uk_keyword uk) = uk_keyword uk).
      { unfold extractUserKeywords in Hin. apply in_map_iff in Hin.
        destruct Hin as (k & <- & Hk). simpl.
        rewrite List.Forall_forall in Hl. now apply Hl. }
      rewrite Hlow. now apply in_map.
    + intros Hin. apply in_map_iff in Hin. destruct Hin as (uk & He & Hin).
      exists uk. split; [exact Hin|]. apply bool_decide_eq_true.
      rewrite <- He.
      unfold extractUserKeywords in Hin. apply in_map_iff in Hin.
      destruct Hin as (k & <- & Hk). simpl.
      rewrite List.Forall_forall in Hl. now apply Hl.
Qed.

End UserKeywords.

(** ** The analysis of a profile against job keywords *)

Section Analysis.
Import JS Effects KeywordService Profile KeywordAnalysis Spec Vocabulary.

(** The texts of the matches, before they are sorted. *)
Lemma matches_fold_keywords (us : list userKeyword) (jobs : list jobKeyword)
    (acc : list keywordMatch) :
  List.map m_keyword
    (fold_left (fun acc jk =>
       match userKeywordMap us !! toLowerCase (keywordOf jk) with
       | Some userMatch =>
           acc ++ [KeywordMatch (keywordOf jk) (weightOf jk) (uk_weight userMatch)
                     (calculateMatchStrength userMatch jk)]
       | None => acc
       end) jobs acc)
  = List.map m_keyword acc ++ List.map keywordOf (matchedJobKeywords us jobs).
Proof.
  revert acc. induction jobs as [|jk jobs IH]; intros acc; simpl.
  - now rewrite app_nil_r.
  - rewrite IH. clear IH.
    pose proof (matchesCandidate_lookup us jk) as Hm.
    destruct (userKeywordMap us !! toLowerCase (keywordOf jk)) as [u|] eqn:Hl.
    + assert (Ht : matchesCandidate us jk = true) by (apply Hm; eauto).
      rewrite Ht. simpl. rewrite List.map_app. simpl. now rewrite <- app_assoc.
    + destruct (matchesCandidate us jk) eqn:Ht.
      * destruct (proj1 Hm eq_refl) as [? Hx]. discriminate.
      * reflexivity.
Qed.

(** One match for each job keyword that equals a candidate keyword up
    to case. *)
Lemma findKeywordMatches_keywords (us : list userKeyword) (jobs : list jobKeyword) :
  Permutation (List.map m_keyword (findKeywordMatches us jobs))
    (List.map keywordOf (matchedJobKeywords us jobs)).
Proof.
  unfold findKeywordMatches. cbv zeta.
  etransitivity.
  - apply Permutation_map. symmetry. apply Array_sort_perm.
  - rewrite matches_fold_keywords. simpl. reflexivity.
Qed.

Lemma findKeywordMatches_length (us : list userKeyword) (jobs : list jobKeyword) :
  length (findKeywordMatches us jobs) = length (matchedJobKeywords us jobs).
Proof.
  rewrite <- (length_map m_keyword), <- (length_map keywordOf).
  apply Permutation_length, findKeywordMatches_keywords.
Qed.

(** Matching depends on the lower-case form of the keyword only. *)
Lemma matchesCandidate_ext (us : list userKeyword) (a b : jobKeyword) :
  toLowerCase (keywordOf a) = toLowerCase (keywordOf b) ->
  matchesCandidate us a = matchesCandidate us b.
Proof. intros H. unfold matchesCandidate. now rewrite H. Qed.

(** The test of [some] in [analyzeCVKeywords], on a job keyword of the
    list that was matched. *)
Lemma some_match_iff (us : list userKeyword) (jobs : list jobKeyword) (jk : jobKeyword) :
  In jk jobs ->
  existsb (fun m => bool_decide (toLowerCase (m_keyword m) = toLowerCase (keywordOf jk)))
    (findKeywordMatches us jobs)
  = matchesCandidate us jk.
Proof.
  intros Hin. apply eq_true_iff_eq. rewrite existsb_exists. split.
  - intros (m & Hm & Hb). apply bool_decide_eq_true in Hb.
    assert (Hk : In (m_keyword m) (List.map keywordOf (matchedJobKeywords us jobs))).
    { eapply Permutation_in; [apply findKeywordMatches_keywords|]. now apply in_map. }
    apply in_map_iff in Hk. destruct Hk as (jk' & He & Hjk').
    apply filter_In in Hjk'. destruct Hjk' as [_ Ht].
    rewrite <- Ht. apply matchesCandidate_ext. now rewrite He, Hb.
  - intros Ht.
    assert (Hk : In (keywordOf jk) (List.map m_keyword (findKeywordMatches us jobs))).
    { eapply Permutation_in; [symmetry; apply findKeywordMatches_keywords|].
      apply in_map. apply filter_In. now split. }
    apply in_map_iff in Hk. destruct Hk as (m & He & Hm).
    exists m. split; [exact Hm|]. apply bool_decide_eq_true. now rewrite He.
Qed.

Lemma no_match_no_candidate (us : list userKeyword) (jobs : list jobKeyword) (jk : jobKeyword) :
  findKeywordMatches us jobs = [] -> In jk jobs -> matchesCandidate us jk = false.
Proof.
  intros He Hin. destruct (matchesCandidate us jk) eqn:Ht; [|reflexivity].
  pose proof (findKeywordMatches_length us jobs) as Hl. rewrite He in Hl. simpl in Hl.
  assert (Hm : In jk (matchedJobKeywords us jobs)) by (apply filter_In; now split).
  destruct (matchedJobKeywords us jobs); [contradiction|discriminate].
Qed.

(** The [filter] of the missing keywords on a part [l] of the job
    keywords: it throws on the first bare string if there is a match,
    and otherwise keeps the keywords that were not matched. *)
Lemma filterMissing_spec (us : list userKeyword) (jobs l : list jobKeyword) :
  (forall jk, In jk l -> In jk jobs) ->
  match filterMissing (findKeywordMatches us jobs) l with
  | Ok missing =>
      missing = List.filter (fun jk => negb (matchesCandidate us jk)) l
      /\ (findKeywordMatches us jobs = [] \/ forallb isObject l = true)
  | Throw e =>
      e = TypeError /\ findKeywordMatches us jobs <> [] /\ forallb isObject l = false
  end.
Proof.
  induction l as [|jk l IH]; intros Hsub.
  - simpl. split; [reflexivity|now right].
  - cbn [filterMissing].
    assert (Hjk : In jk jobs) by (apply Hsub; now left).
    assert (Hsub' : forall x, In x l -> In x jobs) by (intros x Hx; apply Hsub; now right).
    specialize (IH Hsub').
    pose proof (some_match_iff us jobs jk Hjk) as Hs.
    pose proof (no_match_no_candidate us jobs jk) as Hn.
    unfold isMissing.
    destruct (findKeywordMatches us jobs) as [|m ms] eqn:Hf.
    + destruct (filterMissing [] l) as [missing|e].
      * destruct IH as [-> _]. split; [|now left].
        cbn [List.filter]. now rewrite (Hn eq_refl Hjk).
      * destruct IH as (_ & Hc & _). now destruct Hc.
    + destruct jk as [s|k wt c].
      * split; [reflexivity|]. split; [discriminate|reflexivity].
      * cbn [keywordOf] in Hs. rewrite Hs.
        destruct (filterMissing (m :: ms) l) as [missing|e].
        -- destruct IH as [-> [Hc|Hc]]; [discriminate|].
           split; [|right; exact Hc]. cbn [List.filter].
           now destruct (matchesCandidate us (KwObject k wt c)).
        -- destruct IH as (-> & _ & Hc). split; [reflexivity|]. split; [discriminate|].
           exact Hc.
Qed.

Lemma filter_split_length {A : Type} (f : A -> bool) (l : list A) :
  length (List.filter f l) + length (List.filter (fun x => negb (f x)) l) = length l.
Proof.
  induction l as [|x l IH]; simpl; [reflexivity|]. destruct (f x); simpl; lia.
Qed.

(** The two outcomes of [analyzeCVKeywords]. *)
Lemma analysis_outcome (p : userProfile) (jobs : list jobKeyword) :
  let us := extractUserKeywords p in
  let matches := findKeywordMatches us jobs in
  match analyzeCVKeywords p jobs with
  | Ok a =>
      a = Analysis (calculateMatchScore matches jobs) (length matches) matches
            (List.filter (fun jk => negb (matchesCandidate us jk)) jobs)
            (generateSuggestions matches jobs) (length us) (length jobs)
      /\ (matches = [] \/ forallb isObject jobs = true)
  | Throw e => e = TypeError /\ matches <> [] /\ forallb isObject jobs = false
  end.
Proof.
  intros us matches. unfold analyzeCVKeywords. cbv zeta. fold us. fold matches.
  pose proof (filterMissing_spec us jobs jobs (fun _ H => H)) as Hf. fold matches in Hf.
  destruct (filterMissing matches jobs) as [missing|e].
  - destruct Hf as [-> Hc]. split; [reflexivity|exact Hc].
  - exact Hf.
Qed.

(** X2.  [analyzeCVKeywords] either returns an analysis or throws a
    [TypeError].  When it returns, every job keyword is counted once:
    the matches are the job keywords that equal a keyword of the
    profile up to case, the missing keywords are the others in their
    order, and the two counts add up to the number of job keywords.
    It throws exactly when some job keyword is a bare string and some
    job keyword is matched. *)
Theorem analysis_partitions_job_keywords (p : userProfile) (jobs : list jobKeyword) :
  let us := extractUserKeywords p in
  match analyzeCVKeywords p jobs with
  | Ok a =>
      Permutation (List.map m_keyword (matchedKeywords a))
        (List.map keywordOf (matchedJobKeywords us jobs))
      /\ missingKeywords a = List.filter (fun jk => negb (matchesCandidate us jk)) jobs
      /\ totalMatches a + length (missingKeywords a) = length jobs
      /\ jobKeywordCount a = length jobs
      /\ (matchedJobKeywords us jobs = [] \/ forallb isObject jobs = true)
  | Throw e =>
      e = TypeError /\ matchedJobKeywords us jobs <> [] /\ forallb isObject jobs = false
  end.
Proof.
  intros us. pose proof (analysis_outcome p jobs) as Hf. cbv zeta in Hf. fold us in Hf.
  pose proof (findKeywordMatches_length us jobs) as Hl.
  destruct (analyzeCVKeywords p jobs) as [a|e].
  - destruct Hf as [-> Hc]. cbn [matchedKeywords missingKeywords totalMatches jobKeywordCount].
    split; [apply findKeywordMatches_keywords|]. split; [reflexivity|].
    split.
    + rewrite Hl. unfold matchedJobKeywords. apply filter_split_length.
    + split; [reflexivity|]. destruct Hc as [Hc|Hc]; [left|now right].
      rewrite Hc in Hl. simpl in Hl. now destruct (matchedJobKeywords us jobs).
  - destruct Hf as (-> & Hne & Hc). split; [reflexivity|]. split; [|exact Hc].
    intros He. rewrite He in Hl. simpl in Hl. apply Hne.
    now destruct (findKeywordMatches us jobs).
Qed.

(** X3.  With a bare string among the job keywords, the analysis of a
    profile that has one of the job keywords fails with a [TypeError]
    instead of returning: the test for missing keywords reads the
    field [keyword] of every job keyword. *)
Theorem analysis_throws_on_string_keyword (p : userProfile) (jobs : list jobKeyword)
    (s : string) (jk : jobKeyword) :
  In (KwString s) jobs ->
  In jk jobs ->
  In (toLowerCase (keywordOf jk)) (List.map uk_keyword (extractUserKeywords p)) ->
  analyzeCVKeywords p jobs = Throw TypeError.
Proof.
  intros Hs Hjk Hin.
  assert (Hm : matchesCandidate (extractUserKeywords p) jk = true).
  { unfold matchesCandidate. apply existsb_exists.
    apply in_map_iff in Hin. destruct Hin as (uk & He & Hin).
    exists uk. split; [exact Hin|]. apply bool_decide_eq_true.
    rewrite <- He.
    destruct (userKeywordSet_tidy p) as [_ Hl].
    unfold extractUserKeywords in Hin. apply in_map_iff in Hin.
    destruct Hin as (k & <- & Hk). simpl.
    rewrite List.Forall_forall in Hl. now apply Hl. }
  pose proof (analysis_outcome p jobs) as H. cbv zeta in H.
  destruct (analyzeCVKeywords p jobs) as [a|e].
  - exfalso. destruct H as [_ [He|Ho]].
    + now rewrite (no_match_no_candidate _ _ _ He Hjk) in Hm.
    + rewrite forallb_forall in Ho. specialize (Ho _ Hs). discriminate.
  - destruct H as [-> _]. reflexivity.
Qed.

Lemma analysis_throws_on_string_keyword_witness :
  analyzeCVKeywords
    (UserProfile None None (Some [SkillString "React"; SkillString "Docker"]) None None)
    [KwObject "AWS" (Q2Qc (9 # 10)) "technical"; KwString "react"]
  = Throw TypeError.
Proof.
  apply (analysis_throws_on_string_keyword _ _ "react" (KwString "react")).
  - right. left. reflexivity.
  - right. left. reflexivity.
  - vm_compute. left. reflexivity.
Defined.

(** The suggestions are the first five job keywords, in their order,
    that weigh more than 0.7 and equal no keyword of the profile up to
    case. *)
Lemma suggested_keywords (us : list userKeyword) (jobs : list jobKeyword) :
  List.map sg_keyword (generateSuggestions (findKeywordMatches us jobs) jobs)
  = List.map keywordOf
      (slice0 5 (List.filter (fun jk => highWeight jk && negb (matchesCandidate us jk))
                   jobs)).
Proof.
  unfold generateSuggestions. cbv zeta. rewrite List.map_map. cbn [sg_keyword].
  f_equal. f_equal. apply filter_ext_in. intros jk Hin. unfold highWeight. f_equal. f_equal.
  rewrite <- (some_match_iff us jobs jk Hin).
  apply eq_true_iff_eq. rewrite bool_decide_eq_true, existsb_exists.
  rewrite elem_of_list_to_set, list_elem_of_In, in_map_iff. split.
  - intros (m & He & Hm). exists m. split; [exact Hm|]. now apply bool_decide_eq_true.
  - intros (m & Hm & He). apply bool_decide_eq_true in He. eauto.
Qed.

(** X4.  [analyzeCVKeywords] suggests at most five keywords, all with
    the priority [high]: they are the first five job keywords, in the
    order of the job list, whose weight exceeds 0.7 and that equal no
    keyword of the profile up to case.  A keyword the profile already
    has and a keyword of weight 0.7 or less are never suggested. *)
Theorem suggestions_are_missing_high_weight (us : list userKeyword)
    (jobs : list jobKeyword) :
  let sgs := generateSuggestions (findKeywordMatches us jobs) jobs in
  length sgs <= 5
  /\ List.map sg_keyword sgs
     = List.map keywordOf
         (slice0 5 (List.filter (fun jk => highWeight jk && negb (matchesCandidate us jk))
                      jobs))
  /\ (forall s, In s sgs ->
        sg_type s = "add_keyword" /\ sg_priority s = "high"
        /\ exists jk, In jk jobs /\ sg_keyword s = keywordOf jk
             /\ (Q2Qc (7 # 10) < weightOf jk)%Qc /\ matchesCandidate us jk = false).
Proof.
  intros sgs. split; [|split].
  - rewrite <- (length_map sg_keyword). subst sgs. rewrite suggested_keywords.
    rewrite length_map. unfold slice0. rewrite length_firstn. lia.
  - apply suggested_keywords.
  - intros s Hs.
    assert (Hk : In (sg_keyword s) (List.map sg_keyword sgs)) by now apply in_map.
    subst sgs. unfold generateSuggestions in Hs. cbv zeta in Hs.
    apply in_map_iff in Hs. destruct Hs as (jk0 & <- & _). cbn [sg_type sg_priority sg_keyword].
    split; [reflexivity|]. split; [reflexivity|].
    rewrite suggested_keywords in Hk. apply in_map_iff in Hk.
    destruct Hk as (jk & He & Hjk). apply in_firstn_in in Hjk.
    apply filter_In in Hjk. destruct Hjk as (Hin & Hb).
    apply andb_true_iff in Hb. destruct Hb as [Hh Hn].
    exists jk. split; [exact Hin|]. split; [now rewrite He|]. split.
    + now apply bool_decide_eq_true in Hh.
    + now apply negb_true_iff in Hn.
Qed.

End Analysis.

(** ** The range of the match score *)

Section MatchScoreRange.
Import JS Effects KeywordService Profile KeywordAnalysis Spec Vocabulary.

Lemma sumQc_nonneg {A : Type} (f : A -> Qc) (l : list A) :
  (forall x, In x l -> (0 <= f x)%Qc) -> (0 <= sumQc f l)%Qc.
Proof.
  induction l as [|x l IH]; intros H; simpl.
  - apply Qcle_refl.
  - replace 0%Qc with (0 + 0)%Qc by ring.
    apply Qcplus_le_compat; [apply H; now left|]. apply IH. intros y Hy. apply H. now right.
Qed.

Lemma sumQc_filter_le {A : Type} (f : A -> Qc) (keep : A -> bool) (l : list A) :
  (forall x, In x l -> (0 <= f x)%Qc) -> (sumQc f (List.filter keep l) <= sumQc f l)%Qc.
Proof.
  induction l as [|x l IH]; intros H; simpl.
  - apply Qcle_refl.
  - assert (IH' : (sumQc f (List.filter keep l) <= sumQc f l)%Qc)
      by (apply IH; intros y Hy; apply H; now right).
    assert (Hx : (0 <= f x)%Qc) by (apply H; now left).
    destruct (keep x); simpl.
    + apply Qcplus_le_compat; [apply Qcle_refl|exact IH'].
    + replace (sumQc f (List.filter keep l)) with (0 + sumQc f (List.filter keep l))%Qc by ring.
      now apply Qcplus_le_compat.
Qed.

Lemma sumQc_positive {A : Type} (f : A -> Qc) (l : list A) (a : A) :
  (forall x, In x l -> (0 <= f x)%Qc) -> In a l -> (0 < f a)%Qc -> (0 < sumQc f l)%Qc.
Proof.
  induction l as [|x l IH]; intros H Ha Hpos; [contradiction|]. simpl.
  assert (Hl : (0 <= sumQc f l)%Qc) by (apply sumQc_nonneg; intros y Hy; apply H; now right).
  destruct Ha as [->|Ha].
  - apply Qclt_le_trans with (f a + 0)%Qc; [now replace (f a + 0)%Qc with (f a) by ring|].
    apply Qcplus_le_compat; [apply Qcle_refl|exact Hl].
  - apply Qclt_le_trans with (0 + sumQc f l)%Qc.
    + replace (0 + sumQc f l)%Qc with (sumQc f l) by ring.
      apply IH; [intros y Hy; apply H; now right|exact Ha|exact Hpos].
    + apply Qcplus_le_compat; [apply H; now left|apply Qcle_refl].
Qed.

(** [Math.round] keeps a value within integer bounds. *)
Lemma round_Qc_between (q : Qc) (lo hi : Z) :
  (Z2Qc lo <= q)%Qc -> (q <= Z2Qc hi)%Qc -> (lo <= round_Qc q <= hi)%Z.
Proof.
  intros Hlo Hhi. unfold round_Qc. split.
  - rewrite <- (Qfloor_Z lo). apply Qfloor_resp_le.
    assert (H : (Z2Qc lo <= q + Q2Qc (1 # 2))%Qc).
    { apply Qcle_trans with q; [exact Hlo|].
      rewrite <- (Qcplus_0_r q) at 1.
      apply Qcplus_le_compat; [apply Qcle_refl|discriminate]. }
    unfold Qcle in H. unfold Z2Qc in H. simpl in H. rewrite Qred_correct in H. exact H.
  - assert (H : (q + Q2Qc (1 # 2) <= Z2Qc hi + Q2Qc (1 # 2))%Qc).
    { apply Qcplus_le_compat; [exact Hhi|apply Qcle_refl]. }
    apply Qfloor_resp_le in H.
    etransitivity; [exact H|].
    assert (Hq : (this (Z2Qc hi + Q2Qc (1 # 2))%Qc == inject_Z hi + (1 # 2))%Q).
    { unfold Z2Qc. simpl. rewrite !Qred_correct. reflexivity. }
    rewrite Hq.
    apply Z.lt_succ_r. 
    assert (Hlt : (inject_Z (Qfloor (inject_Z hi + (1 # 2))) < inject_Z (hi + 1))%Q).
    { eapply Qle_lt_trans; [apply Qfloor_le|]. rewrite inject_Z_plus.
      apply Qplus_lt_r. reflexivity. }
    rewrite <- Zlt_Qlt in Hlt. lia.
Qed.

(** The value of the score for a job list whose total weight is not
    zero. *)
Lemma matchScore_value (us : list userKeyword) (jobs : list jobKeyword) :
  jobs <> [] -> sumQc weightOf jobs <> 0%Qc ->
  calculateMatchScore (findKeywordMatches us jobs) jobs =
    Fin (Z2Qc (round_Qc (sumQc weightOf (matchedJobKeywords us jobs)
                         / sumQc weightOf jobs * Z2Qc 100)%Qc)).
Proof.
  intros Hne Ht. unfold calculateMatchScore.
  rewrite decide_False by (destruct jobs; [congruence|simpl; lia]).
  rewrite matchedWeight_eq, (reduce_sumQc weightOf).
  replace (0 + sumQc weightOf jobs)%Qc with (sumQc weightOf jobs) by ring.
  unfold div. rewrite decide_False by exact Ht. reflexivity.
Qed.





(** X5.  For job keywords whose weights are not negative and not all
    zero, the match score is an integer between 0 and 100; it is 100
    when every job keyword equals a keyword of the candidate up to
    case, and 0 when none does. *)
Theorem matchScore_between_0_and_100 (us : list userKeyword) (jobs : list jobKeyword)
    (heavy : jobKeyword) :
  (forall jk, In jk jobs -> (0 <= weightOf jk)%Qc) ->
  In heavy jobs -> (0 < weightOf heavy)%Qc ->
  exists z : Z,
    calculateMatchScore (findKeywordMatches us jobs) jobs = Fin (Z2Qc z)
    /\ (0 <= z <= 100)%Z
    /\ ((forall jk, In jk jobs -> matchesCandidate us jk = true) -> z = 100%Z)
    /\ ((forall jk, In jk jobs -> matchesCandidate us jk = false) -> z = 0%Z).
Proof.
  intros Hw Hin Hpos.
  set (t := sumQc weightOf jobs). set (m := sumQc weightOf (matchedJobKeywords us jobs)).
  assert (Ht : (0 < t)%Qc) by (apply (sumQc_positive _ _ heavy); assumption).
  assert (Ht0 : t <> 0%Qc) by (intros E; rewrite E in Ht; discriminate).
  assert (Hm0 : (0 <= m)%Qc).
  { apply sumQc_nonneg. intros x Hx. apply filter_In in Hx. apply Hw, Hx. }
  assert (Hmt : (m <= t)%Qc) by (apply sumQc_filter_le; exact Hw).
  assert (Hq0 : (0 <= m / t)%Qc).
  { apply (Qcmult_lt_0_le_reg_r _ _ t Ht).
    replace (0 * t)%Qc with 0%Qc by ring.
    replace (m / t * t)%Qc with m by (field; exact Ht0). exact Hm0. }
  assert (Hq1 : (m / t <= 1)%Qc).
  { apply (Qcmult_lt_0_le_reg_r _ _ t Ht).
    replace (1 * t)%Qc with t by ring.
    replace (m / t * t)%Qc with m by (field; exact Ht0). exact Hmt. }
  exists (round_Qc (m / t * Z2Qc 100)%Qc).
  split; [apply matchScore_value; [destruct jobs; [contradiction|discriminate]|exact Ht0]|].
  split; [|split].
  - apply round_Qc_between.
    + change (Z2Qc 0) with 0%Qc. rewrite <- (Qcmult_0_l (Z2Qc 100)).
      apply Qcmult_le_compat_r; [exact Hq0|discriminate].
    + rewrite <- (Qcmult_1_l (Z2Qc 100)) at 2.
      apply Qcmult_le_compat_r; [exact Hq1|discriminate].
  - intros Hall.
    assert (He : matchedJobKeywords us jobs = jobs).
    { unfold matchedJobKeywords. apply forallb_filter_id. now apply forallb_forall. }
    subst m. rewrite He. fold t.
    replace (t / t * Z2Qc 100)%Qc with (Z2Qc 100) by (field; exact Ht0).
    vm_compute. reflexivity.
  - intros Hnone.
    assert (He : matchedJobKeywords us jobs = []).
    { unfold matchedJobKeywords. clear -Hnone. induction jobs as [|x l IH]; [reflexivity|].
      simpl. rewrite (Hnone x) by now left. apply IH. intros y Hy. apply Hnone. now right. }
    subst m. rewrite He. cbn [sumQc fold_right].
    replace (0 / t * Z2Qc 100)%Qc with 0%Qc by (field; exact Ht0).
    vm_compute. reflexivity.
Qed.

Lemma matchScore_between_0_and_100_witness :
  exists z : Z,
    calculateMatchScore
      (findKeywordMatches [UserKeyword "react" 1%Qc "user_profile"]
         [KwObject "React" (Q2Qc (9 # 10)) "technical"; KwString "AWS"])
      [KwObject "React" (Q2Qc (9 # 10)) "technical"; KwString "AWS"] = Fin (Z2Qc z)
    /\ (0 <= z <= 100)%Z.
Proof.
  destruct (matchScore_between_0_and_100 [UserKeyword "react" 1%Qc "user_profile"]
              [KwObject "React" (Q2Qc (9 # 10)) "technical"; KwString "AWS"]
              (KwString "AWS")) as (z & H1 & H2 & _).
  - intros jk [<-|[<-|[]]]; vm_compute; discriminate.
  - right. left. reflexivity.
  - vm_compute. reflexivity.
  - exists z. split; [exact H1|exact H2].
Defined.

End MatchScoreRange.

(** ** Extraction by patterns *)

Section PatternExtraction.
Import JS Effects KeywordService Profile KeywordAnalysis Spec Vocabulary.

(** What the [filter] of [deduplicateKeywords] returns, for any set of
    keys seen so far. *)
Lemma deduplicate_go_spec (ks : list basicKeyword) (seen : gset string) :
  let out := deduplicate_go seen ks in
  NoDup (List.map keyOf out)
  /\ (forall k, In k out -> keyOf k ∉ seen)
  /\ sublist out ks
  /\ (forall k, In k ks -> keyOf k ∈ seen \/ In (keyOf k) (List.map keyOf out))
  /\ (forall k, In k out ->
        List.find (fun k' => bool_decide (keyOf k' = keyOf k)) ks = Some k).
Proof.
  revert seen. induction ks as [|k ks IH]; intros seen; cbn [deduplicate_go]; cbv zeta.
  - split; [apply NoDup_nil_2|]. split; [intros ? []|]. split; [apply sublist_nil|].
    split; intros ? [].
  - fold (keyOf k). destruct (decide (keyOf k ∈ seen)) as [Hin|Hout].
    + destruct (IH seen) as (H1 & H2 & H3 & H4 & H5). cbv zeta in *.
      split; [exact H1|]. split; [exact H2|]. split; [now apply sublist_cons|]. split.
      * intros x [<-|Hx]; [now left|now apply H4].
      * intros x Hx. cbn [List.find].
        rewrite bool_decide_eq_false_2; [now apply H5|].
        intros E. apply (H2 x Hx). now rewrite <- E.
    + destruct (IH ({[keyOf k]} ∪ seen)) as (H1 & H2 & H3 & H4 & H5). cbv zeta in *.
      split; [|split; [|split; [|split]]].
      * cbn [List.map]. apply NoDup_cons. split; [|exact H1].
        rewrite list_elem_of_In, in_map_iff. intros (x & Hk & Hx).
        apply (H2 x Hx). rewrite Hk. apply elem_of_union_l, elem_of_singleton. reflexivity.
      * intros x [<-|Hx]; [exact Hout|]. intros Hin. apply (H2 x Hx).
        now apply elem_of_union_r.
      * now apply sublist_skip.
      * intros x [<-|Hx]; [right; now left|].
        destruct (H4 x Hx) as [Hs|Hs]; [|right; now right].
        apply elem_of_union in Hs. destruct Hs as [Hs|Hs]; [|now left].
        apply elem_of_singleton in Hs. right. left. now symmetry.
      * intros x [<-|Hx]; cbn [List.find].
        -- now rewrite bool_decide_eq_true_2.
        -- rewrite bool_decide_eq_false_2; [now apply H5|].
           intros E. apply (H2 x Hx). rewrite <- E.
           apply elem_of_union_l, elem_of_singleton. reflexivity.
Qed.

(** A list without two equal keys is left as it is. *)
Lemma deduplicate_go_fixed (ks : list basicKeyword) (seen : gset string) :
  NoDup (List.map keyOf ks) -> (forall k, In k ks -> keyOf k ∉ seen) ->
  deduplicate_go seen ks = ks.
Proof.
  revert seen. induction ks as [|k ks IH]; intros seen Hn Hs; [reflexivity|].
  cbn [deduplicate_go]. cbv zeta. fold (keyOf k).
  rewrite decide_False by (apply Hs; now left).
  cbn [List.map] in Hn. apply NoDup_cons in Hn. destruct Hn as [Hk Hn].
  f_equal. apply IH; [exact Hn|].
  intros x Hx Hin. apply elem_of_union in Hin. destruct Hin as [Hin|Hin].
  - apply elem_of_singleton in Hin. apply Hk. rewrite <- Hin.
    apply list_elem_of_In. now apply in_map.
  - now apply (Hs x (or_intror Hx)).
Qed.

(** X6.  [deduplicateKeywords] keeps, in their order, the first keyword
    of each lower-cased text and nothing else: its result has no two
    keywords equal up to case, is a sublist of its argument, has a
    keyword for every text of the argument, each being the first of
    the argument with that text up to case; applied again it changes
    nothing. *)
Theorem deduplicate_keeps_first_occurrences (ks : list basicKeyword) :
  let out := deduplicateKeywords ks in
  NoDup (List.map keyOf out)
  /\ sublist out ks
  /\ (forall k, In k ks -> In (keyOf k) (List.map keyOf out))
  /\ (forall k, In k out ->
        List.find (fun k' => bool_decide (keyOf k' = keyOf k)) ks = Some k)
  /\ deduplicateKeywords out = out.
Proof.
  destruct (deduplicate_go_spec ks ∅) as (H1 & H2 & H3 & H4 & H5). cbv zeta in *.
  unfold deduplicateKeywords.
  split; [exact H1|]. split; [exact H3|]. split; [|split; [exact H5|]].
  - intros k Hk. destruct (H4 k Hk) as [Hs|Hs]; [|exact Hs].
    now apply not_elem_of_empty in Hs.
  - apply deduplicate_go_fixed; [exact H1|]. intros k _. apply not_elem_of_empty.
Qed.

Lemma prefix_contains (sub s : string) : String.prefix sub s = true -> contains sub s = true.
Proof. destruct s; simpl; intros H; [exact H|]. now rewrite H. Qed.

Lemma contains_cons (sub : string) (c : ascii) (s : string) :
  contains sub s = true -> contains sub (String c s) = true.
Proof. intros H. cbn [contains]. rewrite H. apply orb_true_r. Qed.

Lemma readLiteral_prefix (alt s : string) (last : option ascii) (r : string * option ascii) :
  readLiteral alt s last = Some r -> String.prefix alt s = true.
Proof.
  revert s last. induction alt as [|a alt IH]; intros s last H.
  - now destruct s.
  - destruct s as [|c s]; [discriminate|]. cbn [readLiteral] in H.
    destruct (Ascii.eqb a c) eqn:E; [|discriminate].
    apply Ascii.eqb_eq in E. subst c. cbn [String.prefix].
    destruct (ascii_dec a a); [|congruence]. eapply IH, H.
Qed.

(** Every match of a pattern is one of its alternatives and occurs in
    the text. *)
Lemma matchAll_go_spec (alts : list string) (s : string) (skip : nat)
    (prev : option ascii) (m : string) :
  In m (matchAll_go alts skip prev s) -> In m alts /\ contains m s = true.
Proof.
  revert skip prev. induction s as [|c s IH]; intros skip prev H; [contradiction|].
  cbn [matchAll_go] in H. destruct skip as [|k].
  - destruct (matchAlternatives alts prev (String c s)) as [m'|] eqn:E.
    + destruct H as [<-|H].
      * unfold matchAlternatives in E.
        destruct (wordBoundary prev (headOf (String c s))); [|discriminate].
        apply find_some in E. destruct E as [Hin Hr]. split; [exact Hin|].
        destruct (readLiteral m' (String c s) prev) as [r|] eqn:Er; [|discriminate].
        apply prefix_contains. eapply readLiteral_prefix, Er.
      * destruct (IH _ _ H) as [H1 H2]. split; [exact H1|now apply contains_cons].
    + destruct (IH _ _ H) as [H1 H2]. split; [exact H1|now apply contains_cons].
  - destruct (IH _ _ H) as [H1 H2]. split; [exact H1|now apply contains_cons].
Qed.

(** The keywords pushed by [basicKeywordExtraction]: each is a word of
    the vocabulary for its kind, with the weight of the kind, and
    occurs in the lower-cased text. *)
Lemma candidateKeywords_spec (text : string) (k : basicKeyword) :
  In k (candidateKeywords text) ->
  contains (bk_keyword k) (toLowerCase text) = true
  /\ ((exists category pattern, In (category, pattern) techPatterns
         /\ In (bk_keyword k) pattern
         /\ k = BasicKeyword (bk_keyword k) (Q2Qc (8 # 10)) "technical" (Some category))
      \/ (In (bk_keyword k) softSkills
          /\ k = BasicKeyword (bk_keyword k) (Q2Qc (6 # 10)) "soft" None)
      \/ (In (bk_keyword k) actionVerbs
          /\ k = BasicKeyword (bk_keyword k) (Q2Qc (5 # 10)) "action" None)).
Proof.
  unfold candidateKeywords. cbv zeta. rewrite !in_app_iff. intros [H|[H|H]].
  - apply in_flat_map in H. destruct H as ([category pattern] & Hp & H).
    apply in_map_iff in H. destruct H as (m & <- & Hm).
    apply matchAll_go_spec in Hm. destruct Hm as [Hin Hc]. cbn [bk_keyword].
    split; [exact Hc|]. left. exists category, pattern. auto.
  - apply in_map_iff in H. destruct H as (m & <- & Hm).
    apply filter_In in Hm. destruct Hm as [Hin Hc]. cbn [bk_keyword].
    split; [exact Hc|]. right. left. auto.
  - apply in_map_iff in H. destruct H as (m & <- & Hm).
    apply filter_In in Hm. destruct Hm as [Hin Hc]. cbn [bk_keyword].
    split; [exact Hc|]. right. right. auto.
Qed.

(** The words of the three vocabularies are in lower case. *)
Lemma vocabulary_lowercase (k : string) :
  (exists category pattern, In (category, pattern) techPatterns /\ In k pattern)
  \/ In k softSkills \/ In k actionVerbs ->
  toLowerCase k = k.
Proof.
  intros [(category & pattern & Hp & Hk)|[Hk|Hk]].
  - unfold techPatterns in Hp. cbn [In] in Hp.
    repeat (destruct Hp as [Hp|Hp];
            [inversion Hp; subst; cbn [In] in Hk;
             repeat (destruct Hk as [<-|Hk]; [reflexivity|]); contradiction|]).
    contradiction.
  - unfold softSkills in Hk. cbn [In] in Hk.
    repeat (destruct Hk as [<-|Hk]; [reflexivity|]). contradiction.
  - unfold actionVerbs in Hk. cbn [In] in Hk.
    repeat (destruct Hk as [<-|Hk]; [reflexivity|]). contradiction.
Qed.

(** A keyword of [basicKeywordExtraction] was pushed by it. *)
Lemma basic_keyword_pushed (text : string) (k : basicKeyword) :
  In k (basicKeywordExtraction text) -> In k (candidateKeywords text).
Proof.
  intros Hk.
  destruct (deduplicate_go_spec (candidateKeywords text) ∅) as (_ & _ & H3 & _).
  cbv zeta in H3. apply list_elem_of_In. eapply elem_of_sublist; [|exact H3].
  now apply list_elem_of_In.
Qed.

Lemma basic_keyword_facts (text : string) (k : basicKeyword) :
  In k (basicKeywordExtraction text) ->
  toLowerCase (bk_keyword k) = bk_keyword k
  /\ contains (bk_keyword k) (toLowerCase text) = true
  /\ ((bk_weight k = Q2Qc (8 # 10) /\ bk_category k = "technical"
       /\ exists category pattern, In (category, pattern) techPatterns
            /\ In (bk_keyword k) pattern /\ bk_subcategory k = Some category)
      \/ (bk_weight k = Q2Qc (6 # 10) /\ bk_category k = "soft"
          /\ In (bk_keyword k) softSkills)
      \/ (bk_weight k = Q2Qc (5 # 10) /\ bk_category k = "action"
          /\ In (bk_keyword k) actionVerbs))
  /\ bk_weight k <> 0%Qc.
Proof.
  intros Hk. apply basic_keyword_pushed in Hk.
  destruct (candidateKeywords_spec text k Hk) as [Hocc Hkind].
  split; [|split; [exact Hocc|]].
  - apply vocabulary_lowercase.
    destruct Hkind as [(c & pt & Hp & Hi & _)|[[Hi _]|[Hi _]]]; eauto.
  - destruct Hkind as [(c & pt & Hp & Hi & E)|[[Hi E]|[Hi E]]]; rewrite E; cbn.
    + split; [|discriminate]. left. split; [reflexivity|]. split; [reflexivity|].
      exists c, pt. split; [exact Hp|]. split; [exact Hi|reflexivity].
    + split; [|discriminate]. right. left. split; [reflexivity|]. split; [reflexivity|].
      exact Hi.
    + split; [|discriminate]. right. right. split; [reflexivity|].
      split; [reflexivity|]. exact Hi.
Qed.

(** X7.  Whatever the text, the keywords of [basicKeywordExtraction]
    are pairwise different, in lower case and each occurs in the
    lower-cased text; a keyword found by a pattern has weight 0.8 and
    the category [technical], a soft skill 0.6 and [soft], an action
    verb 0.5 and [action], so no weight is zero.  An empty text gives
    no keyword. *)
Theorem basic_extraction_sound (text : string) :
  let out := basicKeywordExtraction text in
  NoDup (List.map bk_keyword out)
  /\ (forall k, In k out ->
        toLowerCase (bk_keyword k) = bk_keyword k
        /\ contains (bk_keyword k) (toLowerCase text) = true
        /\ ((bk_weight k = Q2Qc (8 # 10) /\ bk_category k = "technical"
             /\ exists category pattern, In (category, pattern) techPatterns
                  /\ In (bk_keyword k) pattern /\ bk_subcategory k = Some category)
            \/ (bk_weight k = Q2Qc (6 # 10) /\ bk_category k = "soft"
                /\ In (bk_keyword k) softSkills)
            \/ (bk_weight k = Q2Qc (5 # 10) /\ bk_category k = "action"
                /\ In (bk_keyword k) actionVerbs))
        /\ bk_weight k <> 0%Qc)
  /\ (text = EmptyString -> out = []).
Proof.
  intros out.
  destruct (deduplicate_go_spec (candidateKeywords text) ∅) as (H1 & _).
  cbv zeta in H1. fold (deduplicateKeywords (candidateKeywords text)) in H1.
  fold (basicKeywordExtraction text) in H1. fold out in H1.
  split; [|split; [exact (basic_keyword_facts text)|]].
  - replace (List.map bk_keyword out) with (List.map keyOf out); [exact H1|].
    apply map_ext_in. intros k Hk. unfold keyOf. apply (basic_keyword_facts text k Hk).
  - intros ->. reflexivity.
Qed.

Lemma readLiteral_rest (alt s : string) (last : option ascii) (rest : string)
    (l : option ascii) :
  readLiteral alt s last = Some (rest, l) ->
  rest = drop_chars (String.length alt) s /\ l = lastChar alt last.
Proof.
  revert s last. induction alt as [|a alt IH]; intros s last H.
  - cbn [readLiteral] in H. inversion H. now destruct s.
  - destruct s as [|c s]; [discriminate|]. cbn [readLiteral] in H.
    destruct (Ascii.eqb a c) eqn:E; [|discriminate].
    apply Ascii.eqb_eq in E. subst c. cbn [String.length drop_chars lastChar].
    now apply IH.
Qed.

(** A match that ends with a character outside the word class stands
    directly before a word character: the pattern ends with [\b]. *)
Lemma matchAll_go_before_word (alts : list string) (s : string) (skip : nat)
    (prev : option ascii) (m : string) :
  isWordOpt (lastChar m None) = false -> m <> EmptyString ->
  In m (matchAll_go alts skip prev s) -> occursBeforeWord m s = true.
Proof.
  intros Hlast Hne. revert skip prev. induction s as [|c s IH]; intros skip prev H;
    [contradiction|].
  cbn [matchAll_go] in H. cbn [occursBeforeWord]. destruct skip as [|k].
  - destruct (matchAlternatives alts prev (String c s)) as [m'|] eqn:E.
    + destruct H as [<-|H]; [|rewrite (IH _ _ H); apply orb_true_r].
      unfold matchAlternatives in E.
      destruct (wordBoundary prev (headOf (String c s))); [|discriminate].
      apply find_some in E. destruct E as [_ Hr].
      destruct (readLiteral m' (String c s) prev) as [[rest l]|] eqn:Er; [|discriminate].
      rewrite (readLiteral_prefix _ _ _ _ Er).
      destruct (readLiteral_rest _ _ _ _ _ Er) as [-> ->].
      assert (Hl : lastChar m' prev = lastChar m' None).
      { destruct m' as [|a m']; [congruence|reflexivity]. }
      rewrite Hl in Hr. unfold wordBoundary in Hr. rewrite Hlast in Hr.
      cbn [xorb] in Hr. rewrite Hr. reflexivity.
    + rewrite (IH _ _ H). apply orb_true_r.
  - rewrite (IH _ _ H). apply orb_true_r.
Qed.

(** X9.  [basicKeywordExtraction] finds [c++] and [c#] only where the
    lower-cased text has them directly before a letter, a digit or an
    underscore: the word boundary that closes the pattern does not
    hold between [+] or [#] and a space, a punctuation mark or the end
    of the text. *)
Theorem symbol_names_need_a_word_character_after (text kw : string) :
  kw = "c++" \/ kw = "c#" ->
  In kw (List.map bk_keyword (basicKeywordExtraction text)) ->
  occursBeforeWord kw (toLowerCase text) = true.
Proof.
  intros Hkw Hin. apply in_map_iff in Hin. destruct Hin as (k & Hk & Hin).
  pose proof (basic_keyword_pushed text k Hin) as Hc.
  unfold candidateKeywords in Hc. cbv zeta in Hc. rewrite !in_app_iff in Hc.
  destruct Hc as [Hc|[Hc|Hc]].
  - apply in_flat_map in Hc. destruct Hc as ([category pattern] & Hp & Hm).
    apply in_map_iff in Hm. destruct Hm as (m & <- & Hm). cbn [bk_keyword] in Hk. subst m.
    apply (matchAll_go_before_word pattern _ 0 None); [| |exact Hm].
    + destruct Hkw as [-> | ->]; reflexivity.
    + destruct Hkw as [-> | ->]; discriminate.
  - exfalso. apply in_map_iff in Hc. destruct Hc as (m & <- & Hm).
    apply filter_In in Hm. destruct Hm as [Hm _]. cbn [bk_keyword] in Hk. subst m.
    unfold softSkills in Hm. cbn [In] in Hm.
    destruct Hkw as [-> | ->];
      repeat (destruct Hm as [Hm|Hm]; [discriminate|]); contradiction.
  - exfalso. apply in_map_iff in Hc. destruct Hc as (m & <- & Hm).
    apply filter_In in Hm. destruct Hm as [Hm _]. cbn [bk_keyword] in Hk. subst m.
    unfold actionVerbs in Hm. cbn [In] in Hm.
    destruct Hkw as [-> | ->];
      repeat (destruct Hm as [Hm|Hm]; [discriminate|]); contradiction.
Qed.

Lemma symbol_names_need_a_word_character_after_witness :
  occursBeforeWord "c++" (toLowerCase "Modern C++17 and React") = true.
Proof.
  apply symbol_names_need_a_word_character_after.
  - left. reflexivity.
  - vm_compute. left. reflexivity.
Defined.

(** In a posting that names the language before a space, the pattern
    does not find it. *)
Example cplusplus_before_a_space_is_missed :
  List.map bk_keyword (basicKeywordExtraction "Senior C++ developer, C# a plus")
  = [].
Proof. vm_compute. reflexivity. Qed.

End PatternExtraction.

(** ** Merging the keywords of the two extractions *)

Section Merging.
Import JS Effects KeywordService Profile KeywordAnalysis Spec Vocabulary.

Lemma mapHas_iff (key : string) (entries : list (string * merged)) :
  mapHas key entries = true <-> In key (List.map fst entries).
Proof.
  unfold mapHas. rewrite existsb_exists, in_map_iff. split.
  - intros (e & He & Hb). apply bool_decide_eq_true in Hb. eauto.
  - intros (e & Hb & He). exists e. split; [exact He|]. now apply bool_decide_eq_true.
Qed.

Lemma mapSet_keys (key : string) (value : merged) (entries : list (string * merged)) :
  List.map fst (mapSet key value entries)
  = if mapHas key entries then List.map fst entries else List.map fst entries ++ [key].
Proof.
  induction entries as [|[k v] rest IH]; [reflexivity|].
  cbn [mapSet]. unfold mapHas in *. cbn [existsb fst].
  destruct (decide (k = key)) as [->|Hne].
  - rewrite bool_decide_eq_true_2 by reflexivity. reflexivity.
  - rewrite bool_decide_eq_false_2 by exact Hne. cbn [orb List.map fst]. rewrite IH.
    now destruct (existsb _ rest).
Qed.

Lemma in_mapSet (key : string) (value : merged) (entries : list (string * merged))
    (k : string) (v : merged) :
  In (k, v) (mapSet key value entries) -> (k = key /\ v = value) \/ In (k, v) entries.
Proof.
  induction entries as [|[k0 v0] rest IH]; cbn [mapSet].
  - intros [E|[]]. inversion E. now left.
  - destruct (decide (k0 = key)) as [->|Hne].
    + intros [E|H]; [inversion E; now left|right; now right].
    + intros [E|H]; [right; now left|].
      destruct (IH H) as [?|?]; [now left|right; now right].
Qed.

Lemma pushBasic_keys (key : string) (entries : list (string * merged)) :
  List.map fst (pushBasic key entries) = List.map fst entries.
Proof.
  induction entries as [|[k v] rest IH]; [reflexivity|].
  cbn [pushBasic]. destruct (decide (k = key)); cbn [List.map fst]; [reflexivity|].
  now rewrite IH.
Qed.

Lemma in_pushBasic (key : string) (entries : list (string * merged))
    (k : string) (v : merged) :
  In (k, v) (pushBasic key entries) ->
  In (k, v) entries
  \/ exists v0, In (k, v0) entries /\ v = Merged (mg_keyword v0) (sources v0 ++ [Basic]).
Proof.
  induction entries as [|[k0 v0] rest IH]; cbn [pushBasic]; [intros []|].
  destruct (decide (k0 = key)) as [->|Hne].
  - intros [E|H]; [|left; now right]. inversion E; subst. right. exists v0.
    split; [now left|reflexivity].
  - intros [E|H]; [left; now left|].
    destruct (IH H) as [?|(v1 & H1 & H2)]; [left; now right|].
    right. exists v1. split; [now right|exact H2].
Qed.

(** The first loop: the keywords of the service. *)
Lemma merge_service_pass (cs bs l : list extracted) (entries : list (string * merged)) :
  (forall c, In c l -> In c cs) ->
  mergeInvariant cs bs entries ->
  let entries' :=
    fold_left (fun keywordMap ck =>
      mapSet (toLowerCase (kw_text ck)) (Merged ck [Claude]) keywordMap) l entries in
  mergeInvariant cs bs entries'
  /\ (forall k, In k (List.map fst entries) \/ In k (List.map mergeKey l) ->
        In k (List.map fst entries')).
Proof.
  revert entries. induction l as [|c l IH]; intros entries Hl Hinv; cbn [fold_left].
  - split; [exact Hinv|]. intros k [H|[]]. exact H.
  - assert (Hstep : mergeInvariant cs bs
                      (mapSet (toLowerCase (kw_text c)) (Merged c [Claude]) entries)).
    { destruct Hinv as [Hn Hk]. split.
      - rewrite mapSet_keys. destruct (mapHas _ entries) eqn:Hh; [exact Hn|].
        apply NoDup_app. split; [exact Hn|]. split; [|apply NoDup_singleton].
        intros x Hx Hx'. apply list_elem_of_singleton in Hx'. subst x.
        apply list_elem_of_In, mapHas_iff in Hx. congruence.
      - intros k v Hin. apply in_mapSet in Hin. destruct Hin as [[-> ->]|Hin].
        + split; [reflexivity|]. left. cbn. split; [now left|]. apply Hl. now left.
        + now apply Hk. }
    destruct (IH _ (fun x Hx => Hl x (or_intror Hx)) Hstep) as [H1 H2].
    split; [exact H1|]. intros k Hk. apply H2.
    rewrite mapSet_keys. cbn [List.map] in Hk.
    destruct (mapHas (toLowerCase (kw_text c)) entries) eqn:Hh.
    + destruct Hk as [Hk|[<-|Hk]]; [now left| left; now apply mapHas_iff |now right].
    + rewrite in_app_iff. cbn [In].
      destruct Hk as [Hk|[<-|Hk]]; [left; now left|left; right; now left|now right].
Qed.

(** The second loop: the keywords of the patterns. *)
Lemma merge_pattern_pass (cs bs l : list extracted) (entries : list (string * merged)) :
  (forall b, In b l -> In b bs) ->
  mergeInvariant cs bs entries ->
  (forall c, In c cs -> In (mergeKey c) (List.map fst entries)) ->
  let entries' :=
    fold_left (fun keywordMap bk =>
      if mapHas (toLowerCase (kw_text bk)) keywordMap
      then pushBasic (toLowerCase (kw_text bk)) keywordMap
      else mapSet (toLowerCase (kw_text bk)) (Merged bk [Basic]) keywordMap) l entries in
  mergeInvariant cs bs entries'
  /\ (forall k, In k (List.map fst entries) \/ In k (List.map mergeKey l) ->
        In k (List.map fst entries')).
Proof.
  revert entries. induction l as [|b l IH]; intros entries Hl Hinv Hcov; cbn [fold_left].
  - split; [exact Hinv|]. intros k [H|[]]. exact H.
  - set (key := toLowerCase (kw_text b)).
    set (next := if mapHas key entries then pushBasic key entries
                 else mapSet key (Merged b [Basic]) entries).
    assert (Hkeys : forall k, In k (List.map fst entries) \/ k = key <->
                              In k (List.map fst next)).
    { intros k. subst next. destruct (mapHas key entries) eqn:Hh.
      - rewrite pushBasic_keys. apply mapHas_iff in Hh. split; [|now left].
        intros [H| ->]; assumption.
      - rewrite mapSet_keys, Hh, in_app_iff. cbn [In]. split.
        + intros [H| ->]; [now left|right; now left].
        + intros [H|[<-|[]]]; [now left|now right]. }
    assert (Hstep : mergeInvariant cs bs next).
    { destruct Hinv as [Hn Hk]. subst next. destruct (mapHas key entries) eqn:Hh; split.
      - now rewrite pushBasic_keys.
      - intros k v Hin. apply in_pushBasic in Hin.
        destruct Hin as [Hin|(v0 & Hin & ->)]; [now apply Hk|].
        destruct (Hk k v0 Hin) as [Hkey Hsrc]. cbn [mg_keyword sources].
        split; [exact Hkey|]. rewrite in_app_iff. cbn [In].
        destruct Hsrc as [[Hc Hm]|(Hc & Hm & Hnot)].
        + left. split; [now left|exact Hm].
        + right. split; [|split; [exact Hm|exact Hnot]].
          intros [H|[H|[]]]; [now apply Hc|discriminate].
      - rewrite mapSet_keys, Hh.
        apply NoDup_app. split; [exact Hn|]. split; [|apply NoDup_singleton].
        intros x Hx Hx'. apply list_elem_of_singleton in Hx'. subst x.
        apply list_elem_of_In, mapHas_iff in Hx. congruence.
      - intros k v Hin. apply in_mapSet in Hin. destruct Hin as [[-> ->]|Hin].
        + split; [reflexivity|]. right. cbn [mg_keyword sources]. split; [|split].
          * intros [H|[]]. discriminate.
          * apply Hl. now left.
          * intros Hc. apply in_map_iff in Hc. destruct Hc as (c & Hc1 & Hc2).
            specialize (Hcov c Hc2). rewrite Hc1 in Hcov.
            apply mapHas_iff in Hcov. congruence.
        + now apply Hk. }
    destruct (IH next (fun x Hx => Hl x (or_intror Hx)) Hstep) as [H1 H2].
    + intros c Hc. apply Hkeys. left. now apply Hcov.
    + split; [exact H1|]. intros k Hk. apply H2. cbn [List.map] in Hk.
      destruct Hk as [Hk|[<-|Hk]].
      * left. apply Hkeys. now left.
      * left. apply Hkeys. now right.
      * now right.
Qed.

(** The entries of the [Map] when both loops are done. *)
Lemma mergeKeywords_entries (cs bs : list extracted) :
  exists entries,
    mergeKeywords cs bs = List.map snd entries
    /\ mergeInvariant cs bs entries
    /\ (forall k, In k cs \/ In k bs -> In (mergeKey k) (List.map fst entries)).
Proof.
  unfold mergeKeywords. cbv zeta.
  assert (H0 : mergeInvariant cs bs []).
  { split; [apply NoDup_nil_2|]. intros k v []. }
  destruct (merge_service_pass cs bs cs [] (fun _ H => H) H0) as [H1 H1'].
  cbv zeta in H1, H1'.
  set (first := fold_left (fun keywordMap ck =>
                  mapSet (toLowerCase (kw_text ck)) (Merged ck [Claude]) keywordMap)
                  cs []) in *.
  destruct (merge_pattern_pass cs bs bs first (fun _ H => H) H1) as [H2 H2'].
  { intros c Hc. apply H1'. right. now apply in_map. }
  cbv zeta in H2, H2'.
  set (final := fold_left _ bs first) in *.
  exists final. split; [reflexivity|]. split; [exact H2|].
  intros k Hin. apply H2'. destruct Hin as [Hin|Hin].
  - left. apply H1'. right. now apply in_map.
  - right. now apply in_map.
Qed.

(** Every entry holds a keyword of one of the two lists. *)
Lemma merged_keyword_origin (cs bs : list extracted) (m : merged) :
  In m (mergeKeywords cs bs) -> In (mg_keyword m) cs \/ In (mg_keyword m) bs.
Proof.
  destruct (mergeKeywords_entries cs bs) as (entries & -> & [_ Hk] & _).
  intros Hm. apply in_map_iff in Hm. destruct Hm as ([k v] & <- & Hin). cbn [snd].
  destruct (Hk k v Hin) as [_ [[_ H]|(_ & H & _)]]; [now left|now right].
Qed.

(** X8.  [mergeKeywords] returns one entry for each lower-cased text
    among its two arguments.  An entry whose text some keyword of the
    service has, up to case, holds a keyword of the service (its
    weight and category, not those of the patterns) and names the
    source [Claude]; any other entry holds a keyword of the patterns
    and does not name that source. *)
Theorem merge_prefers_service_keywords (cs bs : list extracted) :
  let ms := mergeKeywords cs bs in
  NoDup (keysOf ms)
  /\ (forall k, In k cs \/ In k bs -> In (mergeKey k) (keysOf ms))
  /\ (forall m, In m ms ->
        (In (mergeKey (mg_keyword m)) (List.map mergeKey cs) ->
           In Claude (sources m) /\ In (mg_keyword m) cs)
        /\ (~ In (mergeKey (mg_keyword m)) (List.map mergeKey cs) ->
              ~ In Claude (sources m) /\ In (mg_keyword m) bs)).
Proof.
  intros ms. subst ms.
  destruct (mergeKeywords_entries cs bs) as (final & -> & [Hn Hk] & Hcov).
  assert (Hkeys : keysOf (List.map snd final) = List.map fst final).
  { unfold keysOf. rewrite List.map_map. apply map_ext_in. intros [k v] Hin.
    cbn [fst snd]. symmetry. apply (Hk k v Hin). }
  split; [now rewrite Hkeys|]. split.
  - intros k Hin. rewrite Hkeys. now apply Hcov.
  - intros m Hm. apply in_map_iff in Hm. destruct Hm as ([k v] & <- & Hin).
    cbn [snd]. destruct (Hk k v Hin) as [Hkey [[Hc Hs]|(Hc & Hs & Hnot)]].
    + split; [intros _; now split|]. intros Hnot. exfalso. apply Hnot. now apply in_map.
    + split; [|intros _; now split]. intros Hyes. rewrite <- Hkey in Hyes. contradiction.
Qed.

End Merging.

(** ** Suggestions by industry and grouping by category *)

Section IndustryAndCategories.
Import JS Effects KeywordService Profile KeywordAnalysis Spec Vocabulary.


(** The groups built from a list of keywords, for any groups to start
    from. *)
Lemma categorize_go_spec {A : Type} (categoryOf : A -> string) (ks : list A)
    (start : gmap string (list A)) :
  let named k := orElse (Some (categoryOf k)) "general" in
  match categorize_go categoryOf start ks with
  | Ok groups =>
      (forall c, default [] (groups !! c)
                 = default [] (start !! c)
                   ++ List.filter (fun k => bool_decide (named k = c)) ks)
      /\ (forall c, groups !! c = None <->
                    start !! c = None /\ forall k, In k ks -> named k <> c)
      /\ (forall k, In k ks -> ~ In (named k) inheritedNames)
  | Throw e => e = TypeError /\ exists k, In k ks /\ In (named k) inheritedNames
  end.
Proof.
  intros named. revert start. induction ks as [|k ks IH]; intros start.
  - cbn [categorize_go]. split; [|split].
    + intros c. cbn [List.filter]. now rewrite app_nil_r.
    + intros c. split; [intros H; split; [exact H|intros ? []]|intros [H _]; exact H].
    + intros ? [].
  - cbn [categorize_go]. cbv zeta. fold (named k).
    case_bool_decide as Hin.
    + split; [reflexivity|]. exists k. split; [now left|now apply list_elem_of_In].
    + specialize (IH (<[named k := default [] (start !! named k) ++ [k]]> start)).
      destruct (categorize_go categoryOf _ ks) as [groups|e].
      * destruct IH as (H1 & H2 & H3). split; [|split].
        -- intros c. rewrite H1. cbn [List.filter].
           destruct (decide (named k = c)) as [<-|Hne].
           ++ rewrite lookup_insert_eq, bool_decide_eq_true_2 by reflexivity.
              cbn [default from_option id]. now rewrite <- app_assoc.
           ++ rewrite lookup_insert_ne by exact Hne.
              now rewrite bool_decide_eq_false_2 by exact Hne.
        -- intros c. rewrite H2.
           destruct (decide (named k = c)) as [<-|Hne].
           ++ rewrite lookup_insert_eq. split; [intros [? _]; discriminate|].
              intros [_ H]. exfalso. apply (H k); [now left|reflexivity].
           ++ rewrite lookup_insert_ne by exact Hne. split.
              ** intros [Hs Hk]. split; [exact Hs|]. intros x [<-|Hx]; [exact Hne|now apply Hk].
              ** intros [Hs Hk]. split; [exact Hs|]. intros x Hx. apply Hk. now right.
        -- intros x [<-|Hx]; [|now apply H3]. intros Hx. apply Hin.
           now apply list_elem_of_In.
      * destruct IH as (-> & x & Hx & Hi). split; [reflexivity|].
        exists x. split; [now right|exact Hi].
Qed.

(** X11.  [categorizeKeywords] files every keyword under its category,
    or under [general] when its category is empty.  When it returns,
    the group of a category holds the keywords of that category in
    their order, so every keyword is in one group and no group is
    empty.  It throws a [TypeError] exactly when some category is a
    name that every object inherits, such as [constructor] or
    [toString]. *)
Theorem categories_partition_keywords {A : Type} (categoryOf : A -> string)
    (ks : list A) :
  let named k := orElse (Some (categoryOf k)) "general" in
  match categorizeKeywords categoryOf ks with
  | Ok groups =>
      (forall c, default [] (groups !! c)
                 = List.filter (fun k => bool_decide (named k = c)) ks)
      /\ (forall c, groups !! c = None <-> forall k, In k ks -> named k <> c)
      /\ (forall c group, groups !! c = Some group -> group <> [])
      /\ (forall k, In k ks -> ~ In (named k) inheritedNames)
  | Throw e => e = TypeError /\ exists k, In k ks /\ In (named k) inheritedNames
  end.
Proof.
  intros named. unfold categorizeKeywords.
  pose proof (categorize_go_spec categoryOf ks ∅) as H. cbv zeta in H. fold named in H.
  destruct (categorize_go categoryOf ∅ ks) as [groups|e]; [|exact H].
  destruct H as (H1 & H2 & H3). split; [|split; [|split; [|exact H3]]].
  - intros c. rewrite H1, lookup_empty. reflexivity.
  - intros c. rewrite H2, lookup_empty. split; [intros [_ H]; exact H|now split].
  - intros c group Hg ->. specialize (H1 c). rewrite Hg, lookup_empty in H1.
    cbn [default from_option id app] in H1.
    assert (Hnone : groups !! c = None).
    { apply H2. split; [apply lookup_empty|]. intros k Hk E.
      assert (Hin : In k (List.filter (fun k => bool_decide (named k = c)) ks)).
      { apply filter_In. split; [exact Hk|]. now apply bool_decide_eq_true. }
      rewrite <- H1 in Hin. contradiction. }
    congruence.
Qed.

End IndustryAndCategories.

(** ** The keywords of the service and their fallback *)

Section ServiceKeywords.
Import JS Effects KeywordService Profile KeywordAnalysis ClaudeKeywords Spec Vocabulary.



(** The terms of the two lists are words in lower case, without a
    character that has a meaning in a regular expression. *)
Lemma term_facts (term : string) :
  In term (commonTechTerms ++ generalTerms) ->
  literal term = true /\ term <> EmptyString
  /\ allChars is_word term = true /\ toLowerCase term = term.
Proof.
  intros Hterm. unfold commonTechTerms, generalTerms in Hterm. cbn [app In] in Hterm.
  repeat (destruct Hterm as [<-|Hterm];
          [split; [reflexivity|split; [discriminate|split; reflexivity]]|]).
  contradiction.
Qed.




(** The terms of a list that are among the words, each made a
    keyword. *)
Lemma in_found_terms (ws terms : list string) (weight : Qc) (category : string)
    (k : extracted) :
  In k (List.map (fun term => Extracted term weight category)
          (List.filter (fun term => bool_decide (term ∈ ws)) terms)) ->
  In (kw_text k) ws /\ In (kw_text k) terms /\ kw_weight k = weight
  /\ kw_category k = category.
Proof.
  intros Hk. apply in_map_iff in Hk. destruct Hk as (term & <- & Ht).
  apply filter_In in Ht. destruct Ht as [Ht Hb].
  apply bool_decide_eq_true, list_elem_of_In in Hb. auto.
Qed.

Lemma fallback_unfold (text : string) :
  fallbackKeywordExtraction text =
  firstn 10
    (List.map (fun term => Extracted term (Q2Qc (8 # 10)) "technical")
       (List.filter (fun term => bool_decide (term ∈ words (toLowerCase text)))
          commonTechTerms)
     ++ List.map (fun term => Extracted term (Q2Qc (6 # 10)) "general")
          (List.filter (fun term => bool_decide (term ∈ words (toLowerCase text)))
             generalTerms)).
Proof. reflexivity. Qed.

(** The two kinds of keywords that [fallbackKeywordExtraction]
    returns. *)
Lemma fallback_keywords_parts (text : string) (k : extracted) :
  In k (fallbackKeywordExtraction text) ->
  In (kw_text k) (words (toLowerCase text))
  /\ ((In (kw_text k) commonTechTerms /\ kw_weight k = Q2Qc (8 # 10)
       /\ kw_category k = "technical")
      \/ (In (kw_text k) generalTerms /\ kw_weight k = Q2Qc (6 # 10)
          /\ kw_category k = "general")).
Proof.
  intros Hk. rewrite fallback_unfold in Hk. apply in_firstn_in in Hk.
  apply in_app_iff in Hk.
  destruct Hk as [Hk|Hk]; apply in_found_terms in Hk; destruct Hk as (H1 & H2 & H3 & H4).
  - split; [exact H1|]. left. auto.
  - split; [exact H1|]. right. auto.
Qed.


(** [makeRequest] calls the service at least once and at most three
    times. *)
Lemma makeRequest_calls (service : nat -> apiReply) (w : world) :
  calls w < calls (snd (ClaudeService.makeRequest service w)) <= calls w + 3.
Proof.
  unfold ClaudeService.makeRequest. change ClaudeService.maxRetries with 3.
  rewrite attemptLoop_step. cbv zeta.
  destruct (succeeded (service (calls w))); [cbn [snd calls]; lia|].
  destruct (isClientError (service (calls w))); [cbn [snd calls]; lia|].
  change (1 =? ClaudeService.maxRetries)%nat with false. cbv iota.
  rewrite attemptLoop_step. cbv zeta. cbn [calls sleeps].
  destruct (succeeded (service (S (calls w)))); [cbn [snd calls]; lia|].
  destruct (isClientError (service (S (calls w)))); [cbn [snd calls]; lia|].
  change (2 =? ClaudeService.maxRetries)%nat with false. cbv iota.
  rewrite attemptLoop_step. cbv zeta. cbn [calls sleeps].
  destruct (succeeded (service (S (S (calls w))))); [cbn [snd calls]; lia|].
  destruct (isClientError (service (S (S (calls w))))); [cbn [snd calls]; lia|].
  change (3 =? ClaudeService.maxRetries)%nat with true. cbv iota.
  cbn [snd calls]. lia.
Qed.

(** With no successful attempt the keywords are those of the
    fallback. *)
Lemma extractKeywords_all_fail (service : nat -> apiReply)
    (JSON_parse : string -> option keywordsJson) (jobDescription : string) (w : world) :
  (forall i, i < 3 -> succeeded (service (calls w + i)) = None) ->
  fst (extractKeywords service JSON_parse jobDescription w)
  = List.map ofExtracted (fallbackKeywordExtraction jobDescription).
Proof.
  intros Hnone. pose proof (makeRequest_all_fail service w Hnone) as Hfail.
  unfold extractKeywords. cbv zeta.
  destruct (ClaudeService.makeRequest service w) as [[[response|]|e] w'];
    cbn [fst] in *; [|reflexivity|reflexivity].
  exfalso. now apply (Hfail response).
Qed.


(** X13.  [extractKeywords] does not throw.  Every keyword it returns
    has a weight other than zero and a category that is not empty: a
    weight of 0 in the reply of the service, like a missing one,
    becomes 1.  When no attempt of the request succeeds, or the reply
    is not the text of a JSON array, the keywords are those of
    [fallbackKeywordExtraction].  The service is called at least once
    and at most three times. *)
Theorem extractKeywords_degrades_to_fallback (service : nat -> apiReply)
    (JSON_parse : string -> option keywordsJson) (jobDescription : string) (w : world) :
  let run := extractKeywords service JSON_parse jobDescription w in
  let fallback := List.map ofExtracted (fallbackKeywordExtraction jobDescription) in
  (forall k, In k (fst run) -> ck_weight k <> 0%Qc /\ ck_category k <> EmptyString)
  /\ ((forall i, i < 3 -> succeeded (service (calls w + i)) = None) -> fst run = fallback)
  /\ (forall response,
        fst (ClaudeService.makeRequest service w) = Ok (Some response) ->
        fst run = match JSON_parse (trim response) with
                  | Some (KArray items) => List.map ofItem items
                  | _ => fallback
                  end)
  /\ calls w < calls (snd run) <= calls w + 3.
Proof.
  intros run fallback.
  assert (Hfb : forall k, In k fallback -> ck_weight k <> 0%Qc /\ ck_category k <> EmptyString).
  { intros k Hk. subst fallback. apply in_map_iff in Hk. destruct Hk as (e & <- & He).
    destruct (fallback_keywords_parts jobDescription e He) as [_ [(_ & H1 & H2)|(_ & H1 & H2)]];
      cbn [ofExtracted ck_weight ck_category]; rewrite H1, H2; split; discriminate. }
  assert (Hitem : forall i, ck_weight (ofItem i) <> 0%Qc /\ ck_category (ofItem i) <> EmptyString).
  { intros [s|kw wt cat]; cbn; [split; discriminate|]. split.
    - destruct wt as [x|]; [|discriminate]. destruct (decide (x = 0%Qc)); [discriminate|assumption].
    - unfold orElse. destruct cat as [c|]; [|discriminate].
      destruct (decide (c = EmptyString)); [discriminate|assumption]. }
  pose proof (makeRequest_calls service w) as Hcalls.
  pose proof (makeRequest_all_fail service w) as Hfail.
  subst run. unfold extractKeywords. cbv zeta. fold fallback.
  destruct (ClaudeService.makeRequest service w) as [[[response|]|e] w'] eqn:Hreq;
    cbn [fst snd] in *.
  - split; [|split; [|split]].
    + destruct (JSON_parse (trim response)) as [[items|]|]; cbn [fst]; try exact Hfb.
      intros k Hk. apply in_map_iff in Hk. destruct Hk as (i & <- & _). apply Hitem.
    + intros Hnone. exfalso. now apply (Hfail Hnone response).
    + intros r Hr. inversion Hr; subst r.
      destruct (JSON_parse (trim response)) as [[items|]|]; reflexivity.
    + destruct (JSON_parse (trim response)) as [[items|]|]; exact Hcalls.
  - split; [exact Hfb|]. split; [reflexivity|]. split; [discriminate|exact Hcalls].
  - split; [exact Hfb|]. split; [reflexivity|]. split; [discriminate|exact Hcalls].
Qed.

End ServiceKeywords.

(** ** The extraction of job keywords as a whole *)

Section Pipeline.
Import JS Effects KeywordService Profile KeywordAnalysis ClaudeKeywords KeywordPipeline
  Spec Vocabulary.

(** The [catch] block of [extractJobKeywords] returns: the categories
    of the keywords found by patterns are not inherited names. *)
Lemma basicFallback_returns (text : string) :
  exists categories,
    basicFallback text = Ok (Fallback (basicKeywordExtraction text) categories).
Proof.
  unfold basicFallback. cbv zeta. unfold categorizeKeywords.
  pose proof (categorize_go_spec bk_category (basicKeywordExtraction text) ∅) as H.
  cbv zeta in H.
  destruct (categorize_go bk_category ∅ (basicKeywordExtraction text)) as [groups|e];
    [eauto|].
  exfalso. destruct H as (_ & k & Hk & Hin).
  destruct (basic_keyword_facts text k Hk) as (_ & _ & Hkind & _).
  destruct Hkind as [(_ & E & _)|[(_ & E & _)|(_ & E & _)]]; rewrite E in Hin;
    vm_compute in Hin; repeat (destruct Hin as [Hin|Hin]; [discriminate|]); contradiction.
Qed.

Lemma stringKeywords_ofExtracted (l : list extracted) :
  stringKeywords (List.map ofExtracted l) = Some l.
Proof.
  induction l as [|[t wt c] l IH]; [reflexivity|].
  cbn [List.map stringKeywords ofExtracted ck_keyword ck_weight ck_category kw_text
       kw_weight kw_category].
  now rewrite IH.
Qed.

(** The words of the vocabularies of [basicKeywordExtraction] other
    than [c++] have no character with a meaning in a regular
    expression. *)
Lemma vocabulary_literal (k : string) :
  (exists category pattern, In (category, pattern) techPatterns /\ In k pattern)
  \/ In k softSkills \/ In k actionVerbs ->
  k <> "c++" -> literal k = true.
Proof.
  intros [(category & pattern & Hp & Hk)|[Hk|Hk]] Hne.
  - unfold techPatterns in Hp. cbn [In] in Hp.
    repeat (destruct Hp as [Hp|Hp];
            [inversion Hp; subst; cbn [In] in Hk;
             repeat (destruct Hk as [<-|Hk]; [first [reflexivity|congruence]|]);
             contradiction|]).
    contradiction.
  - unfold softSkills in Hk. cbn [In] in Hk.
    repeat (destruct Hk as [<-|Hk]; [reflexivity|]). contradiction.
  - unfold actionVerbs in Hk. cbn [In] in Hk.
    repeat (destruct Hk as [<-|Hk]; [reflexivity|]). contradiction.
Qed.

(** The keywords merged when the service has not answered: the terms
    of the fallback and the words found by the patterns. *)
Lemma unanswered_keyword_facts (text : string) (m : merged) :
  In m (mergeKeywords (fallbackKeywordExtraction text)
          (List.map asExtracted (basicKeywordExtraction text))) ->
  (kw_text (mg_keyword m) <> "c++" -> literalKeyword m)
  /\ (kw_text (mg_keyword m) = "c++" ->
      In "c++" (List.map bk_keyword (basicKeywordExtraction text)))
  /\ toLowerCase (kw_text (mg_keyword m)) = kw_text (mg_keyword m)
  /\ ~ In (orElse (Some (kw_category (mg_keyword m))) "general") inheritedNames.
Proof.
  intros Hm. apply merged_keyword_origin in Hm. destruct Hm as [Hm|Hm].
  - destruct (fallback_keywords_parts text _ Hm) as [_ Hkind].
    assert (Hterm : In (kw_text (mg_keyword m)) (commonTechTerms ++ generalTerms)).
    { apply in_app_iff. destruct Hkind as [[H _]|[H _]]; [now left|now right]. }
    destruct (term_facts _ Hterm) as (Hlit & _ & _ & Hlow).
    split; [intros _; exact Hlit|]. split; [|split; [exact Hlow|]].
    + intros E. rewrite E in Hlit. discriminate.
    + destruct Hkind as [(_ & _ & E)|(_ & _ & E)]; rewrite E; vm_compute;
        intros Hin; repeat (destruct Hin as [Hin|Hin]; [discriminate|]); contradiction.
  - apply in_map_iff in Hm. destruct Hm as (b & Hb & Hin). rewrite <- Hb.
    cbn [asExtracted kw_text kw_category].
    destruct (basic_keyword_facts text b Hin) as (Hlow & _ & Hkind & _).
    split; [|split; [|split; [exact Hlow|]]].
    + intros Hne. unfold literalKeyword. cbn [mg_keyword]. rewrite <- Hb. cbn [asExtracted kw_text].
      apply vocabulary_literal; [|exact Hne].
      destruct Hkind as [(_ & _ & c & pt & Hp & Hi & _)|[(_ & _ & Hi)|(_ & _ & Hi)]]; eauto.
    + intros E. rewrite <- E. now apply in_map.
    + destruct Hkind as [(_ & E & _)|[(_ & E & _)|(_ & E & _)]]; rewrite E; vm_compute;
        intros Hx; repeat (destruct Hx as [Hx|Hx]; [discriminate|]); contradiction.
Qed.

(** Ranking stops at the keyword [c++]. *)
Lemma rankEach_stops_at_cplusplus (ms : list merged) (text : string) :
  (forall m, In m ms -> kw_text (mg_keyword m) <> "c++" -> literalKeyword m) ->
  (exists m, In m ms /\ kw_text (mg_keyword m) = "c++") ->
  rankEach ms text = Some (Throw SyntaxError).
Proof.
  induction ms as [|m ms IH]; intros Hlit (x & Hx & Ex); [contradiction|].
  cbn [rankEach].
  destruct (decide (kw_text (mg_keyword m) = "c++")) as [E|Hne].
  - unfold rankOne, calculateFrequency. rewrite E. reflexivity.
  - rewrite (rankOne_literal m text (Hlit m (or_introl eq_refl) Hne)).
    destruct Hx as [->|Hx]; [contradiction|].
    rewrite IH; [reflexivity| |eauto].
    intros y Hy. apply Hlit. now right.
Qed.



(** X15.  When no attempt to reach the service succeeds,
    [extractJobKeywords] still returns keywords.  Unless the patterns
    have found [c++], the method reported is [claude_enhanced]: the
    keywords are those of the two local extractions, and those that
    [fallbackKeywordExtraction] found carry the source [Claude].  When
    the patterns have found [c++], ranking throws on it and the result
    is the [basic_fallback]. *)
Theorem unanswered_service_is_reported_as_enhanced (service : nat -> apiReply)
    (JSON_parse : string -> option keywordsJson) (text : string) (w : world) :
  (forall i, i < 3 -> succeeded (service (calls w + i)) = None) ->
  exists r,
    fst (extractJobKeywords service JSON_parse text w) = Some (Ok r)
    /\ (In "c++" (List.map bk_keyword (basicKeywordExtraction text)) ->
        method r = "basic_fallback")
    /\ (~ In "c++" (List.map bk_keyword (basicKeywordExtraction text)) ->
        exists rankedKeywords categories,
          r = Enhanced rankedKeywords categories
          /\ method r = "claude_enhanced"
          /\ forall k, In k rankedKeywords ->
               (In Claude (sources (rk_keyword k)) <->
                In (kw_text (mg_keyword (rk_keyword k)))
                   (List.map kw_text (fallbackKeywordExtraction text)))
               /\ (~ In Claude (sources (rk_keyword k)) ->
                   In (kw_text (mg_keyword (rk_keyword k)))
                      (List.map bk_keyword (basicKeywordExtraction text)))).
Proof.
  intros Hnone.
  pose proof (extractKeywords_all_fail service JSON_parse text w Hnone) as Hfall.
  unfold extractJobKeywords.
  destruct (extractKeywords service JSON_parse text w) as [claudeKeywords w'].
  cbn [fst] in Hfall. subst claudeKeywords. cbv zeta.
  rewrite stringKeywords_ofExtracted.
  set (fb := fallbackKeywordExtraction text).
  set (basic := basicKeywordExtraction text).
  set (ms := mergeKeywords fb (List.map asExtracted basic)).
  pose proof (unanswered_keyword_facts text) as Hfacts. fold fb basic ms in Hfacts.
  destruct (basicFallback_returns text) as (categories & Hfb). fold basic in Hfb.
  destruct (in_dec string_dec "c++" (List.map bk_keyword basic)) as [Hcpp|Hcpp].
  - (* the patterns have found c++ *)
    assert (Hthrow : rankEach ms text = Some (Throw SyntaxError)).
    { apply rankEach_stops_at_cplusplus; [intros m Hm; apply (Hfacts m Hm)|].
      destruct (mergeKeywords_entries fb (List.map asExtracted basic))
        as (entries & Hms & [_ Hk] & Hcov).
      apply in_map_iff in Hcpp. destruct Hcpp as (b & Hb & Hin).
      assert (Hkey : In (mergeKey (asExtracted b)) (List.map fst entries)).
      { apply Hcov. right. now apply in_map. }
      apply in_map_iff in Hkey. destruct Hkey as ([k v] & Hk1 & Hk2). cbn [fst] in Hk1.
      exists v. assert (Hv : In v ms).
      { unfold ms. rewrite Hms. apply in_map_iff. exists (k, v). now split. }
      split; [exact Hv|].
      destruct (Hk k v Hk2) as [Hkv _].
      destruct (Hfacts v Hv) as (_ & _ & Hlow & _).
      unfold mergeKey in Hkv, Hk1. cbn [asExtracted kw_text] in Hk1.
      rewrite Hlow in Hkv. rewrite <- Hkv, Hk1, Hb. reflexivity. }
    unfold rankKeywords. rewrite Hthrow. cbn [fst]. rewrite Hfb.
    eexists. split; [reflexivity|]. split; [reflexivity|]. intros H. contradiction.
  - (* they have not *)
    assert (Hlit : Forall literalKeyword ms).
    { apply List.Forall_forall. intros m Hm. apply (Hfacts m Hm).
      intros E. apply Hcpp. now apply (Hfacts m Hm). }
    unfold rankKeywords. rewrite (rankEach_literal ms text Hlit).
    set (rankedKeywords := slice0 20 _).
    assert (Hin : forall k, In k rankedKeywords -> In (rk_keyword k) ms).
    { intros k Hk. unfold rankedKeywords, slice0 in Hk. apply in_firstn_in in Hk.
      apply (Permutation_in _ (Permutation_sym (Array_sort_perm _ _))) in Hk.
      apply in_map_iff in Hk. destruct Hk as (m & <- & Hm). exact Hm. }
    pose proof (categorize_go_spec (fun k => kw_category (mg_keyword (rk_keyword k)))
                  rankedKeywords ∅) as Hcat. cbv zeta in Hcat.
    unfold categorizeKeywords.
    destruct (categorize_go _ ∅ rankedKeywords) as [cats|e].
    + cbn [fst]. eexists. split; [reflexivity|]. split; [intros H; contradiction|].
      intros _. exists rankedKeywords, cats. split; [reflexivity|]. split; [reflexivity|].
      intros k Hk. specialize (Hin k Hk).
      destruct (mergeKeywords_entries fb (List.map asExtracted basic))
        as (entries & Hms & [_ Hinv] & _).
      unfold ms in Hin. rewrite Hms in Hin. apply in_map_iff in Hin.
      destruct Hin as ([key v] & Hv & Hentry). cbn [snd] in Hv. subst v.
      destruct (Hinv key _ Hentry) as [Hkey [[Hc Hs]|(Hc & Hs & Hnot)]].
      * split; [split; [intros _; now apply in_map|intros _; exact Hc]|].
        intros Hn. contradiction.
      * split; [split; [intros H; contradiction|]|].
        -- intros Hx. exfalso. apply Hnot. rewrite Hkey.
           apply in_map_iff in Hx. destruct Hx as (c & Hc1 & Hc2).
           apply in_map_iff. exists c. split; [|exact Hc2]. unfold mergeKey. now rewrite Hc1.
        -- intros _. apply in_map_iff in Hs. destruct Hs as (b & Hb & Hbin).
           rewrite <- Hb. cbn [asExtracted kw_text]. now apply in_map.
    + exfalso. destruct Hcat as (_ & k & Hk & Hinh).
      apply (Hfacts _ (Hin k Hk)). exact Hinh.
Qed.

Lemma unanswered_service_is_reported_as_enhanced_witness :
  exists r,
    fst (extractJobKeywords Samples.unreachable (fun _ => None)
           "We need React and AWS experience; leadership is a plus." initial)
    = Some (Ok r)
    /\ method r = "claude_enhanced".
Proof.
  destruct (unanswered_service_is_reported_as_enhanced Samples.unreachable
              (fun _ => None)
              "We need React and AWS experience; leadership is a plus." initial)
    as (r & H1 & _ & H3).
  - intros i Hi. reflexivity.
  - exists r. split; [exact H1|].
    destruct H3 as (rk & cats & _ & Hm & _); [|exact Hm].
    vm_compute. intros [H|[H|[H|[]]]]; discriminate.
Defined.

End Pipeline.

(** ** Projects, bullets and skills of the tailored CV *)

Section TailoredContent.
Import JS Effects KeywordService Profile ContentService Spec Vocabulary.

Lemma projectScore_formula (set : gset string) (p : project) :
  projectScore set p =
    2 * hits set (split_ws (toLowerCase (p_name p)))
    + 1 * hits set (descriptionWords p)
    + 3 * hits set (List.map toLowerCase (default [] (p_technologies p))).
Proof.
  unfold projectScore, descriptionWords. cbv zeta.
  destruct (p_description p) as [d|], (p_technologies p) as [ts|];
    try destruct (decide (d = EmptyString));
    rewrite ?addHits_count; cbn [default from_option id List.map];
    change (hits set []) with 0; lia.
Qed.

(** X16.  A project scores 2 points for every word of its lower-cased
    name that is a job keyword, 1 for every word of its description
    and 3 for every technology.  [selectRelevantProjects] returns the
    projects themselves, unchanged: the first three when the projects
    are sorted by score, highest first, projects of equal score
    staying in their order; no project left out scores more than one
    that is kept. *)
Theorem project_selection (ps : list project) (kws : list jobKeyword) :
  let score := projectScore (keywordSet kws) in
  let sorted := Array_sort (byScoreDesc snd) (List.map (fun p => (p, score p)) ps) in
  (forall p, score p =
     2 * hits (keywordSet kws) (split_ws (toLowerCase (p_name p)))
     + 1 * hits (keywordSet kws) (descriptionWords p)
     + 3 * hits (keywordSet kws) (List.map toLowerCase (default [] (p_technologies p))))
  /\ selectRelevantProjects ps kws = List.map fst (firstn 3 sorted)
  /\ Permutation ps (List.map fst sorted)
  /\ StronglySorted (fun a b => score b <= score a) (List.map fst sorted)
  /\ length (selectRelevantProjects ps kws) = Nat.min 3 (length ps)
  /\ (forall a b, In a (selectRelevantProjects ps kws) ->
        In b (List.map fst (skipn 3 sorted)) -> score b <= score a)
  /\ (forall s, List.filter (fun p => (score p =? s)%nat) (List.map fst sorted)
                = List.filter (fun p => (score p =? s)%nat) ps).
Proof.
  intros score sorted. subst sorted.
  set (scored := List.map (fun p => (p, score p)) ps).
  set (sorted := Array_sort (byScoreDesc snd) scored).
  assert (Hsnd : forall e, In e sorted -> snd e = score (fst e)).
  { intros e He. apply (Permutation_in _ (Permutation_sym (Array_sort_perm _ _))) in He.
    unfold scored in He. apply in_map_iff in He. destruct He as (p & <- & _). reflexivity. }
  assert (Hsorted : StronglySorted (fun a b => snd b <= snd a) sorted)
    by apply Array_sort_sorted.
  assert (Hsel : selectRelevantProjects ps kws = List.map fst (firstn 3 sorted)).
  { unfold selectRelevantProjects. destruct ps; reflexivity. }
  split; [intros p; apply projectScore_formula|].
  split; [exact Hsel|].
  split.
  { transitivity (List.map fst scored).
    - unfold scored. rewrite List.map_map. cbn [fst]. now rewrite List.map_id.
    - apply Permutation_map, Array_sort_perm. }
  split.
  { clear Hsel. induction Hsorted as [|e l Hl IH Hall]; cbn [List.map]; constructor.
    - apply IH. intros x Hx. apply Hsnd. now right.
    - apply List.Forall_forall. intros p Hp. apply in_map_iff in Hp.
      destruct Hp as (x & <- & Hx). rewrite List.Forall_forall in Hall.
      rewrite <- (Hsnd e (or_introl eq_refl)), <- (Hsnd x (or_intror Hx)). now apply Hall. }
  split.
  { rewrite Hsel, length_map, length_firstn. unfold sorted, scored.
    now rewrite Array_sort_length, length_map. }
  split.
  { intros a b Ha Hb. rewrite Hsel in Ha. apply in_map_iff in Ha, Hb.
    destruct Ha as (x & <- & Hx), Hb as (y & <- & Hy).
    rewrite <- (Hsnd x (in_firstn_in _ _ _ Hx)), <- (Hsnd y (in_skipn_in _ _ _ Hy)).
    exact (sorted_prefix_dominates snd 3 sorted Hsorted x y Hx Hy). }
  intros s.
  assert (Hl : forall l : list (project * nat), (forall e, In e l -> snd e = score (fst e)) ->
             List.filter (fun p => (score p =? s)%nat) (List.map fst l)
             = List.map fst (List.filter (fun e => (snd e =? s)%nat) l)).
  { induction l as [|e l IH]; intros Hl; [reflexivity|]. cbn [List.map List.filter].
    rewrite <- (Hl e (or_introl eq_refl)).
    destruct (snd e =? s)%nat; cbn [List.map]; rewrite IH; auto;
      intros x Hx; apply Hl; now right. }
  rewrite (Hl sorted Hsnd). unfold sorted.
  rewrite (Array_sort_stable snd s scored
           : List.filter (fun e => (snd e =? s)%nat) (Array_sort (byScoreDesc snd) scored)
             = List.filter (fun e => (snd e =? s)%nat) scored).
  rewrite <- Hl.
  - unfold scored. rewrite List.map_map. cbn [fst]. now rewrite List.map_id.
  - intros e He. unfold scored in He. apply in_map_iff in He.
    destruct He as (p & <- & _). reflexivity.
Qed.

Section WithService.
Context (service : nat -> apiReply) (JSON_parse : string -> option json).

Lemma rewriteBullet_unanswered (bullet : string) (kws : list jobKeyword) (w : world) :
  (forall n, succeeded (service n) = None) ->
  fst (ClaudeService.rewriteBullet service bullet kws w) = bullet.
Proof.
  intros Hnone. pose proof (makeRequest_all_fail service w (fun k _ => Hnone _)) as Hf.
  unfold ClaudeService.rewriteBullet.
  destruct (ClaudeService.makeRequest service w) as [[[r|]|e] w']; cbn [fst] in *;
    [now destruct (Hf r)|reflexivity|reflexivity].
Qed.

Lemma enhanceLoop_unanswered (bs : list bullet) (kws : list jobKeyword) (w : world) :
  (forall n, succeeded (service n) = None) ->
  fst (enhanceLoop service bs kws w) = List.map bulletText bs.
Proof.
  intros Hnone. revert w. induction bs as [|b bs IH]; intros w; [reflexivity|].
  cbn [enhanceLoop List.map].
  pose proof (rewriteBullet_unanswered (bulletText b) kws w Hnone) as Hb.
  destruct (ClaudeService.rewriteBullet service (bulletText b) kws w) as [e w1].
  specialize (IH w1). destruct (enhanceLoop service bs kws w1) as [others w2].
  cbn [fst] in *. now rewrite Hb, IH.
Qed.

Lemma enhanceExperienceBullets_count (exp : experience) (kws : list jobKeyword) (w : world) :
  length (fst (enhanceExperienceBullets service exp kws w))
  = Nat.min 4 (length (default [] (bullets exp))).
Proof.
  unfold enhanceExperienceBullets. destruct (bullets exp) as [[|b bs]|]; [reflexivity| |reflexivity].
  rewrite enhanceLoop_length. unfold slice0. now rewrite length_firstn.
Qed.

Lemma enhanceExperienceBullets_unanswered (exp : experience) (kws : list jobKeyword)
    (w : world) :
  (forall n, succeeded (service n) = None) ->
  fst (enhanceExperienceBullets service exp kws w)
  = List.map bulletText (slice0 4 (default [] (bullets exp))).
Proof.
  intros Hnone. unfold enhanceExperienceBullets.
  destruct (bullets exp) as [[|b bs]|]; [reflexivity| |reflexivity].
  now apply enhanceLoop_unanswered.
Qed.

(** The entry of the tailored CV for a selected experience whose
    bullets are left as they are. *)
Lemma enhanceAll_unanswered (top : list scoredExperience) (kws : list jobKeyword)
    (w : world) :
  (forall n, succeeded (service n) = None) ->
  fst (enhanceAll service top kws w) = List.map untouched top.
Proof.
  intros Hnone. revert w. induction top as [|e top IH]; intros w; [reflexivity|].
  cbn [enhanceAll List.map].
  pose proof (enhanceExperienceBullets_unanswered (s_exp e) kws w Hnone) as Hb.
  destruct (enhanceExperienceBullets service (s_exp e) kws w) as [bs w1].
  specialize (IH w1). destruct (enhanceAll service top kws w1) as [others w2].
  cbn [fst] in *. rewrite Hb, IH. reflexivity.
Qed.

Lemma enhanceAll_bullet_counts (top : list scoredExperience) (kws : list jobKeyword)
    (w : world) :
  List.map (fun t => length (t_bullets t)) (fst (enhanceAll service top kws w))
  = List.map (fun e => Nat.min 4 (length (default [] (bullets (s_exp e))))) top.
Proof.
  revert w. induction top as [|e top IH]; intros w; [reflexivity|].
  cbn [enhanceAll List.map].
  pose proof (enhanceExperienceBullets_count (s_exp e) kws w) as Hb.
  destruct (enhanceExperienceBullets service (s_exp e) kws w) as [bs w1].
  specialize (IH w1). destruct (enhanceAll service top kws w1) as [others w2].
  cbn [fst List.map t_bullets] in *. now rewrite Hb, IH.
Qed.

(** X17.  Each experience of the tailored CV has the first four
    bullets of the experience it comes from, rewritten or not: as
    many bullets as the experience has, up to four.  When no request
    to the service succeeds, every bullet is the original text: the
    failure of a rewrite costs nothing but the rewrite. *)
Theorem unanswered_service_keeps_bullets (exps : list experience)
    (kws : list jobKeyword) (w : world) :
  let out := fst (selectAndEnhanceExperience service exps kws w) in
  List.map (fun t => length (t_bullets t)) out
  = List.map (fun e => Nat.min 4 (length (default [] (bullets (s_exp e)))))
      (topExperiences exps kws)
  /\ ((forall n, succeeded (service n) = None) ->
      out = List.map untouched (topExperiences exps kws)).
Proof.
  intros out. subst out. unfold selectAndEnhanceExperience.
  destruct exps as [|e exps]; [split; reflexivity|]. split.
  - apply enhanceAll_bullet_counts.
  - intros Hnone. now apply enhanceAll_unanswered.
Qed.

Lemma someSame_strings (prioritized : list string) (skill : string) :
  someSame (List.map Some prioritized) (Some skill)
  = Ok (existsb (fun ps => sameSkill ps skill) prioritized).
Proof.
  induction prioritized as [|ps rest IH]; [reflexivity|].
  cbn [List.map someSame lowerOf existsb]. unfold sameSkill at 1.
  destruct (decide (toLowerCase ps = toLowerCase skill)) as [E|E].
  - now rewrite bool_decide_eq_true_2.
  - rewrite bool_decide_eq_false_2 by exact E. exact IH.
Qed.

Lemma addMissing_strings (candidates prioritized : list string) :
  addMissing (List.map Some candidates) (List.map Some prioritized)
  = Ok (List.map Some (addNew candidates prioritized)).
Proof.
  revert prioritized. induction candidates as [|skill rest IH]; intros prioritized;
    [reflexivity|].
  cbn [List.map addMissing addNew]. rewrite someSame_strings.
  destruct (existsb (fun ps => sameSkill ps skill) prioritized); [apply IH|].
  change [Some skill] with (List.map Some [skill]). rewrite <- List.map_app. apply IH.
Qed.

Lemma addMatching_strings (set : gset string) (names : list string)
    (prioritized : list (option string)) :
  addMatching set (List.map Some names) prioritized
  = Ok (prioritized
        ++ List.map Some
             (List.filter (fun n => bool_decide (toLowerCase n ∈ set)) names)).
Proof.
  revert prioritized. induction names as [|n names IH]; intros prioritized.
  - cbn. now rewrite app_nil_r.
  - cbn [List.map addMatching lowerOf List.filter]. rewrite IH.
    destruct (decide (toLowerCase n ∈ set)) as [Hin|Hout].
    + rewrite bool_decide_eq_true_2 by exact Hin. cbn [List.map].
      now rewrite <- app_assoc.
    + now rewrite bool_decide_eq_false_2 by exact Hout.
Qed.

(** What [addNew] appends: candidates, none of which the list has up
    to case, and no two of which are equal up to case; and every
    candidate is in the result up to case. *)
Lemma addNew_spec (candidates prioritized : list string) :
  exists added,
    addNew candidates prioritized = prioritized ++ added
    /\ (forall s, In s added -> In s candidates)
    /\ NoDup (List.map toLowerCase added)
    /\ (forall s q, In s added -> In q prioritized -> toLowerCase q <> toLowerCase s)
    /\ (forall s, In s candidates ->
          exists q, In q (prioritized ++ added) /\ toLowerCase q = toLowerCase s).
Proof.
  revert prioritized. induction candidates as [|skill rest IH]; intros prioritized.
  - exists []. rewrite app_nil_r. split; [reflexivity|]. split; [intros ? []|].
    split; [apply NoDup_nil_2|]. split; [intros ? ? []|intros ? []].
  - cbn [addNew]. destruct (existsb (fun ps => sameSkill ps skill) prioritized) eqn:Hex.
    + destruct (IH prioritized) as (added & H1 & H2 & H3 & H4 & H5).
      exists added. split; [exact H1|]. split; [intros s Hs; right; now apply H2|].
      split; [exact H3|]. split; [exact H4|].
      intros s [<-|Hs]; [|now apply H5].
      apply existsb_exists in Hex. destruct Hex as (q & Hq & Hsame).
      apply bool_decide_eq_true in Hsame. exists q. split; [|exact Hsame].
      apply in_app_iff. now left.
    + destruct (IH (prioritized ++ [skill])) as (added & H1 & H2 & H3 & H4 & H5).
      assert (Hnew : forall q, In q prioritized -> toLowerCase q <> toLowerCase skill).
      { intros q Hq E. apply not_true_iff_false in Hex. apply Hex.
        apply existsb_exists. exists q. split; [exact Hq|]. now apply bool_decide_eq_true. }
      exists (skill :: added). split; [now rewrite H1, <- app_assoc|].
      split; [intros s [<-|Hs]; [now left|right; now apply H2]|].
      split.
      { cbn [List.map]. apply NoDup_cons. split; [|exact H3].
        rewrite list_elem_of_In, in_map_iff. intros (s & Hs1 & Hs2).
        apply (H4 s skill Hs2); [apply in_app_iff; right; now left|]. now symmetry. }
      split.
      { intros s q [<-|Hs] Hq; [now apply Hnew|].
        apply (H4 s q Hs). apply in_app_iff. now left. }
      intros s [<-|Hs].
      * exists skill. split; [|reflexivity]. apply in_app_iff. right. now left.
      * destruct (H5 s Hs) as (q & Hq & E). exists q. split; [|exact E].
        rewrite <- app_assoc in Hq. exact Hq.
Qed.

(** X18.  When the skills of the candidate and those that the service
    proposes are all strings, the tailored skills are the first 15 of
    this list: the skills of the candidate that are job keywords up to
    case, in the order of the profile, and then skills of the service
    and of the candidate that the list did not have yet, no two of
    them equal up to case.  Every skill of the candidate and of the
    service is in the list up to case, so only the cut at 15 can drop
    one. *)
Theorem tailored_skills_put_matching_first (userSkills : list skill)
    (names claude : list string) (kws : list jobKeyword) (w : world) :
  List.map skillName userSkills = List.map Some names ->
  fst (ClaudeService.generateSkillsList service JSON_parse kws w) = List.map Some claude ->
  let matching :=
    List.filter (fun n => bool_decide (toLowerCase n ∈ keywordSet kws)) names in
  exists others,
    fst (generateTailoredSkills service JSON_parse userSkills kws w)
    = List.map Some (slice0 15 (matching ++ others))
    /\ (forall s, In s others -> In s claude \/ In s names)
    /\ NoDup (List.map toLowerCase others)
    /\ (forall s q, In s others -> In q matching -> toLowerCase q <> toLowerCase s)
    /\ (forall s, In s names \/ In s claude ->
          exists q, In q (matching ++ others) /\ toLowerCase q = toLowerCase s).
Proof.
  intros Hnames Hclaude matching.
  unfold generateTailoredSkills.
  destruct (ClaudeService.generateSkillsList service JSON_parse kws w) as [cs w1].
  cbn [fst] in Hclaude. subst cs. cbv zeta. rewrite Hnames.
  rewrite addMatching_strings. cbn [app]. fold matching.
  rewrite addMissing_strings, addMissing_strings. cbn [fst].
  destruct (addNew_spec claude matching) as (a1 & E1 & A1 & N1 & D1 & C1).
  destruct (addNew_spec names (matching ++ a1)) as (a2 & E2 & A2 & N2 & D2 & C2).
  rewrite E1, E2, <- app_assoc.
  exists (a1 ++ a2). split; [unfold slice0; now rewrite firstn_map|].
  split; [intros s Hs; apply in_app_iff in Hs; destruct Hs; [left; auto|right; auto]|].
  split.
  { rewrite List.map_app. apply NoDup_app. split; [exact N1|]. split; [|exact N2].
    intros x Hx Hx'. apply list_elem_of_In, in_map_iff in Hx, Hx'.
    destruct Hx as (s1 & <- & Hs1), Hx' as (s2 & E & Hs2).
    apply (D2 s2 s1 Hs2); [apply in_app_iff; now right|]. now symmetry. }
  split.
  { intros s q Hs Hq. apply in_app_iff in Hs. destruct Hs as [Hs|Hs].
    - now apply (D1 s q).
    - apply (D2 s q Hs). apply in_app_iff. now left. }
  intros s [Hs|Hs].
  - destruct (C2 s Hs) as (q & Hq & E). exists q. split; [|exact E].
    now rewrite <- app_assoc in Hq.
  - destruct (C1 s Hs) as (q & Hq & E). exists q. split; [|exact E].
    rewrite app_assoc. apply in_app_iff. now left.
Qed.

Lemma addMatching_nameless (set : gset string) (names : list (option string))
    (prioritized : list (option string)) :
  In None names -> addMatching set names prioritized = Throw TypeError.
Proof.
  revert prioritized. induction names as [|n names IH]; intros prioritized Hin;
    [contradiction|].
  cbn [addMatching]. destruct n as [n|]; [|reflexivity]. cbn [lowerOf].
  destruct Hin as [Hin|Hin]; [discriminate|]. now apply IH.
Qed.

(** X19.  A skill of the candidate that is an object without a name
    makes [generateTailoredSkills] give up its ordering, whatever the
    service has proposed: the result is the first 12 skills of the
    profile as they are, the missing name among them when it is one of
    the first 12. *)
Theorem nameless_skill_gives_up_ordering (userSkills : list skill)
    (kws : list jobKeyword) (w : world) :
  In (SkillObject None) userSkills ->
  fst (generateTailoredSkills service JSON_parse userSkills kws w)
  = slice0 12 (List.map skillName userSkills)
  /\ In None (List.map skillName userSkills).
Proof.
  intros Hin.
  assert (Hnone : In None (List.map skillName userSkills)).
  { apply in_map_iff. exists (SkillObject None). now split. }
  split; [|exact Hnone].
  unfold generateTailoredSkills.
  destruct (ClaudeService.generateSkillsList service JSON_parse kws w) as [cs w1].
  cbv zeta. now rewrite (addMatching_nameless _ _ _ Hnone).
Qed.

End WithService.

Lemma tailored_skills_put_matching_first_witness :
  exists others,
    fst (generateTailoredSkills Samples.unreachable (fun _ => None)
           [SkillString "Docker"; SkillString "react"] Samples.adaKeywords initial)
    = List.map Some (slice0 15 (["Docker"; "react"] ++ others)).
Proof.
  destruct (tailored_skills_put_matching_first Samples.unreachable (fun _ => None)
              [SkillString "Docker"; SkillString "react"] ["Docker"; "react"]
              ["React"; "Node.js"; "AWS"; "Docker"] Samples.adaKeywords initial)
    as (others & H & _).
  - reflexivity.
  - vm_compute. reflexivity.
  - exists others. exact H.
Defined.

Lemma nameless_skill_gives_up_ordering_witness :
  fst (generateTailoredSkills Samples.unreachable (fun _ => None)
         [SkillString "React"; SkillObject None] Samples.adaKeywords initial)
  = [Some "React"; None].
Proof.
  apply (nameless_skill_gives_up_ordering Samples.unreachable (fun _ => None)
           [SkillString "React"; SkillObject None] Samples.adaKeywords initial).
  right. left. reflexivity.
Defined.

End TailoredContent.

(** ** The optimisation of an existing CV *)

Section Optimizer.
Import JS Effects KeywordService Profile KeywordAnalysis ContentService ContentOptimizer
  Spec Vocabulary.

(** The loop of [optimizeSkillsSection], from any state in which the
    set holds the lower-cased skills of the list. *)
Lemma addSkill_fold (jks : list jobKeyword) (skills : list string) (set : gset string) :
  (forall x, x ∈ set <-> In x (List.map toLowerCase skills)) ->
  exists added,
    fst (fold_left addSkill jks (skills, set)) = skills ++ added
    /\ (forall s, In s added ->
          exists jk, In jk jks /\ s = keywordOf jk /\ highWeight jk = true)
    /\ NoDup (List.map toLowerCase added)
    /\ (forall s q, In s added -> In q skills -> toLowerCase q <> toLowerCase s)
    /\ (forall jk, In jk jks -> highWeight jk = true ->
          exists q, In q (skills ++ added)
                    /\ toLowerCase q = toLowerCase (keywordOf jk)).
Proof.
  revert skills set. induction jks as [|jk jks IH]; intros skills set Hset.
  - exists []. cbn [fold_left fst]. rewrite app_nil_r. split; [reflexivity|].
    split; [intros ? []|]. split; [apply NoDup_nil_2|]. split; [intros ? ? []|intros ? []].
  - cbn [fold_left]. unfold addSkill at 2. cbv zeta. fold (highWeight jk).
    destruct (highWeight jk) eqn:Hhigh; cbn [andb].
    + destruct (decide (toLowerCase (keywordOf jk) ∈ set)) as [Hin|Hout].
      * rewrite bool_decide_eq_true_2 by exact Hin. cbn [negb].
        destruct (IH skills set Hset) as (added & H1 & H2 & H3 & H4 & H5).
        exists added. split; [exact H1|].
        split; [intros s Hs; destruct (H2 s Hs) as (x & Hx & E); exists x;
                split; [now right|exact E]|].
        split; [exact H3|]. split; [exact H4|].
        intros x [<-|Hx] Hw; [|now apply H5].
        apply Hset, in_map_iff in Hin. destruct Hin as (q & Hq & Hqin).
        exists q. split; [apply in_app_iff; now left|exact Hq].
      * rewrite bool_decide_eq_false_2 by exact Hout. cbn [negb].
        destruct (IH (skills ++ [keywordOf jk]) ({[toLowerCase (keywordOf jk)]} ∪ set))
          as (added & H1 & H2 & H3 & H4 & H5).
        { intros x. rewrite elem_of_union, elem_of_singleton, Hset, List.map_app, in_app_iff.
          cbn [List.map In]. split; [intros [->|H]; [right; now left|now left]|].
          intros [H|[<-|[]]]; [now right|now left]. }
        assert (Hnew : forall q, In q skills ->
                  toLowerCase q <> toLowerCase (keywordOf jk)).
        { intros q Hq E. apply Hout, Hset. rewrite <- E. now apply in_map. }
        exists (keywordOf jk :: added). split; [now rewrite H1, <- app_assoc|].
        split.
        { intros s [<-|Hs]; [exists jk; split; [now left|now split]|].
          destruct (H2 s Hs) as (x & Hx & E). exists x. split; [now right|exact E]. }
        split.
        { cbn [List.map]. apply NoDup_cons. split; [|exact H3].
          rewrite list_elem_of_In, in_map_iff. intros (s & Hs1 & Hs2).
          apply (H4 s (keywordOf jk) Hs2); [apply in_app_iff; right; now left|].
          now symmetry. }
        split.
        { intros s q [<-|Hs] Hq; [now apply Hnew|].
          apply (H4 s q Hs). apply in_app_iff. now left. }
        intros x [<-|Hx] Hw.
        -- exists (keywordOf jk). split; [|reflexivity]. apply in_app_iff. right. now left.
        -- destruct (H5 x Hx Hw) as (q & Hq & E). exists q. split; [|exact E].
           now rewrite <- app_assoc in Hq.
    + destruct (IH skills set Hset) as (added & H1 & H2 & H3 & H4 & H5).
      exists added. split; [exact H1|].
      split; [intros s Hs; destruct (H2 s Hs) as (x & Hx & E); exists x;
              split; [now right|exact E]|].
      split; [exact H3|]. split; [exact H4|].
      intros x [<-|Hx] Hw; [congruence|now apply H5].
Qed.

Lemma skillSet_spec (skills : list string) (x : string) :
  x ∈ (list_to_set (List.map toLowerCase skills) : gset string)
  <-> In x (List.map toLowerCase skills).
Proof. now rewrite elem_of_list_to_set, list_elem_of_In. Qed.


Section WithService.
Context (service : nat -> apiReply).

Lemma optimizeBullets_length (bs : list string) (kws : list jobKeyword) (w : world) :
  length (fst (optimizeBullets service bs kws w)) = length bs.
Proof.
  revert w. induction bs as [|b bs IH]; intros w; [reflexivity|].
  cbn [optimizeBullets].
  destruct (ClaudeService.rewriteBullet service b kws w) as [e w1].
  specialize (IH w1). destruct (optimizeBullets service bs kws w1) as [others w2].
  cbn [fst length] in *. now rewrite IH.
Qed.

Lemma optimizeBullets_unanswered (bs : list string) (kws : list jobKeyword) (w : world) :
  (forall n, succeeded (service n) = None) ->
  fst (optimizeBullets service bs kws w) = bs.
Proof.
  intros Hnone. revert w. induction bs as [|b bs IH]; intros w; [reflexivity|].
  cbn [optimizeBullets].
  pose proof (rewriteBullet_unanswered service b kws w Hnone) as Hb.
  destruct (ClaudeService.rewriteBullet service b kws w) as [e w1].
  specialize (IH w1). destruct (optimizeBullets service bs kws w1) as [others w2].
  cbn [fst] in *. now rewrite Hb, IH.
Qed.

(** X21.  [optimizeExperienceSection] returns the experiences it is
    given, in their order, with their company, role and dates, each
    with as many bullets as it had (none for an experience without a
    list of bullets).  When no request to the service succeeds the
    bullets are the original ones. *)
Theorem optimized_experience_keeps_shape (exps : list contentExperience)
    (jks missing : list jobKeyword) (w : world) :
  let out := fst (optimizeExperienceSection service exps jks missing w) in
  List.map (fun e => (ce_company e, ce_role e, ce_dates e,
                      length (default [] (ce_bullets e)))) out
  = List.map (fun e => (ce_company e, ce_role e, ce_dates e,
                        length (default [] (ce_bullets e)))) exps
  /\ (forall e, In e out -> ce_bullets e <> None)
  /\ ((forall n, succeeded (service n) = None) ->
      out = List.map (fun e => ContentExperience (ce_company e) (ce_role e) (ce_dates e)
                                 (Some (default [] (ce_bullets e)))) exps).
Proof.
  intros out. subst out. revert w. induction exps as [|e exps IH]; intros w.
  - split; [reflexivity|]. split; [intros ? []|reflexivity].
  - cbn [optimizeExperienceSection]. cbv zeta.
    pose proof (optimizeBullets_length (default [] (ce_bullets e)) (slice0 3 missing) w) as Hl.
    pose proof (optimizeBullets_unanswered (default [] (ce_bullets e)) (slice0 3 missing) w)
      as Hu.
    destruct (optimizeBullets service (default [] (ce_bullets e)) (slice0 3 missing) w)
      as [bs w1].
    specialize (IH w1).
    destruct (optimizeExperienceSection service exps jks missing w1) as [others w2].
    cbn [fst] in *. destruct IH as (IH1 & IH2 & IH3).
    split; [|split].
    + cbn [List.map ce_company ce_role ce_dates ce_bullets default from_option id].
      now rewrite Hl, IH1.
    + intros x [<-|Hx]; [discriminate|now apply IH2].
    + intros Hnone. cbn [List.map]. now rewrite (Hu Hnone), (IH3 Hnone).
Qed.

Lemma setAdd_incl (x y : string) (keywords : list string) :
  In x keywords -> In x (setAdd y keywords).
Proof.
  intros H. unfold setAdd. case_bool_decide; [exact H|]. apply in_app_iff. now left.
Qed.

Lemma setAdd_here (y : string) (keywords : list string) : In y (setAdd y keywords).
Proof.
  unfold setAdd. case_bool_decide as H; [now apply list_elem_of_In|].
  apply in_app_iff. right. now left.
Qed.

Lemma fold_incl {A : Type} (f : list string -> A -> list string) (l : list A)
    (keywords : list string) (x : string) :
  (forall k a, In x k -> In x (f k a)) -> In x keywords -> In x (fold_left f l keywords).
Proof.
  intros Hf. revert keywords. induction l as [|a l IH]; intros k Hk; [exact Hk|].
  cbn [fold_left]. apply IH. now apply Hf.
Qed.

Lemma addSkills_incl (skills : list skill) (keywords : list string) (x : string) :
  In x keywords -> In x (addSkills skills keywords).
Proof.
  unfold addSkills.
  apply (fold_incl (fun keywords skill =>
           match skillName skill with
           | Some n => if decide (n = EmptyString) then keywords
                       else setAdd (toLowerCase n) keywords
           | None => keywords
           end)).
  intros k a Hk. destruct (skillName a) as [n|]; [|exact Hk].
  destruct (decide (n = EmptyString)); [exact Hk|now apply setAdd_incl].
Qed.

Lemma addSkills_has (skills : list skill) (keywords : list string) (s : string) :
  In (SkillString s) skills -> s <> EmptyString ->
  In (toLowerCase s) (addSkills skills keywords).
Proof.
  revert keywords. induction skills as [|k skills IH]; intros keywords Hin Hne;
    [contradiction|].
  destruct Hin as [->|Hin].
  - unfold addSkills. cbn [fold_left skillName]. rewrite decide_False by exact Hne.
    apply (addSkills_incl skills). apply setAdd_here.
  - unfold addSkills. cbn [fold_left]. now apply IH.
Qed.

(** A skill of the content that is not empty is a keyword of the
    content, in lower case. *)
Lemma content_skill_is_keyword (c : content) (skills : list string) (s : string) :
  c_skills c = Some skills -> In s skills -> s <> EmptyString ->
  In (toLowerCase s) (List.map uk_keyword (extractUserKeywords (asProfile c))).
Proof.
  intros Hs Hin Hne.
  assert (Hm : List.map uk_keyword (extractUserKeywords (asProfile c))
               = userKeywordSet (asProfile c)).
  { unfold extractUserKeywords. rewrite List.map_map. cbn [uk_keyword]. apply List.map_id. }
  rewrite Hm. unfold userKeywordSet, asProfile. cbv zeta.
  cbn [Profile.skills work_experience projects]. rewrite Hs. cbn [fmap option_fmap option_map].
  assert (H1 : In (toLowerCase s) (addSkills (List.map SkillString skills) [])).
  { apply addSkills_has; [now apply in_map|exact Hne]. }
  destruct (c_projects c) as [ps|]; [|exact H1].
  apply fold_incl; [|exact H1].
  intros k a Hk. unfold addProject. destruct (p_technologies a) as [ts|]; [|exact Hk].
  apply fold_incl; [|exact Hk]. intros k' t Hk'. now apply setAdd_incl.
Qed.

Lemma toLowerCase_empty (s : string) : toLowerCase s = EmptyString -> s = EmptyString.
Proof. now destruct s. Qed.

(** The score of an analysis without a match is not finite or is 0. *)
Lemma score_without_match (jobs : list jobKeyword) (target : Qc) :
  (0 < target)%Qc -> geNumber (calculateMatchScore [] jobs) target = false.
Proof.
  intros Ht. unfold calculateMatchScore.
  destruct (decide (length jobs = 0)).
  - cbn [geNumber]. apply bool_decide_eq_false. now apply Qclt_not_le.
  - cbv zeta. cbn [fold_left]. unfold div.
    destruct (decide (_ = 0%Qc)) as [E|E].
    + rewrite decide_True by reflexivity. reflexivity.
    + cbn [mul_pos Math_round geNumber]. apply bool_decide_eq_false.
      match goal with |- ~ (target <= Z2Qc (round_Qc ?q))%Qc =>
        replace q with 0%Qc by (field; exact E) end.
      apply Qclt_not_le. exact Ht.
Qed.

(** X22.  [optimizeContent] fails with a [TypeError] whenever the first
    job keyword is a bare string that is not empty, the content has a
    list of fewer than 15 skills and the target score is positive:
    either the content has one of the job keywords already and the
    first analysis throws, or the keyword is added to the skills and
    the analysis of the optimised content throws.  The keywords need
    not all be strings, as they are when they come through the route
    of this operation. *)
Theorem optimizeContent_fails_on_string_keywords (cvContent : content)
    (skills : list string) (s : string) (rest : list jobKeyword) (target : Qc)
    (w : world) :
  c_skills cvContent = Some skills -> length skills < 15 ->
  s <> EmptyString -> (0 < target)%Qc ->
  fst (optimizeContent service cvContent (KwString s :: rest) target w)
  = Throw TypeError.
Proof.
  intros Hskills Hlen Hne Htarget.
  set (jobs := KwString s :: rest).
  assert (Hstr : forallb isObject jobs = false) by reflexivity.
  unfold optimizeContent.
  pose proof (analysis_outcome (asProfile cvContent) jobs) as H1. cbv zeta in H1.
  destruct (analyzeCVKeywords (asProfile cvContent) jobs) as [a|e];
    [|destruct H1 as [-> _]; reflexivity].
  destruct H1 as [-> [Hnomatch|Hobj]]; [|congruence].
  cbn [matchScore missingKeywords]. rewrite Hnomatch.
  rewrite (score_without_match jobs target Htarget).
  rewrite Hskills.
  (* the skills of the optimised content have the first job keyword *)
  assert (Hhas : exists q, In q (optimizeSkillsSection skills jobs)
                           /\ toLowerCase q = toLowerCase s).
  { unfold optimizeSkillsSection, jobs. cbv zeta. cbn [fold_left].
    unfold addSkill at 2. cbn [keywordOf weightOf].
    rewrite bool_decide_eq_true_2 by reflexivity. cbn [andb].
    set (set0 := list_to_set (List.map toLowerCase skills) : gset string).
    destruct (decide (toLowerCase s ∈ set0)) as [Hin|Hout].
    - rewrite bool_decide_eq_true_2 by exact Hin. cbn [negb].
      destruct (addSkill_fold rest skills set0 (skillSet_spec skills)) as (added & E & _).
      rewrite E. apply skillSet_spec, in_map_iff in Hin. destruct Hin as (q & Hq & Hqin).
      exists q. split; [|exact Hq]. unfold slice0. rewrite firstn_app.
      apply in_app_iff. left. rewrite firstn_all2 by lia. exact Hqin.
    - rewrite bool_decide_eq_false_2 by exact Hout. cbn [negb].
      destruct (addSkill_fold rest (skills ++ [s]) ({[toLowerCase s]} ∪ set0))
        as (added & E & _).
      { intros x. rewrite elem_of_union, elem_of_singleton, List.map_app, in_app_iff.
        unfold set0. rewrite skillSet_spec. cbn [List.map In].
        split; [intros [->|H]; [right; now left|now left]|].
        intros [H|[<-|[]]]; [now right|now left]. }
      rewrite E. exists s. split; [|reflexivity]. unfold slice0. rewrite firstn_app.
      apply in_app_iff. left. rewrite firstn_all2 by (rewrite length_app; simpl; lia).
      apply in_app_iff. right. now left. }
  destruct Hhas as (q & Hq & Hlow).
  assert (Hqne : q <> EmptyString).
  { intros ->. cbn in Hlow. symmetry in Hlow. now apply toLowerCase_empty in Hlow. }
  (* whatever the service does to the experience and the summary *)
  destruct (match c_experience cvContent with
            | Some experience =>
                let '(optimizedExperience, w1) :=
                  optimizeExperienceSection service experience jobs
                    (List.filter (fun jk => negb (matchesCandidate
                        (extractUserKeywords (asProfile cvContent)) jk)) jobs) w in
                (Some optimizedExperience, w1)
            | None => (None, w)
            end) as [experience w1].
  match goal with
  | |- context [let '(summary, w2) := ?x in _] => destruct x as [summary w2]
  end.
  set (optimizedContent := Content summary experience
                             (Some (optimizeSkillsSection skills jobs))
                             (c_projects cvContent)).
  pose proof (analysis_outcome (asProfile optimizedContent) jobs) as H2. cbv zeta in H2.
  destruct (analyzeCVKeywords (asProfile optimizedContent) jobs) as [a|e];
    [|destruct H2 as [-> _]; reflexivity].
  exfalso. destruct H2 as [_ [Hnone|Hobj]]; [|congruence].
  assert (Hm : matchesCandidate (extractUserKeywords (asProfile optimizedContent))
                 (KwString s) = true).
  { pose proof (content_skill_is_keyword optimizedContent _ q eq_refl Hq Hqne) as Hk.
    unfold matchesCandidate. apply existsb_exists. apply in_map_iff in Hk.
    destruct Hk as (uk & Huk & Hin). exists uk. split; [exact Hin|].
    apply bool_decide_eq_true. cbn [keywordOf]. rewrite Huk, toLowerCase_idem. exact Hlow. }
  rewrite (no_match_no_candidate _ jobs (KwString s) Hnone (or_introl eq_refl)) in Hm.
  discriminate.
Qed.

End WithService.

Lemma optimizeContent_fails_on_string_keywords_witness :
  fst (optimizeContent Samples.unreachable
         (Content (Some "Engineer") None (Some ["Docker"]) None)
         [KwString "react"; KwString "aws"] (Z2Qc 80) initial)
  = Throw TypeError.
Proof.
  apply (optimizeContent_fails_on_string_keywords Samples.unreachable _ ["Docker"]).
  - reflexivity.
  - simpl. lia.
  - discriminate.
  - reflexivity.
Defined.

End Optimizer.

(** ** Names, escaping and the output directory of the renderer *)

Section Rendering.
Import JS Effects KeywordService LatexService Spec Vocabulary.
Local Arguments String.append !s1 s2 : simpl nomatch.

Lemma safeChar_lower_allowed (c : ascii) :
  allowedInName c = true -> safeChar (lower_ascii c) = true.
Proof. destruct c as [[] [] [] [] [] [] [] []]; intros H; first [reflexivity|discriminate]. Qed.

Lemma safeChar_fixed (c : ascii) :
  safeChar c = true -> allowedInName c = true /\ lower_ascii c = c.
Proof.
  destruct c as [[] [] [] [] [] [] [] []]; intros H;
    first [split; reflexivity|discriminate].
Qed.

Lemma keepAllowed_safe (s : string) :
  allChars safeChar (toLowerCase (keepAllowed s)) = true.
Proof.
  induction s as [|c s IH]; [reflexivity|]. cbn [keepAllowed].
  destruct (allowedInName c) eqn:E; [|exact IH].
  cbn [toLowerCase allChars]. now rewrite (safeChar_lower_allowed c E), IH.
Qed.

Lemma safe_name_fixed (s : string) :
  allChars safeChar s = true -> toLowerCase (keepAllowed s) = s.
Proof.
  induction s as [|c s IH]; [reflexivity|]. cbn [allChars]. intros H.
  apply andb_true_iff in H. destruct H as [Hc Hs].
  destruct (safeChar_fixed c Hc) as [Ha Hl].
  cbn [keepAllowed]. rewrite Ha. cbn [toLowerCase]. now rewrite Hl, IH.
Qed.

(** X23.  Whatever is asked for, the template name that
    [sanitizeTemplateName] returns is not empty and is made of
    lower-case letters, digits, underscores and hyphens only: it has
    no dot and no path separator, so the file [<name>-cv.tex] is
    looked up in the template directory itself.  A name of that form
    is returned as it is. *)
Theorem template_name_is_safe (templateName : option string) :
  let name := sanitizeTemplateName templateName in
  allChars safeChar name = true
  /\ (1 <= String.length name)
  /\ sanitizeTemplateName (Some name) = name
  /\ (forall s, allChars safeChar s = true -> 1 <= String.length s ->
        sanitizeTemplateName (Some s) = s).
Proof.
  assert (Hfix : forall s, allChars safeChar s = true -> 1 <= String.length s ->
                   sanitizeTemplateName (Some s) = s).
  { intros s Hs Hl. unfold sanitizeTemplateName.
    destruct (decide (s = EmptyString)) as [->|Hne]; [simpl in Hl; lia|].
    cbv zeta. rewrite (safe_name_fixed s Hs). now rewrite decide_False. }
  assert (Hsafe : allChars safeChar (sanitizeTemplateName templateName) = true
                  /\ 1 <= String.length (sanitizeTemplateName templateName)).
  { unfold sanitizeTemplateName. destruct templateName as [s|]; [|split; [reflexivity|simpl; lia]].
    destruct (decide (s = EmptyString)); [split; [reflexivity|simpl; lia]|].
    cbv zeta. destruct (decide (toLowerCase (keepAllowed s) = EmptyString)) as [E|E];
      [split; [reflexivity|simpl; lia]|].
    split; [apply keepAllowed_safe|].
    destruct (toLowerCase (keepAllowed s)); [congruence|simpl; lia]. }
  intros name. destruct Hsafe as [H1 H2].
  split; [exact H1|]. split; [exact H2|]. split; [now apply Hfix|exact Hfix].
Qed.

(** Reading the escaped form of one character gives the character
    back. *)
Lemma unescape_escChar (c : ascii) (t : string) :
  unescape_go 0 (escChar c +:+ t) = String c <$> unescape_go 0 t.
Proof.
  destruct c as [[] [] [] [] [] [] [] []]; try reflexivity; destruct t; reflexivity.
Qed.

Lemma guarded_escChar (c : ascii) (t : string) (prev : option ascii) :
  guarded prev (escChar c +:+ t)
  = guarded (lastChar (escChar c) None) t.
Proof.
  destruct c as [[] [] [] [] [] [] [] []]; cbn;
    try reflexivity; destruct (isBackslash prev); reflexivity.
Qed.

Lemma guarded_charMap (s : string) (prev : option ascii) :
  guarded prev (charMap escChar s) = true.
Proof.
  revert prev. induction s as [|c s IH]; intros prev; [reflexivity|].
  cbn [charMap]. rewrite guarded_escChar. apply IH.
Qed.

Lemma plain_escChar (c : ascii) :
  allChars (fun x => negb (Ascii.eqb x "~" || Ascii.eqb x "^")) (escChar c) = true.
Proof. destruct c as [[] [] [] [] [] [] [] []]; reflexivity. Qed.

Lemma allChars_app (p : ascii -> bool) (a b : string) :
  allChars p (a +:+ b) = allChars p a && allChars p b.
Proof.
  induction a as [|c a IH]; [reflexivity|]. cbn [String.append allChars].
  now rewrite IH, andb_assoc.
Qed.

(** X24.  [escapeLatex] can be read back: the escaped forms decode to
    the text it was given, so two different texts never have the same
    escaped form.  In its result every dollar sign, ampersand, percent
    sign, hash and underscore comes directly after a backslash, and
    there is no tilde and no circumflex. *)
Theorem escapeLatex_can_be_read_back (text : string) :
  unescape (escapeLatex text) = Some text
  /\ guarded None (escapeLatex text) = true
  /\ allChars (fun x => negb (Ascii.eqb x "~" || Ascii.eqb x "^")) (escapeLatex text) = true
  /\ (forall other, escapeLatex other = escapeLatex text -> other = text).
Proof.
  assert (Hback : forall s, unescape (escapeLatex s) = Some s).
  { intros s. rewrite escapeLatex_charMap. unfold unescape.
    induction s as [|c s IH]; [reflexivity|].
    cbn [charMap]. now rewrite unescape_escChar, IH. }
  split; [apply Hback|]. split; [|split].
  - rewrite escapeLatex_charMap. apply guarded_charMap.
  - rewrite escapeLatex_charMap. induction text as [|c s IH]; [reflexivity|].
    cbn [charMap]. now rewrite allChars_app, plain_escChar, IH.
  - intros other E. pose proof (Hback other) as H. rewrite E, Hback in H. congruence.
Qed.

Lemma prefix_app_l (a b s : string) :
  String.prefix (a +:+ b) s = true -> String.prefix a s = true.
Proof.
  revert s. induction a as [|c a IH]; intros s H; [now destruct s|].
  destruct s as [|d s]; [discriminate|]. cbn [String.append String.prefix] in *.
  destruct (ascii_dec c d); [now apply IH|discriminate].
Qed.

Lemma contains_app_l (a b s : string) :
  contains a s = false -> contains (a +:+ b) s = false.
Proof.
  induction s as [|c s IH]; cbn [contains]; intros H.
  - destruct (String.prefix (a +:+ b) EmptyString) eqn:E; [|reflexivity].
    apply prefix_app_l in E. congruence.
  - apply orb_false_iff in H. destruct H as [H1 H2]. rewrite (IH H2), orb_false_r.
    destruct (String.prefix (a +:+ b) (String c s)) eqn:E; [|reflexivity].
    apply prefix_app_l in E. congruence.
Qed.

(** A pass of [replace] leaves a text without a match as it is. *)
Lemma replaceAll_absent (pat repl s : string) :
  contains pat s = false -> replaceAll pat repl s = s.
Proof.
  unfold replaceAll, replaceSegments. generalize EmptyString as before.
  induction s as [|c s IH]; intros before H; [reflexivity|].
  cbn [contains] in H. apply orb_false_iff in H. destruct H as [H1 H2].
  cbn [replace_go]. rewrite H1. cbn [List.map segment_text concat_strings String.append].
  now rewrite IH.
Qed.

Lemma substituteAll_absent (replacements : list (string * string)) (template : string) :
  contains "<<" template = false -> substituteAll replacements template = template.
Proof.
  intros H. unfold substituteAll.
  induction replacements as [|[placeholder value] rest IH]; [reflexivity|].
  cbn [fold_left]. rewrite replaceAll_absent; [exact IH|].
  unfold marker. now apply contains_app_l.
Qed.

(** X29.  A template in which the two characters [<<] do not occur
    comes out of [populateTemplate] as it is, whatever the CV data and
    the options: no value is written where no marker stands. *)
Theorem template_without_markers_is_unchanged (templates : gmap string string)
    (cv : cvData) (templateName : string) (opts : options) (template : string) :
  templates !! (templateName +:+ "-cv.tex") = Some template ->
  contains "<<" template = false ->
  populateTemplate templates cv templateName opts = Ok template.
Proof.
  intros Ht Hc. unfold populateTemplate. rewrite Ht.
  now rewrite substituteAll_absent.
Qed.

Lemma template_without_markers_is_unchanged_witness :
  populateTemplate {[ "plain-cv.tex" := "\documentclass{article} < 5% >" ]}
    Samples.thousands "plain" Samples.noOptions
  = Ok "\documentclass{article} < 5% >".
Proof.
  apply template_without_markers_is_unchanged.
  - reflexivity.
  - reflexivity.
Defined.

(** What the steps of a job do to the output directory, and what a
    successful job returns. *)
Lemma renderSteps_output (templates : gmap string string) (env : environment)
    (cv : cvData) (name : string) (opts : options) (fs : fileSystem) :
  let run := renderSteps templates env cv name opts fs in
  let pdf := filename env +:+ ".pdf" in
  (output (snd run) = output fs
   \/ exists size, output (snd run) = <[pdf := size]> (output fs))
  /\ match fst run with
     | Ok info =>
         pdf_filename info = pdf
         /\ output (snd run) !! pdf = Some (pdf_size info)
         /\ (0 < pdf_size info <= maxFileSize)%N
         /\ pdf_template info = name
         /\ is_Some (templates !! (name +:+ "-cv.tex"))
         /\ compilerEnds env = Exited 0
     | Throw _ => True
     end.
Proof.
  intros run pdf. subst run. unfold renderSteps.
  destruct (directoriesOk env); cbn [negb]; [|split; [now left|exact I]].
  unfold populateTemplate.
  destruct (templates !! (name +:+ "-cv.tex")) as [template|] eqn:Ht;
    [|split; [now left|exact I]].
  destruct (writeOk env); cbn [negb]; [|split; [now left|exact I]].
  set (fs1 := FileSystem _ _). unfold compileToPDF.
  destruct (compilerEnds env) as [[|code]| |msg] eqn:Hend; cbn [fst snd output];
    try (split; [now left|exact I]).
  cbn [temp]. fold pdf.
  destruct (writeFiles (compilerWrites env) (temp fs1) !! pdf) as [size|];
    [|split; [now left|exact I]].
  destruct (copyOk env); [|split; [now left|exact I]].
  unfold getFileSize. cbn [output]. rewrite lookup_insert_eq. cbn [default from_option id].
  destruct (size =? 0)%N eqn:E0; [split; [right; eauto|exact I]|].
  destruct (maxFileSize <? size)%N eqn:Emax; [split; [right; eauto|exact I]|].
  cbn [fst snd output pdf_filename pdf_size pdf_template].
  split; [right; eauto|]. split; [reflexivity|]. split; [apply lookup_insert_eq|].
  apply N.eqb_neq in E0. apply N.ltb_ge in Emax.
  split; [lia|]. split; [reflexivity|]. split; [eauto|reflexivity].
Qed.

Lemma generatePDF_steps (templates : gmap string string) (env : environment)
    (cv : cvData) (templateName : option string) (opts : options) (fs : fileSystem) :
  let run := renderSteps templates env cv (sanitizeTemplateName templateName) opts fs in
  generatePDF templates env (Some cv) templateName opts fs
  = (fst run, cleanupTempFiles (filename env) (snd run)).
Proof.
  cbv zeta. unfold generatePDF.
  destruct (renderSteps templates env cv (sanitizeTemplateName templateName) opts fs)
    as [[info|e] fs2]; reflexivity.
Qed.

(** The output directory after a job: nothing is removed, and nothing
    but the PDF of the job is written. *)
Lemma generatePDF_output (templates : gmap string string) (env : environment)
    (cv : option cvData) (templateName : option string) (opts : options)
    (fs : fileSystem) :
  let fs' := snd (generatePDF templates env cv templateName opts fs) in
  (forall n, n <> filename env +:+ ".pdf" -> output fs' !! n = output fs !! n)
  /\ (forall n, is_Some (output fs !! n) -> is_Some (output fs' !! n)).
Proof.
  destruct cv as [cv|]; [|split; [reflexivity|auto]].
  cbv zeta. rewrite generatePDF_steps. cbn [snd cleanupTempFiles output].
  destruct (renderSteps_output templates env cv (sanitizeTemplateName templateName)
              opts fs) as [[E|[size E]] _]; rewrite E.
  - split; [reflexivity|auto].
  - split.
    + intros n Hn. now rewrite lookup_insert_ne.
    + intros n Hn. destruct (decide (filename env +:+ ".pdf" = n)) as [<-|Hne].
      * rewrite lookup_insert_eq. eauto.
      * now rewrite lookup_insert_ne.
Qed.

(** What a job returns and what it leaves in the output directory. *)
Lemma successful_job_facts (templates : gmap string string)
    (env : environment) (cv : option cvData) (templateName : option string)
    (opts : options) (fs : fileSystem) :
  let run := generatePDF templates env cv templateName opts fs in
  match fst run with
  | Ok info =>
      pdf_filename info = filename env +:+ ".pdf"
      /\ output (snd run) !! pdf_filename info = Some (pdf_size info)
      /\ (0 < pdf_size info <= maxFileSize)%N
      /\ pdf_template info = sanitizeTemplateName templateName
      /\ is_Some (templates !! (pdf_template info +:+ "-cv.tex"))
      /\ compilerEnds env = Exited 0
      /\ cv <> None
  | Throw _ => True
  end
  /\ (forall n, is_Some (output fs !! n) -> is_Some (output (snd run) !! n)).
Proof.
  intros run. split; [|apply generatePDF_output].
  subst run. destruct cv as [cv|]; [|exact I].
  rewrite generatePDF_steps. cbn [fst snd cleanupTempFiles output].
  destruct (renderSteps_output templates env cv (sanitizeTemplateName templateName)
              opts fs) as [_ H].
  destruct (fst (renderSteps templates env cv (sanitizeTemplateName templateName) opts fs))
    as [info|e]; [|exact I].
  destruct H as (H1 & H2 & H3 & H4 & H5 & H6).
  rewrite H1, H4. repeat split; try assumption; try apply H3. discriminate.
Qed.

(** X25.  A render job that succeeds has put its PDF in the output
    directory: the file named in the result is there with the size
    reported, which is positive and at most the limit of 10 MiB; the
    template of the result is the sanitised name, a template that
    exists; the compiler ended with code 0.  Whether it succeeds or
    not, a job removes no file of the output directory and writes at
    most the one named after it. *)
Theorem successful_job_leaves_its_pdf (templates : gmap string string)
    (env : environment) (cv : option cvData) (templateName : option string)
    (opts : options) (fs : fileSystem) :
  let run := generatePDF templates env cv templateName opts fs in
  match fst run with
  | Ok info =>
      pdf_filename info = filename env +:+ ".pdf"
      /\ output (snd run) !! pdf_filename info = Some (pdf_size info)
      /\ (0 < pdf_size info <= maxFileSize)%N
      /\ pdf_template info = sanitizeTemplateName templateName
      /\ is_Some (templates !! (pdf_template info +:+ "-cv.tex"))
      /\ compilerEnds env = Exited 0
      /\ cv <> None
  | Throw _ => True
  end
  /\ (forall n, n <> filename env +:+ ".pdf" ->
        output (snd run) !! n = output fs !! n)
  /\ (forall n, is_Some (output fs !! n) -> is_Some (output (snd run) !! n)).
Proof.
  intros run. split; [apply successful_job_facts|apply generatePDF_output].
Qed.

Lemma writeFiles_other (files : list (string * N)) (dir : gmap string N) (n : string) :
  ~ In n (List.map fst files) -> writeFiles files dir !! n = dir !! n.
Proof.
  unfold writeFiles. revert dir. induction files as [|[m s] files IH]; intros dir Hno;
    [reflexivity|].
  cbn [fold_left]. rewrite IH by (intros H; apply Hno; now right).
  apply lookup_insert_ne. intros E. apply Hno. now left.
Qed.

(** A file that the compiler writes once has the size written. *)
Lemma writeFiles_written (files : list (string * N)) (dir : gmap string N) (n : string)
    (size : N) :
  In (n, size) files -> NoDup (List.map fst files) ->
  writeFiles files dir !! n = Some size.
Proof.
  revert dir. induction files as [|[m s] files IH]; intros dir Hin Hnd; [contradiction|].
  cbn [List.map fst] in Hnd. apply NoDup_cons in Hnd. destruct Hnd as [Hn Hnd].
  destruct Hin as [E|Hin].
  - inversion E; subst.
    change (writeFiles ((n, size) :: files) dir) with (writeFiles files (<[n := size]> dir)).
    rewrite writeFiles_other; [apply lookup_insert_eq|].
    intros H. apply Hn. now apply list_elem_of_In.
  - change (writeFiles ((m, s) :: files) dir) with (writeFiles files (<[m := s]> dir)).
    now apply IH.
Qed.

(** X26.  A PDF that is empty or larger than the limit makes the job
    fail, but only after it has been copied: when the compiler ends
    with code 0 and the copy succeeds, a PDF of 0 bytes or of more than
    10 MiB is reported as an error and stays in the output
    directory. *)
Theorem rejected_pdf_stays_in_output (templates : gmap string string)
    (env : environment) (cv : cvData) (templateName : option string)
    (opts : options) (fs : fileSystem) (template : string) (size : N) :
  directoriesOk env = true -> writeOk env = true -> copyOk env = true ->
  compilerEnds env = Exited 0 ->
  templates !! (sanitizeTemplateName templateName +:+ "-cv.tex") = Some template ->
  In (filename env +:+ ".pdf", size) (compilerWrites env) ->
  NoDup (List.map fst (compilerWrites env)) ->
  (size = 0 \/ maxFileSize < size)%N ->
  let run := generatePDF templates env (Some cv) templateName opts fs in
  (exists message, fst run = Throw (PlainError message))
  /\ output (snd run) !! (filename env +:+ ".pdf") = Some size.
Proof.
  intros Hd Hw Hc Hend Ht Hin Hnd Hsize run. subst run.
  rewrite generatePDF_steps. cbn [fst snd cleanupTempFiles output].
  unfold renderSteps, populateTemplate. rewrite Hd, Ht, Hw. cbn [negb].
  set (fs1 := FileSystem _ _). unfold compileToPDF. rewrite Hend. cbn [temp].
  assert (Hl : writeFiles (compilerWrites env) (temp fs1) !! (filename env +:+ ".pdf")
               = Some size) by (now apply writeFiles_written).
  rewrite Hl, Hc. unfold getFileSize. cbn [output]. rewrite lookup_insert_eq.
  cbn [default from_option id].
  destruct Hsize as [->|Hbig].
  - cbn [N.eqb fst snd output]. split; [eauto|apply lookup_insert_eq].
  - assert (E0 : (size =? 0)%N = false) by (apply N.eqb_neq; unfold maxFileSize in Hbig; lia).
    rewrite E0. apply N.ltb_lt in Hbig. rewrite Hbig. cbn [fst snd output].
    split; [eauto|apply lookup_insert_eq].
Qed.

Lemma rejected_pdf_stays_in_output_witness :
  (exists message,
     fst (generatePDF Samples.stockTemplates Samples.emptyPdfRun (Some Samples.someone)
            (Some "modern") Samples.noOptions Samples.emptyDisk)
     = Throw (PlainError message))
  /\ output (snd (generatePDF Samples.stockTemplates Samples.emptyPdfRun
                    (Some Samples.someone) (Some "modern") Samples.noOptions
                    Samples.emptyDisk))
       !! "cv-7f3a-2024-05-01T10-00-00-000Z.pdf" = Some 0%N.
Proof.
  apply (rejected_pdf_stays_in_output Samples.stockTemplates Samples.emptyPdfRun
           Samples.someone (Some "modern") Samples.noOptions Samples.emptyDisk
           "\name{<<NAME>>}\email{<<EMAIL>>} <<SUMMARY>> & more" 0%N).
  - reflexivity.
  - reflexivity.
  - reflexivity.
  - reflexivity.
  - vm_compute. reflexivity.
  - right. right. left. reflexivity.
  - apply (bool_decide_unpack _). vm_compute. reflexivity.
  - left. reflexivity.
Defined.

End Rendering.

(** ** Several templates in one request *)

Section Batch.
Import JS Effects LatexService PdfController Spec Vocabulary.
Context (templatesDir : gmap string string) (environments : nat -> environment).

(** The loop over the templates, from any job number and any state of
    the directories. *)
Lemma renderEach_spec (cv : option cvData) (opts : options)
    (templates : list (option string)) (job : nat) (fs : fileSystem) :
  let run := renderEach templatesDir environments job cv templates opts fs in
  let results := fst (fst run) in
  let errors := snd (fst run) in
  length results + length errors = length templates
  /\ Permutation (List.map ps_template results ++ List.map pf_template errors) templates
  /\ (forall r, In r results ->
        is_Some (output (snd run) !! ps_filename r)
        /\ (0 < ps_size r <= maxFileSize)%N
        /\ ps_downloadUrl r = "/output/" +:+ ps_filename r)
  /\ (forall n, is_Some (output fs !! n) -> is_Some (output (snd run) !! n))
  /\ (cv = None -> results = []).
Proof.
  revert job fs. induction templates as [|template rest IH]; intros job fs.
  - cbn. split; [reflexivity|]. split; [constructor|]. split; [intros ? []|].
    split; [auto|reflexivity].
  - cbn [renderEach].
    pose proof (successful_job_facts templatesDir (environments job) cv template opts fs)
      as Hjob.
    destruct (generatePDF templatesDir (environments job) cv template opts fs)
      as [outcome fs1].
    specialize (IH (S job) fs1).
    destruct (renderEach templatesDir environments (S job) cv rest opts fs1)
      as [[results errors] fs2].
    cbn [fst snd] in *. destruct IH as (IH1 & IH2 & IH3 & IH4 & IH5).
    destruct Hjob as (Hok & Hkeep).
    destruct outcome as [info|e]; cbn [fst snd length List.map app].
    + split; [lia|]. split; [now constructor|]. split; [|split].
      * intros r [<-|Hr]; [|now apply IH3].
        cbn [ps_filename ps_size ps_downloadUrl].
        destruct Hok as (_ & H2 & H3 & _).
        split; [apply IH4; rewrite H2; eauto|]. split; [exact H3|reflexivity].
      * intros n Hn. apply IH4, Hkeep, Hn.
      * intros ->. destruct Hok as (_ & _ & _ & _ & _ & _ & Hcv). congruence.
    + split; [lia|]. split; [|split; [exact IH3|split; [|exact IH5]]].
      * etransitivity; [|apply perm_skip, IH2].
        symmetry. apply Permutation_middle.
      * intros n Hn. apply IH4, Hkeep, Hn.
Qed.

(** X27.  [generateMultiplePDFs] refuses a request with more than five
    templates without rendering anything.  Otherwise it renders every
    template of the request, one job after the other, and a job that
    fails does not stop the next: each template is reported once,
    among the results or among the errors, so the two counts add up to
    the number of templates.  The PDF of every result is in the output
    directory when the request ends, with a size that is positive and
    within the limit, and no file of the output directory has been
    removed. *)
Theorem batch_reports_every_template (cv : option cvData)
    (templates : list (option string)) (opts : options) (fs : fileSystem) :
  match generateMultiplePDFs templatesDir environments cv templates opts fs with
  | (BadRequest message, fs') =>
      5 < length templates /\ fs' = fs /\ message = "Maximum 5 templates allowed"
  | (Generated results errors total, fs') =>
      length templates <= 5
      /\ total = length templates
      /\ length results + length errors = total
      /\ Permutation (List.map ps_template results ++ List.map pf_template errors)
           templates
      /\ (forall r, In r results ->
            is_Some (output fs' !! ps_filename r)
            /\ (0 < ps_size r <= maxFileSize)%N
            /\ ps_downloadUrl r = "/output/" +:+ ps_filename r)
      /\ (forall n, is_Some (output fs !! n) -> is_Some (output fs' !! n))
      /\ (cv = None -> results = [])
  end.
Proof.
  unfold generateMultiplePDFs.
  destruct (5 <? length templates)%nat eqn:E.
  - apply Nat.ltb_lt in E. now split.
  - apply Nat.ltb_ge in E.
    pose proof (renderEach_spec cv opts templates 0 fs) as H. cbv zeta in H.
    destruct (renderEach templatesDir environments 0 cv templates opts fs)
      as [[results errors] fs'].
    cbn [fst snd] in H. destruct H as (H1 & H2 & H3 & H4 & H5).
    split; [exact E|]. split; [reflexivity|]. split; [exact H1|]. split; [exact H2|].
    split; [exact H3|]. split; [exact H4|exact H5].
Qed.

End Batch.

(** ** The tailoring as a whole *)

Section TailoringFacts.
Import JS Effects KeywordService Profile KeywordAnalysis ClaudeKeywords KeywordPipeline
  ContentService ContentOptimizer Tailoring Spec Vocabulary.
Context (service : nat -> apiReply).
Context (JSON_parse_keywords : string -> option keywordsJson).
Context (JSON_parse : string -> option json).








End TailoringFacts.

(** ** The score before and after an optimisation *)

Section OptimizerScore.
Import JS Effects KeywordService Profile KeywordAnalysis ContentService ContentOptimizer
  Spec Vocabulary.








Section WithService.
Context (service : nat -> apiReply).


End WithService.


(** With more than 15 skills the cut can drop the skill that matched:
    here the 16th skill is the only job keyword, and the score falls
    from 100 to 0. *)
Example cut_skills_can_lower_the_score :
  let skills := ["s01"; "s02"; "s03"; "s04"; "s05"; "s06"; "s07"; "s08"; "s09"; "s10";
                 "s11"; "s12"; "s13"; "s14"; "s15"; "react"] in
  let jobs := [KwObject "react" (Q2Qc (6 # 10)) "technical"] in
  option_map (fun o => (matchScore (o_analysis o), improvement o))
    (match fst (optimizeContent Samples.unreachable
                  (Content None None (Some skills) None) jobs (Z2Qc 101) initial) with
     | Ok o => Some o
     | Throw _ => None
     end)
  = Some (Fin (Z2Qc 0), Some (Fin (Z2Qc (-100)))).
Proof. vm_compute. reflexivity. Qed.

End OptimizerScore.
